(** * skool-downloader: the progress ledger, the download executors and the
    download queue, embedded from the TypeScript sources.

    The code:
    - [ProgressTracker]     src/state/progress-tracker.ts
    - [Js]                  promises, truthiness and string methods
    - [ResourceDownloader]  the downloader of attachments: downloadFile,
                            downloadResource, downloadModuleResources
    - [YtDlp]               src/downloader/yt-dlp-wrapper.ts
    - [DownloadQueue]       src/downloader/download-queue.ts
    - [VideoExtractor]      getDownloadableUrl of the video extractor
    - [FileUtils]           src/utils/file-utils.ts
    - [Cli]                 the download and resume commands: seeding the
                            ledger, queueing a module, resuming

    Bodies for the built-ins, to run the code on examples:
    [Json], [LedgerJson], [Node], [Worlds]; [RawLedger] is [addLesson] on
    a state that [JSON.parse] returned and that is not a ledger.

    The vocabulary of the statements:
    [Ledger], [Scheduling], [Durability], [Fetch], [LedgerShape],
    [Workers], [Arguments], [Results], [Names], [Commands].

    The properties:
    [LedgerFacts], [PersistenceFacts], [FetchFacts], [YtDlpFacts],
    [QueueFacts], [LedgerMore], [LedgerInvariants], [PersistenceMore],
    [QueueMore], [YtDlpMore], [FetchMore], [NameFacts], [CommandFacts].

    JavaScript numbers that count things (attempts, indices, HTTP status
    codes) are integers of [Z]; strings are [string]; an optional property
    [p?: T] is an [option T]; an array is a [list]. Node and JavaScript
    built-ins the code calls (JSON, path, URL, regular expressions, the file
    system, the network, the child process) are parameters of the code that
    uses them. *)

From Stdlib Require Import ZArith Lia Ascii.
From stdpp Require Import base decidable option numbers list strings pretty gmap.

Local Open Scope string_scope.
Local Open Scope list_scope.
Local Open Scope Z_scope.

(** ** src/state/progress-tracker.ts *)

Module ProgressTracker.

(** [status: 'pending' | 'downloading' | 'completed' | 'failed' | 'skipped'] *)
Inductive Status : Type :=
  | pending
  | downloading
  | completed
  | failed
  | skipped.

#[global] Instance Status_eq_dec : EqDecision Status.
Proof. solve_decision. Defined.

(** [interface LessonState] *)
Record LessonState : Type := mkLessonState {
  id : string;
  moduleIndex : Z;
  lessonIndex : Z;
  moduleTitle : string;
  lessonTitle : string;
  videoUrl : option string;
  videoProvider : option string;
  status : Status;
  outputPath : option string;
  error : option string;
  attempts : Z;
}.

#[global] Instance LessonState_eq_dec : EqDecision LessonState.
Proof. solve_decision. Defined.

(** [Omit<LessonState, 'status' | 'attempts'>], the argument of [addLesson]. *)
Record LessonInput : Type := mkLessonInput {
  in_id : string;
  in_moduleIndex : Z;
  in_lessonIndex : Z;
  in_moduleTitle : string;
  in_lessonTitle : string;
  in_videoUrl : option string;
  in_videoProvider : option string;
  in_outputPath : option string;
  in_error : option string;
}.

(** [Partial<LessonState>], the argument of [updateLesson]. [None] is a key
    that is absent from the object literal. For the optional properties the
    key can be present and hold [undefined] ([Some None]), as in
    [{ error: undefined }], and [Object.assign] copies it. *)
Record LessonUpdates : Type := mkLessonUpdates {
  u_id : option string;
  u_moduleIndex : option Z;
  u_lessonIndex : option Z;
  u_moduleTitle : option string;
  u_lessonTitle : option string;
  u_videoUrl : option (option string);
  u_videoProvider : option (option string);
  u_status : option Status;
  u_outputPath : option (option string);
  u_error : option (option string);
  u_attempts : option Z;
}.

(** The empty object literal [{}]. *)
Definition no_updates : LessonUpdates :=
  mkLessonUpdates None None None None None None None None None None None.

(** [interface CourseState] *)
Record CourseState : Type := mkCourseState {
  url : string;
  courseName : string;
  startedAt : string;
  lastUpdated : string;
  lessons : list LessonState;
}.

(** The fields of [class ProgressTracker]. [saveTimeout] is the handle of the
    timer armed by [scheduleSave] ([null] before the first one); handles are
    numbered in the order [setTimeout] hands them out. *)
Record Tracker : Type := mkTracker {
  state : CourseState;
  statePath : string;
  saveTimeout : option nat;
}.

(** [createEmptyState()]; [now] is [new Date().toISOString()]. *)
Definition createEmptyState (now : string) : CourseState :=
  {| url := EmptyString; courseName := EmptyString; startedAt := now; lastUpdated := now;
     lessons := [] |}.

(** [scheduleSave()]: clears the armed timer, if any, and arms a new one. *)
Definition scheduleSave (t : Tracker) : Tracker :=
  {| state := state t;
     statePath := statePath t;
     saveTimeout := Some (match saveTimeout t with
                          | Some h => S h
                          | None => O
                          end) |}.

(** [initialize(url, courseName)] *)
Definition initialize (now : string) (t : Tracker) (u name : string) : Tracker :=
  {| state := {| url := u; courseName := name; startedAt := now;
                 lastUpdated := lastUpdated (state t);
                 lessons := lessons (state t) |};
     statePath := statePath t;
     saveTimeout := saveTimeout t |}.

(** [this.state.lessons.find((l) => l.id === i)]: the first match, with its
    position in the array. *)
Definition find_lesson (i : string) (ls : list LessonState) : option (nat * LessonState) :=
  list_find (λ l, id l = i) ls.

(** [getLesson(id)] *)
Definition getLesson (t : Tracker) (i : string) : option LessonState :=
  snd <$> find_lesson i (lessons (state t)).

(** [{ ...lesson, status: 'pending', attempts: 0 }] *)
Definition new_lesson (x : LessonInput) : LessonState :=
  {| id := in_id x;
     moduleIndex := in_moduleIndex x;
     lessonIndex := in_lessonIndex x;
     moduleTitle := in_moduleTitle x;
     lessonTitle := in_lessonTitle x;
     videoUrl := in_videoUrl x;
     videoProvider := in_videoProvider x;
     status := pending;
     outputPath := in_outputPath x;
     error := in_error x;
     attempts := 0 |}.

Definition with_lessons (t : Tracker) (ls : list LessonState) : Tracker :=
  {| state := {| url := url (state t); courseName := courseName (state t);
                 startedAt := startedAt (state t);
                 lastUpdated := lastUpdated (state t);
                 lessons := ls |};
     statePath := statePath t;
     saveTimeout := saveTimeout t |}.

(** [addLesson(lesson)] *)
Definition addLesson (t : Tracker) (x : LessonInput) : Tracker :=
  match find_lesson (in_id x) (lessons (state t)) with
  | Some _ => t
  | None => scheduleSave (with_lessons t (lessons (state t) ++ [new_lesson x]))
  end.

(** [Object.assign(lesson, updates)] *)
Definition assign (l : LessonState) (u : LessonUpdates) : LessonState :=
  {| id := default (id l) (u_id u);
     moduleIndex := default (moduleIndex l) (u_moduleIndex u);
     lessonIndex := default (lessonIndex l) (u_lessonIndex u);
     moduleTitle := default (moduleTitle l) (u_moduleTitle u);
     lessonTitle := default (lessonTitle l) (u_lessonTitle u);
     videoUrl := default (videoUrl l) (u_videoUrl u);
     videoProvider := default (videoProvider l) (u_videoProvider u);
     status := default (status l) (u_status u);
     outputPath := default (outputPath l) (u_outputPath u);
     error := default (error l) (u_error u);
     attempts := default (attempts l) (u_attempts u) |}.

(** [updateLesson(id, updates)]: the object found is mutated in place, so
    the array keeps its length and order. *)
Definition updateLesson (t : Tracker) (i : string) (u : LessonUpdates) : Tracker :=
  match find_lesson i (lessons (state t)) with
  | Some (k, l) => scheduleSave (with_lessons t (<[k := assign l u]> (lessons (state t))))
  | None => t
  end.

(** [x || 0] on a number that may be [undefined]. *)
Definition or_zero (o : option Z) : Z :=
  match o with
  | Some a => if decide (a = 0) then 0 else a
  | None => 0
  end.

(** [markStarted(id)] *)
Definition markStarted (t : Tracker) (i : string) : Tracker :=
  updateLesson t i
    {| u_id := None; u_moduleIndex := None; u_lessonIndex := None;
       u_moduleTitle := None; u_lessonTitle := None; u_videoUrl := None;
       u_videoProvider := None;
       u_status := Some downloading;
       u_outputPath := None; u_error := None;
       u_attempts := Some (or_zero (attempts <$> getLesson t i) + 1) |}.

(** [markCompleted(id, outputPath)] *)
Definition markCompleted (t : Tracker) (i : string) (out : string) : Tracker :=
  updateLesson t i
    {| u_id := None; u_moduleIndex := None; u_lessonIndex := None;
       u_moduleTitle := None; u_lessonTitle := None; u_videoUrl := None;
       u_videoProvider := None;
       u_status := Some completed;
       u_outputPath := Some (Some out);
       u_error := Some None;
       u_attempts := None |}.

(** [markFailed(id, error)] *)
Definition markFailed (t : Tracker) (i : string) (err : string) : Tracker :=
  updateLesson t i
    {| u_id := None; u_moduleIndex := None; u_lessonIndex := None;
       u_moduleTitle := None; u_lessonTitle := None; u_videoUrl := None;
       u_videoProvider := None;
       u_status := Some failed;
       u_outputPath := None;
       u_error := Some (Some err);
       u_attempts := None |}.

(** [markSkipped(id, reason)] *)
Definition markSkipped (t : Tracker) (i : string) (reason : string) : Tracker :=
  updateLesson t i
    {| u_id := None; u_moduleIndex := None; u_lessonIndex := None;
       u_moduleTitle := None; u_lessonTitle := None; u_videoUrl := None;
       u_videoProvider := None;
       u_status := Some skipped;
       u_outputPath := None;
       u_error := Some (Some reason);
       u_attempts := None |}.

(** [getPendingLessons()] *)
Definition getPendingLessons (t : Tracker) : list LessonState :=
  filter (λ l, status l = pending ∨ (status l = failed ∧ attempts l < 3))
         (lessons (state t)).

(** The object returned by [getStats()]. *)
Record Stats : Type := mkStats {
  st_total : nat;
  st_completed : nat;
  st_failed : nat;
  st_pending : nat;
  st_skipped : nat;
}.

Definition with_status (s : Status) (ls : list LessonState) : list LessonState :=
  filter (λ l, status l = s) ls.

(** [getStats()] *)
Definition getStats (t : Tracker) : Stats :=
  let ls := lessons (state t) in
  {| st_total := length ls;
     st_completed := length (with_status completed ls);
     st_failed := length (with_status failed ls);
     st_pending := length (with_status pending ls);
     st_skipped := length (with_status skipped ls) |}.

(** [getState()], [hasExistingProgress()], [getCourseName()] *)
Definition getState (t : Tracker) : CourseState := state t.

Definition hasExistingProgress (t : Tracker) : bool :=
  bool_decide (0 < length (lessons (state t)))%nat.

Definition getCourseName (t : Tracker) : string := courseName (state t).


(** *** Persistence: [load()] and [save()] *)

(** What [JSON.parse(data)] does with the text of the state file. The result
    of a successful parse is assigned to [this.state] without any check, so
    a document that is JSON but not a [CourseState] is told apart. *)
Inductive Parsed : Type :=
  | SyntaxError (msg : string)     (* JSON.parse throws *)
  | Document (s : CourseState)     (* the text denotes a CourseState *)
  | ForeignValue.                  (* any other JSON value: null, 42, [], ... *)

(** A path of the disk: a regular file with its text, or something that
    exists ([fs.access] succeeds) and that [fs.readFile] refuses (a
    directory, a file without read permission). *)
Inductive Node : Type :=
  | File (content : string)
  | Unreadable (err : string).

Abbreviation Disk := (gmap string Node).

(** The calls [save()] makes on [fs/promises]. [Rename] is not called by the
    class; it is part of the vocabulary so that a write-then-rename
    sequence can be written down and compared with what [save()] does. *)
Inductive FsOp : Type :=
  | Mkdir (dir : string)                 (* fs.mkdir(dir, { recursive: true }) *)
  | WriteFile (path content : string)    (* fs.writeFile(path, content) *)
  | Rename (src dst : string).           (* fs.rename(src, dst) *)

(** The result of [load()]. *)
Inductive LoadResult : Type :=
  | Loaded (t : Tracker)                          (* returns true *)
  | LoadedForeign                                 (* returns true, this.state is not a CourseState *)
  | NotLoaded (t : Tracker) (warning : option string).   (* returns false *)

Definition load_returns (r : LoadResult) : bool :=
  match r with
  | Loaded _ | LoadedForeign => true
  | NotLoaded _ _ => false
  end.

Section Persistence.

(** [JSON.parse], [JSON.stringify(_, null, 2)], [path.join], [path.dirname] *)
Variable JSON_parse : string → Parsed.
Variable JSON_stringify : CourseState → string.
Variable path_join : string → string → string.
Variable path_dirname : string → string.

(** [constructor(stateDir, courseSlug)] *)
Definition new_tracker (now : string) (stateDir courseSlug : string) : Tracker :=
  {| state := createEmptyState now;
     statePath := path_join stateDir (courseSlug +:+ "-progress.json");
     saveTimeout := None |}.

(** [fileExists(filePath)] of utils/file-utils.ts: [fs.access] in a
    [try]/[catch] that answers [false]. *)
Definition fileExists (d : Disk) (p : string) : bool :=
  bool_decide (is_Some (d !! p)).

(** [fs.readFile(path, 'utf-8')]: the text, or the error thrown. *)
Definition readFile (d : Disk) (p : string) : string + string :=
  match d !! p with
  | Some (File c) => inl c
  | Some (Unreadable e) => inr e
  | None => inr "ENOENT"
  end.

(** [load()] *)
Definition load (d : Disk) (t : Tracker) : LoadResult :=
  if fileExists d (statePath t) then
    match readFile d (statePath t) with
    | inl data =>
        match JSON_parse data with
        | Document s =>
            Loaded {| state := s; statePath := statePath t;
                      saveTimeout := saveTimeout t |}
        | ForeignValue => LoadedForeign
        | SyntaxError e =>
            NotLoaded t (Some ("Could not load progress state: " +:+ e))
        end
    | inr e => NotLoaded t (Some ("Could not load progress state: " +:+ e))
    end
  else NotLoaded t None.

(** [this.state.lastUpdated = new Date().toISOString()] *)
Definition touch (now : string) (t : Tracker) : Tracker :=
  {| state := {| url := url (state t); courseName := courseName (state t);
                 startedAt := startedAt (state t);
                 lastUpdated := now;
                 lessons := lessons (state t) |};
     statePath := statePath t;
     saveTimeout := saveTimeout t |}.

(** [save()]: the tracker afterwards and the file-system calls, in order. *)
Definition save (now : string) (t : Tracker) : Tracker * list FsOp :=
  let t' := touch now t in
  (t', [ Mkdir (path_dirname (statePath t'));
         WriteFile (statePath t') (JSON_stringify (state t')) ]).

End Persistence.

(** *** The disk under the calls of [save()], with and without a crash *)

(** A call that runs to its end. Directories are not files of the map;
    [fs.rename] of a missing source throws and changes nothing. *)
Definition apply_op (d : Disk) (op : FsOp) : Disk :=
  match op with
  | Mkdir _ => d
  | WriteFile p c => <[p := File c]> d
  | Rename a b =>
      match d !! a with
      | Some n => <[b := n]> (delete a d)
      | None => d
      end
  end.

Definition run_ops (d : Disk) (ops : list FsOp) : Disk :=
  foldl apply_op d ops.

(** The first [k] characters of a text. *)
Definition prefix_of (k : nat) (c : string) : string := String.substring 0 k c.

(** The disk when the process dies inside a call. [fs.writeFile] opens its
    target with flag ['w'], which truncates it, and then writes the text
    piece by piece: the target holds some strict prefix of the new text.
    [fs.mkdir] and [fs.rename] have no state in between. *)
Definition torn (d : Disk) (op : FsOp) : list Disk :=
  match op with
  | WriteFile p c => (λ k, <[p := File (prefix_of k c)]> d) <$> seq 0 (String.length c)
  | Mkdir _ | Rename _ _ => []
  end.

(** Every disk a crash can leave behind while [ops] run from [d]: the crash
    comes before the next call, inside it, or later. *)
Fixpoint crash_disks (d : Disk) (ops : list FsOp) : list Disk :=
  match ops with
  | [] => [d]
  | op :: rest => d :: torn d op ++ crash_disks (apply_op d op) rest
  end.

(** The text of a path, when it is a regular file. *)
Definition text_at (d : Disk) (p : string) : option string :=
  match d !! p with
  | Some (File c) => Some c
  | _ => None
  end.

(** Crash atomicity of a sequence of calls for the path [p]: whenever the
    process dies, [p] holds what it held before the sequence or what it
    holds after it. *)
Definition crash_atomic (d : Disk) (ops : list FsOp) (p : string) : Prop :=
  ∀ d', d' ∈ crash_disks d ops →
        d' !! p = d !! p ∨ d' !! p = run_ops d ops !! p.

(** The mechanism the ledger's [persist()] is described with, "write to
    temp + rename", as a sequence of calls. The class has no such method;
    the sequence is here for comparison with [save]. *)
Definition spec_persist_ops (dir tmp path content : string) : list FsOp :=
  [ Mkdir dir; WriteFile tmp content; Rename tmp path ].

End ProgressTracker.

(** ** Promises and JavaScript strings *)

Module Js.

(** How an [async] call ends for the code that awaits it. *)
Inductive Promise (A : Type) : Type :=
  | Resolved (a : A)          (* the promise resolves with a value *)
  | Rejected (err : string)   (* the promise is rejected: [await] throws *)
  | Unhandled (err : string). (* an exception inside a callback; no call of
                                 [resolve] is reached on this path *)
Arguments Resolved {A} a.
Arguments Rejected {A} err.
Arguments Unhandled {A} err.

(** [s] is truthy: a string that is not empty. *)
Definition truthy (s : string) : bool :=
  match s with
  | EmptyString => false
  | String _ _ => true
  end.

(** [o && ...] on an optional string: defined and not empty. *)
Definition truthy_opt (o : option string) : bool :=
  match o with
  | Some s => truthy s
  | None => false
  end.

(** [a || b] on an optional string. *)
Definition or_else (o : option string) (b : string) : string :=
  match o with
  | Some s => if truthy s then s else b
  | None => b
  end.

(** [hay.includes(needle)] *)
Fixpoint includes (needle hay : string) : bool :=
  String.prefix needle hay ||
  match hay with
  | EmptyString => false
  | String _ rest => includes needle rest
  end.

(** [s.replace(old, new)] with a string pattern: the first occurrence only. *)
Fixpoint replace_first (old new s : string) : string :=
  if String.prefix old s then
    new +:+ String.substring (String.length old) (String.length s - String.length old)%nat s
  else
    match s with
    | EmptyString => EmptyString
    | String c rest => String c (replace_first old new rest)
    end.

(** [s.split(sep)[0]] for a one-character separator. *)
Fixpoint before_char (sep : Ascii.ascii) (s : string) : string :=
  match s with
  | EmptyString => EmptyString
  | String c rest => if decide (c = sep) then EmptyString else String c (before_char sep rest)
  end.

(** White space of [trim()], within ASCII. *)
Definition is_space (c : Ascii.ascii) : bool :=
  let n := Ascii.nat_of_ascii c in
  bool_decide (n = 32 ∨ (9 ≤ n ∧ n ≤ 13))%nat.

Fixpoint trim_start (s : string) : string :=
  match s with
  | EmptyString => EmptyString
  | String c rest => if is_space c then trim_start rest else s
  end.

Fixpoint trim_end (s : string) : string :=
  match s with
  | EmptyString => EmptyString
  | String c rest =>
      match trim_end rest with
      | EmptyString => if is_space c then EmptyString else String c EmptyString
      | r => String c r
      end
  end.

(** [s.trim()] *)
Definition trim (s : string) : string := trim_end (trim_start s).

Definition lower_char (c : Ascii.ascii) : Ascii.ascii :=
  let n := Ascii.nat_of_ascii c in
  if bool_decide (65 ≤ n ∧ n ≤ 90)%nat then Ascii.ascii_of_nat (n + 32) else c.

(** [s.toLowerCase()], within ASCII. *)
Fixpoint toLowerCase (s : string) : string :=
  match s with
  | EmptyString => EmptyString
  | String c rest => String (lower_char c) (toLowerCase rest)
  end.

(** The text after the first [sep], empty without one: what follows
    [s.split(sep)[0]] and its separator. *)
Fixpoint after_char (sep : Ascii.ascii) (s : string) : string :=
  match s with
  | EmptyString => EmptyString
  | String c rest => if decide (c = sep) then rest else after_char sep rest
  end.

(** [c] repeated [n] times. *)
Fixpoint repeat_char (n : nat) (c : Ascii.ascii) : string :=
  match n with
  | O => EmptyString
  | S m => String c (repeat_char m c)
  end.

(** [s.padStart(target, c)] with a one-character filler. *)
Definition padStart (target : nat) (c : Ascii.ascii) (s : string) : string :=
  repeat_char (target - String.length s) c +:+ s.

End Js.

(** ** The resource downloader: [downloadFile], [downloadResource],
       [downloadModuleResources] and their helpers *)

Module ResourceDownloader.
Import Js.

(** [interface DownloadResult] *)
Record DownloadResult : Type := mkDownloadResult {
  url : string;
  success : bool;
  outputPath : option string;
  error : option string;
  skipped : option bool;
  skipReason : option string;
}.

(** The object [downloadFile] resolves with:
    [{ success; finalPath?; error?; requiresAuth? }]. *)
Record FileResult : Type := mkFileResult {
  f_success : bool;
  f_finalPath : option string;
  f_error : option string;
  f_requiresAuth : option bool;
}.

(** [interface ExtractedLink] of the content extractor. *)
Inductive LinkType : Type :=
  | pdf | google_doc | google_drive | notion | external | unknown.

#[global] Instance LinkType_eq_dec : EqDecision LinkType.
Proof. solve_decision. Defined.

Record ExtractedLink : Type := mkExtractedLink {
  l_text : string;
  l_url : string;
  l_type : LinkType;
}.

(** The fields of a WHATWG [URL] object the code reads. *)
Record URL : Type := mkURL {
  protocol : string;
  hostname : string;
  pathname : string;
  search : string;
}.

(** The part of [http.IncomingMessage] the code reads. *)
Record Response : Type := mkResponse {
  statusCode : option Z;
  location : option string;              (* headers.location *)
  content_disposition : option string;   (* headers['content-disposition'] *)
  content_type : option string;          (* headers['content-type'] *)
}.

(** What comes back for one [protocol.get(options, callback)]: the callback
    runs with a response, the request emits ['error'], or the 30 s timeout
    set with [request.setTimeout] fires first. *)
Inductive NetEvent : Type :=
  | NetResponse (r : Response)
  | NetError (message : string)
  | NetTimeout.

(** How [response.pipe(writeStream)] ends: the write stream emits
    ['finish'] or ['error'], the request emits ['error'] while the body is
    on its way, or the socket stalls and the request timeout fires. *)
Inductive StreamEnd : Type :=
  | Finish
  | WriteError (message : string)
  | Aborted (message : string)
  | Stalled.

(** What [downloadFile] does to the outside, in order. *)
Inductive Effect : Type :=
  | Get (https : bool) (host path : string)
  | EnsureDir (dir : string)
  | Open (path : string)
  | Pipe (path : string)
  | Close (path : string).

(** The libraries and the outside world. A function into [option string]
    that stands for an effect returns the error it throws, [None] when it
    succeeds. [http_get n] is the answer to the request made after [n]
    earlier requests of the same download. *)
Record Env : Type := mkEnv {
  URL_parse : string → option URL;              (* new URL(s); None: throws *)
  URL_resolve : string → string → option string;(* new URL(rel, base).href *)
  path_extname : string → string;
  path_dirname : string → string;
  path_join : string → string → string;
  regex_group1 : string → string → option string;
       (* s.match(/re/): group 1 of the leftmost match, None without one *)
  decodeURIComponent : string → option string;  (* None: throws URIError *)
  sanitize : string → string;                   (* npm sanitize-filename *)
  http_get : nat → bool → string → string → NetEvent;
  ensureDir : string → option string;           (* fs.mkdir recursive *)
  fs_open : string → option string;             (* fs.open(path, 'w') *)
  pipe : string → StreamEnd;
  fs_close : string → option string;
}.

(** [.replace(/\s+/g, '_')]: every run of white space becomes one [_]. *)
Fixpoint spaces_to_underscore (s : string) : string :=
  match s with
  | EmptyString => EmptyString
  | String c rest =>
      if is_space c then
        match rest with
        | String c' _ => if is_space c' then spaces_to_underscore rest
                         else String "_"%char (spaces_to_underscore rest)
        | EmptyString => String "_"%char EmptyString
        end
      else String c (spaces_to_underscore rest)
  end.

(** [.replace(/_+/g, '_')] *)
Fixpoint squeeze_underscores (s : string) : string :=
  match s with
  | EmptyString => EmptyString
  | String c rest =>
      if decide (c = "_"%char) then
        match rest with
        | String c' _ => if decide (c' = "_"%char) then squeeze_underscores rest
                         else String c (squeeze_underscores rest)
        | EmptyString => String c EmptyString
        end
      else String c (squeeze_underscores rest)
  end.

(** The character of code 34, the double quote. *)
Definition double_quote : Ascii.ascii := Ascii.ascii_of_nat 34.

(** The source of the regular expression [getFilenameFromUrl] matches the
    [Content-Disposition] header with. *)
Definition filename_pattern : string :=
  "filename[^;=
]*=((['" +:+ String double_quote "]).*?|[^;
]*)".

(** [.replace(/['dq]/g, '')], [dq] the double quote. *)
Fixpoint strip_quotes (s : string) : string :=
  match s with
  | EmptyString => EmptyString
  | String c rest =>
      if bool_decide (c = "'"%char ∨ c = double_quote) then strip_quotes rest
      else String c (strip_quotes rest)
  end.

(** [pathname.split('/').filter(Boolean)] then the last element:
    [cur] is the segment being read, [last] the last one completed. *)
Fixpoint last_segment_from (cur : string) (last : option string) (s : string) : option string :=
  match s with
  | EmptyString => if truthy cur then Some cur else last
  | String c rest =>
      if decide (c = "/"%char)
      then last_segment_from EmptyString (if truthy cur then Some cur else last) rest
      else last_segment_from (cur +:+ String c EmptyString) last rest
  end.

Definition last_segment (pathname : string) : option string :=
  last_segment_from EmptyString None pathname.

Section WithEnv.

Variable w : Env.

(** [safeFilename(name)] of utils/file-utils.ts *)
Definition safeFilename (name : string) : string :=
  String.substring 0 200
    (squeeze_underscores (spaces_to_underscore (sanitize w name))).

(** [getFilenameFromUrl(url, contentDisposition)] *)
Definition getFilenameFromUrl (u : string) (contentDisposition : option string) : string :=
  let from_url :=
    match URL_parse w u with
    | Some urlObj =>
        match last_segment (pathname urlObj) with
        | Some lastSegment =>
            if truthy lastSegment && includes "." lastSegment then
              match decodeURIComponent w lastSegment with
              | Some decoded => safeFilename decoded
              | None => safeFilename lastSegment
              end
            else EmptyString
        | None => EmptyString
        end
    | None => EmptyString
    end in
  match contentDisposition with
  | Some cd =>
      if truthy cd then
        match regex_group1 w filename_pattern cd with
        | Some m =>
            let filename := strip_quotes m in
            safeFilename (default filename (decodeURIComponent w filename))
        | None => from_url
        end
      else from_url
  | None => from_url
  end.

(** The table [mimeToExt]. *)
Definition mimeToExt : list (string * string) :=
  [ ("application/pdf", ".pdf");
    ("application/msword", ".doc");
    ("application/vnd.openxmlformats-officedocument.wordprocessingml.document", ".docx");
    ("application/vnd.ms-excel", ".xls");
    ("application/vnd.openxmlformats-officedocument.spreadsheetml.sheet", ".xlsx");
    ("application/vnd.ms-powerpoint", ".ppt");
    ("application/vnd.openxmlformats-officedocument.presentationml.presentation", ".pptx");
    ("application/zip", ".zip");
    ("application/x-zip-compressed", ".zip");
    ("text/plain", ".txt");
    ("text/html", ".html");
    ("text/markdown", ".md");
    ("image/png", ".png");
    ("image/jpeg", ".jpg");
    ("image/gif", ".gif");
    ("image/webp", ".webp");
    ("application/json", ".json") ].

(** [getExtensionFromContentType(contentType)]; the keys the object
    literal inherits from [Object.prototype] are left out. *)
Definition getExtensionFromContentType (contentType : string) : string :=
  let baseMime := toLowerCase (trim (before_char ";" contentType)) in
  match list_find (λ kv, kv.1 = baseMime) mimeToExt with
  | Some (_, (_, ext)) => ext
  | None => EmptyString
  end.

(** The status tests of the response callback. *)
Definition is_redirect (r : Response) : bool :=
  match statusCode r with
  | Some c => bool_decide (c ≠ 0) && bool_decide (300 ≤ c) && bool_decide (c < 400)
  | None => false
  end.

Definition is_auth (r : Response) : bool :=
  bool_decide (statusCode r = Some 401 ∨ statusCode r = Some 403).

Definition is_not_found (r : Response) : bool :=
  bool_decide (statusCode r = Some 404).

Definition is_http_error (r : Response) : bool :=
  match statusCode r with
  | Some c => bool_decide (c ≠ 0) && bool_decide (400 ≤ c)
  | None => false
  end.

Definition failure (requiresAuth : option bool) (msg : string) : FileResult :=
  {| f_success := false; f_finalPath := None; f_error := Some msg;
     f_requiresAuth := requiresAuth |}.

(** [finalPath]: the output path, with an extension inferred when it has
    none. *)
Definition choose_finalPath (u outputPath : string) (r : Response) : string :=
  if truthy (path_extname w outputPath) then outputPath
  else
    let urlFilename := getFilenameFromUrl u (content_disposition r) in
    if truthy urlFilename && truthy (path_extname w urlFilename)
    then outputPath +:+ path_extname w urlFilename
    else
      let ext := getExtensionFromContentType (or_else (content_type r) EmptyString) in
      if truthy ext then outputPath +:+ ext else outputPath.

(** The response callback of [downloadFile] after its redirect branch:
    the status checks, then the transfer to disk. *)
Definition settle (u outputPath : string) (r : Response)
  : list Effect * Promise FileResult :=
  if is_auth r then
    ([], Resolved (failure (Some true) "Authentication required"))
  else if is_not_found r then
    ([], Resolved (failure None "File not found (404)"))
  else if is_http_error r then
    ([], Resolved (failure None ("HTTP " +:+ pretty (default 0 (statusCode r)))))
  else
    let finalPath := choose_finalPath u outputPath r in
    let dir := path_dirname w finalPath in
    match ensureDir w dir with
    | Some e => ([EnsureDir dir], Unhandled e)
    | None =>
        match fs_open w finalPath with
        | Some e => ([EnsureDir dir; Open finalPath], Unhandled e)
        | None =>
            let done := [EnsureDir dir; Open finalPath; Pipe finalPath] in
            match pipe w finalPath with
            | Finish =>
                match fs_close w finalPath with
                | None =>
                    (done ++ [Close finalPath],
                     Resolved {| f_success := true; f_finalPath := Some finalPath;
                                 f_error := None; f_requiresAuth := None |})
                | Some e => (done ++ [Close finalPath], Unhandled e)
                end
            | WriteError msg =>
                match fs_close w finalPath with
                | None => (done ++ [Close finalPath], Resolved (failure None msg))
                | Some e => (done ++ [Close finalPath], Unhandled e)
                end
            | Aborted msg => (done, Resolved (failure None msg))
| Stalled => (done, Resolved (failure None "Download timeout"))
            end
        end
    end.

(** The target of the redirect branch: a 3xx status and a [Location]
    header that is not empty. *)
Definition redirect_target (r : Response) : option string :=
  if is_redirect r && truthy_opt (location r) then location r else None.

(** [await downloadFile(...)] inside the response callback, then
    [resolve(result)]: a rejection of the inner call is thrown inside the
    callback. *)
Definition relay (p : Promise FileResult) : Promise FileResult :=
  match p with
  | Resolved x => Resolved x
  | Rejected e => Unhandled e
  | Unhandled e => Unhandled e
  end.

(** [downloadFile(url, outputPath, followRedirects)], as the [sent]-th
    request of a download; the effects in order and the way the promise
    ends. *)
Fixpoint downloadFile_from (sent : nat) (u outputPath : string) (followRedirects : nat)
  : list Effect * Promise FileResult :=
  match URL_parse w u with
  | None => ([], Rejected ("Invalid URL: " +:+ u))
  | Some urlObj =>
      let https := bool_decide (protocol urlObj = "https:") in
      let req := Get https (hostname urlObj) (pathname urlObj +:+ search urlObj) in
      match http_get w sent https (hostname urlObj) (pathname urlObj +:+ search urlObj) with
      | NetError msg => ([req], Resolved (failure None msg))
      | NetTimeout => ([req], Resolved (failure None "Download timeout"))
      | NetResponse r =>
          match redirect_target r, followRedirects with
          | Some redirectUrl, S n =>
              match URL_resolve w redirectUrl u with
              | None => ([req], Unhandled ("Invalid URL: " +:+ redirectUrl))
              | Some absoluteUrl =>
                  let '(effs, p) := downloadFile_from (S sent) absoluteUrl outputPath n in
                  (req :: effs, relay p)
              end
          | _, _ =>
              let '(effs, p) := settle u outputPath r in
              (req :: effs, p)
          end
      end
  end.

(** [downloadFile(url, outputPath)] with the default [followRedirects = 5]. *)
Definition downloadFile (u outputPath : string) : list Effect * Promise FileResult :=
  downloadFile_from 0 u outputPath 5.

(** [getGoogleDriveDirectUrl(url)] of the content extractor. *)
Definition getGoogleDriveDirectUrl (u : string) : option string :=
  let direct fileId := "https://drive.google.com/uc?export=download&id=" +:+ fileId in
  match regex_group1 w "\/file\/d\/([a-zA-Z0-9_-]+)" u with
  | Some fileId => Some (direct fileId)
  | None =>
      match regex_group1 w "id=([a-zA-Z0-9_-]+)" u with
      | Some fileId => Some (direct fileId)
      | None =>
          match regex_group1 w "\/d\/([a-zA-Z0-9_-]+)" u with
          | Some fileId => Some (direct fileId)
          | None => None
          end
      end
  end.

(** [getDropboxDirectUrl(url)] of the content extractor. *)
Definition getDropboxDirectUrl (u : string) : string :=
  replace_first "www.dropbox.com" "dl.dropboxusercontent.com"
    (replace_first "dl=0" "dl=1" u).

(** The URL [downloadResource] fetches for a link. *)
Definition direct_url (link : ExtractedLink) : string :=
  if bool_decide (l_type link = google_drive ∨ l_type link = google_doc) then
    match getGoogleDriveDirectUrl (l_url link) with
    | Some directUrl => if truthy directUrl then directUrl else l_url link
    | None => l_url link
    end
  else if includes "dropbox.com" (l_url link) then getDropboxDirectUrl (l_url link)
  else l_url link.

Definition skipped_result (u reason : string) : DownloadResult :=
  {| url := u; success := false; outputPath := None; error := None;
     skipped := Some true; skipReason := Some reason |}.

(** The path [downloadResource] hands to [downloadFile]. *)
Definition basePath (link : ExtractedLink) (outputDir : string) (index : Z) : string :=
  let safeTitle :=
    let t := safeFilename (l_text link) in
    if truthy t then t else "resource_" +:+ pretty (index + 1) in
  path_join w (path_join w outputDir "resources") safeTitle.

(** [downloadResource(link, outputDir, index)] *)
Definition downloadResource (link : ExtractedLink) (outputDir : string) (index : Z)
  : list Effect * Promise DownloadResult :=
  if decide (l_type link = notion) then
    ([], Resolved (skipped_result (l_url link)
           "Notion pages cannot be directly downloaded (link preserved in content)"))
  else
    let '(effs, p) := downloadFile (direct_url link) (basePath link outputDir index) in
    (effs,
     match p with
     | Resolved result =>
         if bool_decide (f_requiresAuth result = Some true) then
           Resolved (skipped_result (l_url link) "Requires authentication")
         else if negb (f_success result) then
           Resolved {| url := l_url link; success := false; outputPath := None;
                       error := f_error result; skipped := None; skipReason := None |}
         else
           Resolved {| url := l_url link; success := true;
                       outputPath := f_finalPath result; error := None;
                       skipped := None; skipReason := None |}
     | Rejected e => Rejected e
     | Unhandled e => Unhandled e
     end).

(** The extensions and hosts [isLikelyFile] looks for. *)
Definition fileExtensions : list string :=
[ ".pdf"; ".doc"; ".docx"; ".xls"; ".xlsx"; ".ppt"; ".pptx"; ".zip"; ".rar";
  ".7z"; ".txt"; ".csv"; ".mp3"; ".wav"; ".mp4"; ".mov"; ".avi"; ".png";
  ".jpg"; ".jpeg"; ".gif"; ".webp"; ".svg" ].

Definition fileHostPatterns : list string :=
[ "drive.google.com/file"; "dropbox.com/s/"; "dropbox.com/scl/";
  "dl.dropboxusercontent.com"; "amazonaws.com"; "s3."; "cloudfront.net";
  "cdn." ].

(** [isLikelyFile(url)] *)
Definition isLikelyFile (u : string) : bool :=
let lowerUrl := toLowerCase u in
existsb (λ ext, includes ext lowerUrl) fileExtensions
|| existsb (λ pattern, includes pattern lowerUrl) fileHostPatterns.

(** The loop of [downloadModuleResources] from index [i] on: the results
    pushed so far are lost when a call of [downloadResource] does not
    resolve. *)
Fixpoint downloadModuleResources_from (i : Z) (links : list ExtractedLink)
  (outputDir : string) : list Effect * Promise (list DownloadResult) :=
match links with
| [] => ([], Resolved [])
| link :: rest =>
    let continue (effs : list Effect) (result : DownloadResult) :=
      let '(effs', p) := downloadModuleResources_from (i + 1) rest outputDir in
      (effs ++ effs',
       match p with
       | Resolved results => Resolved (result :: results)
       | Rejected e => Rejected e
       | Unhandled e => Unhandled e
       end) in
    if bool_decide (l_type link = external) && negb (isLikelyFile (l_url link)) then
      continue [] (skipped_result (l_url link) "External link (not a file)")
    else
      match downloadResource link outputDir i with
      | (effs, Resolved result) => continue effs result
      | (effs, Rejected e) => (effs, Rejected e)
      | (effs, Unhandled e) => (effs, Unhandled e)
      end
end.

(** [downloadModuleResources(content, outputDir)], on
    [content.embeddedLinks]. *)
Definition downloadModuleResources (embeddedLinks : list ExtractedLink)
  (outputDir : string) : list Effect * Promise (list DownloadResult) :=
downloadModuleResources_from 0 embeddedLinks outputDir.

End WithEnv.

End ResourceDownloader.

(** ** src/downloader/yt-dlp-wrapper.ts *)

Module YtDlp.
Import Js.

(** [interface DownloadOptions]; [provider] is the string the [switch] of
    [buildArgs] compares. *)
Record DownloadOptions : Type := mkDownloadOptions {
  url : string;
  outputPath : string;
  provider : string;
  cookiesFile : option string;
  downloadSubs : bool;
  subsLang : string;
  referer : option string;
}.

(** [interface DownloadResult] *)
Record DownloadResult : Type := mkDownloadResult {
  success : bool;
  outputFile : option string;
  error : option string;
}.

(** How the child process started with [execa] ends: exit code 0, or the
    [ExecaError] the awaited call throws, with its message and [stderr]. *)
Inductive ExecResult : Type :=
  | Exited
  | Failed (message : string) (stderr : option string).

Record Env : Type := mkEnv {
  execa : string → list string → ExecResult;
  readdir : string → option (list string);   (* None: fs.readdir throws *)
  path_dirname : string → string;
  path_basename : string → string;
  path_join : string → string → string;
}.

Definition cookies_args (options : DownloadOptions) : list string :=
  match cookiesFile options with
  | Some f => if truthy f then ["--cookies"; f] else []
  | None => []
  end.

(** [buildArgs(options)] *)
Definition buildArgs (options : DownloadOptions) : list string :=
  (["-o"; outputPath options +:+ ".%(ext)s";
    "-f"; "bestvideo+bestaudio/best";
    "--merge-output-format"; "mp4";
    "--no-playlist"]
   ++ (if downloadSubs options
       then ["--write-subs"; "--sub-langs"; subsLang options; "--embed-subs"]
       else [])
   ++ (if decide (provider options = "wistia") then
         cookies_args options
         ++ ["--referer"; or_else (referer options) "https://www.skool.com/"]
       else if decide (provider options = "vimeo") then
         cookies_args options
         ++ (match referer options with
             | Some r => if truthy r then ["--referer"; r] else []
             | None => []
             end)
       else if decide (provider options = "youtube") then
         ["--cookies-from-browser"; "chrome"]
       else if decide (provider options = "loom") then
         cookies_args options
       else if decide (provider options = "native") then
         cookies_args options
         ++ ["--referer"; "https://www.skool.com/";
             "--add-header";
             "User-Agent: Mozilla/5.0 (Macintosh; Intel Mac OS X 10_15_7) AppleWebKit/537.36"]
       else cookies_args options)
   ++ ["--progress"; "--newline";
       "--no-overwrites";
       "--retries"; "3"; "--fragment-retries"; "3";
       url options]).

Section WithEnv.

Variable w : Env.

(** [findOutputFile(basePath)] *)
Definition findOutputFile (basePath : string) : option string :=
  let dir := path_dirname w basePath in
  let basename := path_basename w basePath in
  match readdir w dir with
  | Some files =>
      match list_find (λ f, String.prefix basename f = true) files with
      | Some (_, m) => Some (path_join w dir m)
      | None => None
      end
  | None => None
  end.

(** The message the [catch] block of [downloadVideo] reports. *)
Definition classify (message : string) (stderr : option string) : string :=
  let stderr' := or_else stderr EmptyString in
  if truthy stderr' then
    if includes "Video unavailable" stderr' then "Video is unavailable or private"
    else if includes "403" stderr' then "Access denied - may need fresh cookies"
    else if includes "404" stderr' then "Video not found"
    else message
  else message.

(** [downloadVideo(options, onProgress)]. The progress callback only
    reports percentages read from the child's output and is left out. *)
Definition downloadVideo (options : DownloadOptions) : Promise DownloadResult :=
  match execa w "yt-dlp" (buildArgs options) with
  | Exited =>
      Resolved {| success := true;
                  outputFile := findOutputFile (outputPath options);
                  error := None |}
  | Failed message stderr =>
      Resolved {| success := false;
                  outputFile := None;
                  error := Some (classify message stderr) |}
  end.

End WithEnv.

End YtDlp.

(** ** src/downloader/download-queue.ts *)

Module DownloadQueue.
Import Js.

(** [interface QueuedDownload] *)
Record QueuedDownload : Type := mkQueuedDownload {
  lesson : ProgressTracker.LessonState;
  downloadUrl : string;
  outputPath : string;
  cookiesFile : option string;
  referer : option string;
  downloadSubs : bool;
  subsLang : string;
}.

(** The fields of [class DownloadQueue]; [queue] holds the items handed to
    the [PQueue] that have not been started. *)
Record Queue : Type := mkQueue {
  queue : list QueuedDownload;
  tracker : ProgressTracker.Tracker;
  completed : Z;
  failed : Z;
  total : Z;
}.

Record Env : Type := mkEnv {
  yt : YtDlp.Env;
  ensureDir : string → option string;    (* the error fs.mkdir throws, if any *)
  path_dirname : string → string;
}.

(** The calls a worker makes on the ledger, the file system and the
    executor. *)
Inductive Event : Type :=
  | MarkStarted (id : string)
  | EnsureDir (dir : string)
  | Executor (options : YtDlp.DownloadOptions)
  | MarkCompleted (id : string) (outputPath : string)
  | MarkFailed (id : string) (error : string).

Definition with_tracker (q : Queue) (t : ProgressTracker.Tracker) : Queue :=
  {| queue := queue q; tracker := t; completed := completed q;
     failed := failed q; total := total q |}.

(** [constructor(tracker, concurrency)]; the concurrency bound belongs to
    the [PQueue]. *)
Definition new_queue (t : ProgressTracker.Tracker) : Queue :=
  {| queue := []; tracker := t; completed := 0; failed := 0; total := 0 |}.

(** [add(download)] *)
Definition add (q : Queue) (d : QueuedDownload) : Queue :=
  {| queue := queue q ++ [d]; tracker := tracker q; completed := completed q;
     failed := failed q; total := total q + 1 |}.

(** The [options] object [processDownload] builds. *)
Definition options_of (d : QueuedDownload) : YtDlp.DownloadOptions :=
  {| YtDlp.url := downloadUrl d;
     YtDlp.outputPath := outputPath d;
     YtDlp.provider := or_else (ProgressTracker.videoProvider (lesson d)) "unknown";
     YtDlp.cookiesFile := cookiesFile d;
     YtDlp.downloadSubs := downloadSubs d;
     YtDlp.subsLang := subsLang d;
     YtDlp.referer := referer d |}.

Section WithEnv.

Variable w : Env.

(** The branch of [processDownload] after the executor has returned. *)
Definition finish (q : Queue) (d : QueuedDownload) (result : YtDlp.DownloadResult)
  : Queue * list Event :=
  let i := ProgressTracker.id (lesson d) in
  if YtDlp.success result then
    let out := or_else (YtDlp.outputFile result) (outputPath d) in
    ({| queue := queue q;
        tracker := ProgressTracker.markCompleted (tracker q) i out;
        completed := completed q + 1; failed := failed q; total := total q |},
     [MarkCompleted i out])
  else
    let err := or_else (YtDlp.error result) "Unknown error" in
    ({| queue := queue q;
        tracker := ProgressTracker.markFailed (tracker q) i err;
        completed := completed q; failed := failed q + 1; total := total q |},
     [MarkFailed i err]).

(** [processDownload(download)]: the queue afterwards, the calls made in
    order, and how the promise ends. *)
Definition processDownload (q : Queue) (d : QueuedDownload)
  : Queue * list Event * Promise unit :=
  let i := ProgressTracker.id (lesson d) in
  let q1 := with_tracker q (ProgressTracker.markStarted (tracker q) i) in
  let dir := path_dirname w (outputPath d) in
  match ensureDir w dir with
  | Some e => (q1, [MarkStarted i; EnsureDir dir], Rejected e)
  | None =>
      let options := options_of d in
      match YtDlp.downloadVideo (yt w) options with
      | Resolved result =>
          let '(q2, evs) := finish q1 d result in
          (q2, [MarkStarted i; EnsureDir dir; Executor options] ++ evs, Resolved tt)
      | Rejected e => (q1, [MarkStarted i; EnsureDir dir; Executor options], Rejected e)
      | Unhandled e => (q1, [MarkStarted i; EnsureDir dir; Executor options], Unhandled e)
      end
  end.

(** *** Workers that run side by side

    JavaScript runs one worker at a time and changes worker only at an
    [await]. A worker is therefore at one of the stages below, and a step
    runs it from one [await] to the next. *)
Inductive Stage : Type :=
  | Queued                                         (* not started *)
  | AwaitingDir                                    (* at await ensureDir(...) *)
  | AwaitingExecutor                               (* at await downloadVideo(...) *)
  | Settled (p : Promise unit).                    (* processDownload has ended *)

Record Worker : Type := mkWorker {
  item : QueuedDownload;
  stage : Stage;
}.

(** One step of a worker: the code between two [await]s. *)
Definition step (q : Queue) (k : Worker) : Queue * Worker * list Event :=
  let d := item k in
  let i := ProgressTracker.id (lesson d) in
  let dir := path_dirname w (outputPath d) in
  match stage k with
  | Queued =>
      (with_tracker q (ProgressTracker.markStarted (tracker q) i),
       {| item := d; stage := AwaitingDir |},
       [MarkStarted i; EnsureDir dir])
  | AwaitingDir =>
      match ensureDir w dir with
      | Some e => (q, {| item := d; stage := Settled (Rejected e) |}, [])
      | None => (q, {| item := d; stage := AwaitingExecutor |}, [Executor (options_of d)])
      end
  | AwaitingExecutor =>
      match YtDlp.downloadVideo (yt w) (options_of d) with
      | Resolved result =>
          let '(q2, evs) := finish q d result in
          (q2, {| item := d; stage := Settled (Resolved tt) |}, evs)
      | Rejected e => (q, {| item := d; stage := Settled (Rejected e) |}, [])
      | Unhandled e => (q, {| item := d; stage := Settled (Unhandled e) |}, [])
      end
  | Settled p => (q, k, [])
  end.

(** A schedule names, step after step, the worker that runs next; the
    events carry the number of the worker that made the call. *)
Fixpoint run (schedule : list nat) (q : Queue) (ws : list Worker)
  : Queue * list Worker * list (nat * Event) :=
  match schedule with
  | [] => (q, ws, [])
  | n :: rest =>
      match ws !! n with
      | Some k =>
          let '(q1, k1, evs) := step q k in
          let '(q2, ws2, trace) := run rest q1 (<[n := k1]> ws) in
          (q2, ws2, ((λ e, (n, e)) <$> evs) ++ trace)
      | None => run rest q ws
      end
  end.

(** The calls of worker [n] in a trace, in order. *)
Definition calls_of (n : nat) (trace : list (nat * Event)) : list Event :=
  snd <$> filter (λ ne, ne.1 = n) trace.

End WithEnv.

End DownloadQueue.

(** ** The video extractor: [getDownloadableUrl] *)

Module VideoExtractor.
Import Js.

(** [type VideoProvider] *)
Inductive VideoProvider : Type :=
  | wistia | vimeo | youtube | loom | native | unknown.

#[global] Instance VideoProvider_eq_dec : EqDecision VideoProvider.
Proof. solve_decision. Defined.

(** The string of a provider, as [lesson.videoProvider] stores it. *)
Definition provider_text (p : VideoProvider) : string :=
  match p with
  | wistia => "wistia"
  | vimeo => "vimeo"
  | youtube => "youtube"
  | loom => "loom"
  | native => "native"
  | unknown => "unknown"
  end.

(** [interface VideoInfo]; [url] is [string | null]. *)
Record VideoInfo : Type := mkVideoInfo {
  provider : VideoProvider;
  url : option string;
  embedUrl : option string;
  videoId : option string;
}.

(** [if (info.videoId) return make(info.videoId); return info.url;] *)
Definition from_id (info : VideoInfo) (make : string → string) : option string :=
  match videoId info with
  | Some v => if truthy v then Some (make v) else url info
  | None => url info
  end.

(** [getDownloadableUrl(info)] *)
Definition getDownloadableUrl (info : VideoInfo) : option string :=
  if negb (truthy_opt (url info)) && negb (truthy_opt (videoId info)) then None
  else
    match provider info with
    | wistia => from_id info (λ v, "https://fast.wistia.com/embed/medias/" +:+ v)
    | vimeo =>
        from_id info (λ v,
          if includes ":" v then
            "https://player.vimeo.com/video/" +:+ before_char ":" v
            +:+ "?h=" +:+ before_char ":" (after_char ":" v)
          else "https://vimeo.com/" +:+ v)
    | youtube => from_id info (λ v, "https://www.youtube.com/watch?v=" +:+ v)
    | loom => from_id info (λ v, "https://www.loom.com/share/" +:+ v)
    | native => url info
    | unknown => url info
    end.

End VideoExtractor.

(** ** src/utils/file-utils.ts: [generateOutputPath], [findVideoFile] *)

Module FileUtils.
Import Js.

(** [String(n + 1).padStart(2, '0')] *)
Definition two_digits (n : Z) : string :=
  padStart 2 "0" (pretty (n + 1)).

(** [generateOutputPath(baseDir, courseName, moduleIndex, moduleTitle,
    lessonIndex, lessonTitle)]; [safeFilename] and [path.join] are those of
    the environment. *)
Definition generateOutputPath (w : ResourceDownloader.Env)
    (baseDir courseName : string) (moduleIndex : Z) (moduleTitle : string)
    (lessonIndex : Z) (lessonTitle : string) : string :=
  let courseDir := ResourceDownloader.safeFilename w courseName in
  let moduleDir :=
    two_digits moduleIndex +:+ "_" +:+ ResourceDownloader.safeFilename w moduleTitle in
  let lessonFile :=
    two_digits lessonIndex +:+ "_" +:+ ResourceDownloader.safeFilename w lessonTitle in
  ResourceDownloader.path_join w
    (ResourceDownloader.path_join w
       (ResourceDownloader.path_join w baseDir courseDir) moduleDir)
    lessonFile.

(** The loop of [findVideoFile] over the extensions that are left. *)
Fixpoint first_existing (d : ProgressTracker.Disk) (basePath : string)
    (extensions : list string) : option string :=
  match extensions with
  | [] => None
  | ext :: rest =>
      if ProgressTracker.fileExists d (basePath +:+ ext)
      then Some (basePath +:+ ext)
      else first_existing d basePath rest
  end.

(** The extensions [findVideoFile] tries, in its order. *)
Definition extensions : list string := [".mp4"; ".mkv"; ".webm"; ".mov"].

(** [findVideoFile(basePath)] *)
Definition findVideoFile (d : ProgressTracker.Disk) (basePath : string) : option string :=
  first_existing d basePath extensions.

End FileUtils.

(** ** The command line: seeding the ledger, queueing and resuming *)

Module Cli.
Import Js ProgressTracker.

(** [interface Module] of the course crawler. *)
Record Module : Type := mkModule {
  m_id : string;
  m_title : string;
  m_courseId : string;
  m_courseTitle : string;
  m_index : Z;
  m_url : string;
}.

(** The fields of [interface Config] the commands read after start-up. *)
Record Config : Type := mkConfig {
  stateDir : string;
  downloadDir : string;
  concurrency : Z;
  downloadSubs : bool;
  subsLang : string;
}.

(** The object [downloadCommand] hands to [addLesson] for a module. *)
Definition lesson_input (m : Module) : LessonInput :=
  {| in_id := m_id m;
     in_moduleIndex := m_index m;
     in_lessonIndex := m_index m;
     in_moduleTitle := m_courseTitle m;
     in_lessonTitle := m_title m;
     in_videoUrl := None;
     in_videoProvider := None;
     in_outputPath := None;
     in_error := None |}.

(** [for (const mod of modules) tracker.addLesson({...})] of
    [downloadCommand]. *)
Definition seed (t : Tracker) (modules : list Module) : Tracker :=
  foldl (λ t' m, addLesson t' (lesson_input m)) t modules.

(** The item [downloadCommand] hands to [queue.add] for a module whose
    video address has been found, in the command that saves the video at
    the output path of the lesson. [courseIndex] is the answer of
    [course.courses.findIndex(...)], [-1] without a match; [lesson] is
    [tracker.getLesson(mod.id)]. *)
Definition download_item (w : ResourceDownloader.Env) (config : Config)
    (courseName : string) (courseIndex : Z) (m : Module) (lesson : LessonState)
    (downloadUrl : string) : DownloadQueue.QueuedDownload :=
  {| DownloadQueue.lesson := lesson;
     DownloadQueue.downloadUrl := downloadUrl;
     DownloadQueue.outputPath :=
       FileUtils.generateOutputPath w (downloadDir config) courseName
         (if bool_decide (0 ≤ courseIndex) then courseIndex else 0)
         (m_courseTitle m) (m_index m) (m_title m);
     DownloadQueue.cookiesFile :=
       Some (ResourceDownloader.path_join w (stateDir config) "cookies.txt");
     DownloadQueue.referer := Some (m_url m);
     DownloadQueue.downloadSubs := downloadSubs config;
     DownloadQueue.subsLang := subsLang config |}.

(** [{ videoUrl: videoInfo.downloadUrl || undefined,
       videoProvider: videoInfo.provider }] *)
Definition video_updates (downloadUrl : option string)
    (p : VideoExtractor.VideoProvider) : LessonUpdates :=
  {| u_id := None; u_moduleIndex := None; u_lessonIndex := None;
     u_moduleTitle := None; u_lessonTitle := None;
     u_videoUrl := Some (if truthy_opt downloadUrl then downloadUrl else None);
     u_videoProvider := Some (Some (VideoExtractor.provider_text p));
     u_status := None; u_outputPath := None; u_error := None;
     u_attempts := None |}.

(** What the loop of [downloadCommand] does with a module once its page
    has been read. *)
Inductive Extracted : Type :=
  | NoVideo                                       (* markSkipped; continue *)
  | ToQueue (item : DownloadQueue.QueuedDownload) (* queue.add(item) *)
  | ToQueueWithoutLesson.      (* getLesson(mod.id)! was undefined *)

(** The loop of [downloadCommand] for one module, from the answer of
    [extractModuleVideo] to the call of [queue.add]: the ledger afterwards
    and what is queued. The address is [getDownloadableUrl(videoInfo)], as
    [extractModuleVideo] computes it. *)
Definition after_extraction (w : ResourceDownloader.Env) (config : Config)
    (courseName : string) (courseIndex : Z) (t : Tracker) (m : Module)
    (info : VideoExtractor.VideoInfo) : Tracker * Extracted :=
  let downloadUrl := VideoExtractor.getDownloadableUrl info in
  let t1 := updateLesson t (m_id m)
              (video_updates downloadUrl (VideoExtractor.provider info)) in
  let skip := (markSkipped t1 (m_id m) "No video found", NoVideo) in
  match downloadUrl with
  | Some v =>
      if truthy v then
        match getLesson t1 (m_id m) with
        | Some l => (t1, ToQueue (download_item w config courseName courseIndex m l v))
        | None => (t1, ToQueueWithoutLesson)
        end
      else skip
  | None => skip
  end.

(** The body of the loop of [resumeCommand] for one pending lesson: the
    item it hands to [queue.add], none when the lesson has no video
    address. *)
Definition resume_item (w : ResourceDownloader.Env) (config : Config)
    (courseName : string) (lesson : LessonState) : option DownloadQueue.QueuedDownload :=
  match videoUrl lesson with
  | Some v =>
      if truthy v then
        Some {| DownloadQueue.lesson := lesson;
                DownloadQueue.downloadUrl := v;
                DownloadQueue.outputPath :=
                  FileUtils.generateOutputPath w (downloadDir config) courseName
                    (moduleIndex lesson) (moduleTitle lesson)
                    (lessonIndex lesson) (lessonTitle lesson);
                DownloadQueue.cookiesFile :=
                  Some (ResourceDownloader.path_join w (stateDir config) "cookies.txt");
                DownloadQueue.referer := None;
                DownloadQueue.downloadSubs := downloadSubs config;
                DownloadQueue.subsLang := subsLang config |}
      else None
  | None => None
  end.

(** [for (const lesson of pending) { ... await queue.add({...}) }] of
    [resumeCommand]: the items handed to [queue.add], in order. The
    downloads that start while the loop runs write the fields [status],
    [attempts], [outputPath] and [error] of the ledger; the loop reads
    none of them. *)
Fixpoint resume_items (w : ResourceDownloader.Env) (config : Config)
    (courseName : string) (pending : list LessonState)
  : list DownloadQueue.QueuedDownload :=
  match pending with
  | [] => []
  | lesson :: rest =>
      match resume_item w config courseName lesson with
      | None => resume_items w config courseName rest
      | Some item => item :: resume_items w config courseName rest
      end
  end.

(** How [resumeCommand] gets to its downloads, or does not. *)
Inductive Resume : Type :=
  | NoPreviousDownload          (* nothing loaded, or an empty ledger *)
  | AllDownloaded               (* no pending lesson *)
  | MissingYtDlp                (* process.exit(1) *)
  | BrowserFailed (e : string)  (* the browser or the login throws *)
  | Resumed (items : list DownloadQueue.QueuedDownload).
                                (* the items handed to queue.add *)

(** [resumeCommand], from the result of [load()] to the items it queues.
    [loaded] is the tracker when [load()] returned [true]; [ytDlp] is the
    answer of [checkYtDlp()]; [browser] is the error thrown while the
    browser is opened, the login checked and the cookies exported, if
    any. *)
Definition resumeCommand (w : ResourceDownloader.Env) (config : Config)
    (loaded : option Tracker) (ytDlp : bool) (browser : option string) : Resume :=
  match loaded with
  | None => NoPreviousDownload
  | Some t =>
      if negb (hasExistingProgress t) then NoPreviousDownload
      else
        let pending := getPendingLessons t in
        if decide (length pending = 0%nat) then AllDownloaded
        else if negb ytDlp then MissingYtDlp
        else
          match browser with
          | Some e => BrowserFailed e
          | None => Resumed (resume_items w config (getCourseName t) pending)
          end
  end.

End Cli.

(** * Implementations of the built-ins, to run the code on examples

    The sections above take [JSON], [path], [URL] and the outside world as
    parameters. The modules below give them bodies, so that the embedded
    functions can be evaluated on concrete input. *)

(** ** JSON texts *)

Module Json.

(** A JSON value; a number [m] times ten to the [e] is [Number m e]. *)
#[local] Unset Elimination Schemes.
Inductive value : Type :=
  | Null
  | Bool (b : bool)
  | Number (m e : Z)
  | Str (s : string)
  | Array (vs : list value)
  | Object (members : list (string * value)).
#[local] Set Elimination Schemes.

Definition chr (n : nat) : Ascii.ascii := Ascii.ascii_of_nat n.
Definition code (c : Ascii.ascii) : nat := Ascii.nat_of_ascii c.
Definition str1 (c : Ascii.ascii) : string := String c EmptyString.

Definition dq : string := str1 (chr 34).
Definition nl : string := str1 (chr 10).

(** *** Reading *)

Definition is_ws (c : Ascii.ascii) : bool :=
  bool_decide (code c = 32 ∨ code c = 9 ∨ code c = 10 ∨ code c = 13)%nat.

Fixpoint skip_ws (s : string) : string :=
  match s with
  | String c r => if is_ws c then skip_ws r else s
  | EmptyString => s
  end.

Definition digit (c : Ascii.ascii) : option Z :=
  if bool_decide (48 ≤ code c ∧ code c ≤ 57)%nat
  then Some (Z.of_nat (code c) - 48) else None.

Definition hex (c : Ascii.ascii) : option nat :=
  let n := code c in
  if bool_decide (48 ≤ n ∧ n ≤ 57)%nat then Some (n - 48)%nat
  else if bool_decide (97 ≤ n ∧ n ≤ 102)%nat then Some (n - 87)%nat
  else if bool_decide (65 ≤ n ∧ n ≤ 70)%nat then Some (n - 55)%nat
  else None.

(** A run of digits: its value on top of [acc], its length, the rest. *)
Fixpoint digits (acc : Z) (n : nat) (s : string) : Z * nat * string :=
  match s with
  | String c r =>
      match digit c with
      | Some d => digits (acc * 10 + d) (S n) r
      | None => (acc, n, s)
      end
  | EmptyString => (acc, n, s)
  end.

(** The code point [n] of the basic plane, in UTF-8. *)
Definition utf8 (n : nat) : string :=
  if bool_decide (n < 128)%nat then str1 (chr n)
  else if bool_decide (n < 2048)%nat then
    String (chr (192 + n / 64)) (str1 (chr (128 + n mod 64)))
  else
    String (chr (224 + n / 4096))
      (String (chr (128 + (n / 64) mod 64)) (str1 (chr (128 + n mod 64)))).

(** The characters of a string literal after its opening quote. *)
Fixpoint string_body (s : string) : option (string * string) :=
  match s with
  | EmptyString => None
  | String c r =>
      if decide (code c = 34)%nat then Some (EmptyString, r)
      else if decide (code c = 92)%nat then
        match r with
        | String e r' =>
            let plain (x : nat) :=
              match string_body r' with
              | Some (body, rest) => Some (String (chr x) body, rest)
              | None => None
              end in
            if decide (code e = 34)%nat then plain 34%nat
            else if decide (code e = 92)%nat then plain 92%nat
            else if decide (code e = 47)%nat then plain 47%nat
            else if decide (code e = 98)%nat then plain 8%nat
            else if decide (code e = 102)%nat then plain 12%nat
            else if decide (code e = 110)%nat then plain 10%nat
            else if decide (code e = 114)%nat then plain 13%nat
            else if decide (code e = 116)%nat then plain 9%nat
            else if decide (code e = 117)%nat then
              match r' with
              | String h1 (String h2 (String h3 (String h4 r''))) =>
                  match hex h1, hex h2, hex h3, hex h4, string_body r'' with
                  | Some a, Some b, Some c', Some d, Some (body, rest) =>
                      Some (utf8 (((a * 16 + b) * 16 + c') * 16 + d) +:+ body, rest)
                  | _, _, _, _, _ => None
                  end
              | _ => None
              end
            else None
        | EmptyString => None
        end
      else if bool_decide (code c < 32)%nat then None
      else
        match string_body r with
        | Some (body, rest) => Some (String c body, rest)
        | None => None
        end
  end.

(** A number: sign, integer part, fraction, exponent. *)
Definition number (s : string) : option (value * string) :=
  let '(neg, s1) :=
    match s with
    | String c r => if decide (code c = 45)%nat then (true, r) else (false, s)
    | EmptyString => (false, s)
    end in
  let int_part :=
    match s1 with
    | String c r =>
        if decide (code c = 48)%nat then Some (0, r)
        else match digits 0 0 s1 with
             | (_, O, _) => None
             | (v, S _, rest) => Some (v, rest)
             end
    | EmptyString => None
    end in
  match int_part with
  | None => None
  | Some (i, s2) =>
      let frac :=
        match s2 with
        | String c r =>
            if decide (code c = 46)%nat then
              match digits i 0 r with
              | (_, O, _) => None
              | (v, S n, rest) => Some (v, Z.of_nat (S n), rest)
              end
            else Some (i, 0, s2)
        | EmptyString => Some (i, 0, s2)
        end in
      match frac with
      | None => None
      | Some (m, scale, s3) =>
          let m' := if neg then - m else m in
          match s3 with
          | String c r =>
              if bool_decide (code c = 101 ∨ code c = 69)%nat then
                let '(eneg, r1) :=
                  match r with
                  | String c' r' =>
                      if decide (code c' = 45)%nat then (true, r')
                      else if decide (code c' = 43)%nat then (false, r')
                      else (false, r)
                  | EmptyString => (false, r)
                  end in
                match digits 0 0 r1 with
                | (_, O, _) => None
                | (x, S _, rest) =>
                    Some (Number m' ((if eneg then - x else x) - scale), rest)
                end
              else Some (Number m' (- scale), s3)
          | EmptyString => Some (Number m' (- scale), s3)
          end
      end
  end.

(** [lit] at the head of [s], and what follows it. *)
Definition literal (lit : string) (s : string) : option string :=
  if String.prefix lit s
  then Some (String.substring (String.length lit) (String.length s - String.length lit)%nat s)
  else None.

(** A value, the elements of an array after its bracket or a comma, the
    members of an object after its brace or a comma. *)
Fixpoint parse_value (fuel : nat) (s : string) {struct fuel} : option (value * string) :=
  match fuel with
  | O => None
  | S f =>
      match skip_ws s with
      | EmptyString => None
      | String c r as s' =>
          if decide (code c = 123)%nat then
            match skip_ws r with
            | String c' r' =>
                if decide (code c' = 125)%nat then Some (Object [], r')
                else match parse_members f (skip_ws r) with
                     | Some (ms, rest) => Some (Object ms, rest)
                     | None => None
                     end
            | EmptyString => None
            end
          else if decide (code c = 91)%nat then
            match skip_ws r with
            | String c' r' =>
                if decide (code c' = 93)%nat then Some (Array [], r')
                else match parse_elements f (skip_ws r) with
                     | Some (vs, rest) => Some (Array vs, rest)
                     | None => None
                     end
            | EmptyString => None
            end
          else if decide (code c = 34)%nat then
            match string_body r with
            | Some (body, rest) => Some (Str body, rest)
            | None => None
            end
          else if decide (code c = 116)%nat then
            (λ rest, (Bool true, rest)) <$> literal "true" s'
          else if decide (code c = 102)%nat then
            (λ rest, (Bool false, rest)) <$> literal "false" s'
          else if decide (code c = 110)%nat then
            (λ rest, (Null, rest)) <$> literal "null" s'
          else number s'
      end
  end
with parse_elements (fuel : nat) (s : string) {struct fuel} : option (list value * string) :=
  match fuel with
  | O => None
  | S f =>
      match parse_value f s with
      | Some (v, rest) =>
          match skip_ws rest with
          | String c r =>
              if decide (code c = 93)%nat then Some ([v], r)
              else if decide (code c = 44)%nat then
                match parse_elements f r with
                | Some (vs, rest') => Some (v :: vs, rest')
                | None => None
                end
              else None
          | EmptyString => None
          end
      | None => None
      end
  end
with parse_members (fuel : nat) (s : string) {struct fuel}
  : option (list (string * value) * string) :=
  match fuel with
  | O => None
  | S f =>
      match skip_ws s with
      | String c r =>
          if decide (code c = 34)%nat then
            match string_body r with
            | Some (key, rest) =>
                match skip_ws rest with
                | String c' r' =>
                    if decide (code c' = 58)%nat then
                      match parse_value f r' with
                      | Some (v, rest') =>
                          match skip_ws rest' with
                          | String c'' r'' =>
                              if decide (code c'' = 125)%nat then Some ([(key, v)], r'')
                              else if decide (code c'' = 44)%nat then
                                match parse_members f r'' with
                                | Some (ms, rest'') => Some ((key, v) :: ms, rest'')
                                | None => None
                                end
                              else None
                          | EmptyString => None
                          end
                      | None => None
                      end
                    else None
                | EmptyString => None
                end
            | None => None
            end
          else None
      | EmptyString => None
      end
  end.

(** [JSON.parse(text)]: the value, [None] where [JSON.parse] throws. *)
Definition parse (text : string) : option value :=
  match parse_value (S (String.length text)) text with
  | Some (v, rest) =>
      match skip_ws rest with
      | EmptyString => Some v
      | String _ _ => None
      end
  | None => None
  end.


(** *** Writing *)

Definition hex_digit (n : nat) : Ascii.ascii :=
  if bool_decide (n < 10)%nat then chr (48 + n) else chr (87 + n).

(** One character inside a string literal, as [JSON.stringify] writes it. *)
Definition escape_char (c : Ascii.ascii) : string :=
  let n := code c in
  if decide (n = 34)%nat then String (chr 92) dq
  else if decide (n = 92)%nat then String (chr 92) (str1 (chr 92))
  else if decide (n = 8)%nat then "\b"
  else if decide (n = 12)%nat then "\f"
  else if decide (n = 10)%nat then "\n"
  else if decide (n = 13)%nat then "\r"
  else if decide (n = 9)%nat then "\t"
  else if bool_decide (n < 32)%nat then
    "\u00" +:+ String (hex_digit (n / 16)) (str1 (hex_digit (n mod 16)))
  else str1 c.

Fixpoint escape (s : string) : string :=
  match s with
  | EmptyString => EmptyString
  | String c r => escape_char c +:+ escape r
  end.

Definition quoted (s : string) : string := dq +:+ escape s +:+ dq.

Fixpoint join (sep : string) (parts : list string) : string :=
  match parts with
  | [] => EmptyString
  | [x] => x
  | x :: rest => x +:+ sep +:+ join sep rest
  end.

(** A member [key: value] whose value is already written. *)
Definition member (key text : string) : string := quoted key +:+ ": " +:+ text.

(** An object or an array over several lines, its parts indented by
    [indent] plus two spaces, as [JSON.stringify(_, null, 2)] lays it out. *)
Definition block (open close indent : string) (parts : list string) : string :=
  match parts with
  | [] => open +:+ close
  | _ => open +:+ nl
         +:+ join ("," +:+ nl) ((λ x, indent +:+ "  " +:+ x) <$> parts)
         +:+ nl +:+ indent +:+ close
  end.

(** *** Looking into a value *)

(** The member [key] of an object; the last one wins, as in [JSON.parse]. *)
Definition get (key : string) (v : value) : option value :=
  match v with
  | Object ms => snd <$> (snd <$> list_find (λ kv, kv.1 = key) (reverse ms))
  | _ => None
  end.

Definition as_string (v : value) : option string :=
  match v with
  | Str s => Some s
  | _ => None
  end.

(** The number, when it is an integer. *)
Definition as_int (v : value) : option Z :=
  match v with
  | Number m e =>
      if decide (0 ≤ e) then Some (m * 10 ^ e)
      else if decide (m mod 10 ^ (- e) = 0) then Some (m / 10 ^ (- e))
      else None
  | _ => None
  end.

End Json.

(** ** [JSON.stringify] and [JSON.parse] on the ledger *)

Module LedgerJson.
Import ProgressTracker.

Definition status_text (s : Status) : string :=
  match s with
  | pending => "pending"
  | downloading => "downloading"
  | completed => "completed"
  | failed => "failed"
  | skipped => "skipped"
  end.

Definition status_of_text (s : string) : option Status :=
  if decide (s = "pending") then Some pending
  else if decide (s = "downloading") then Some downloading
  else if decide (s = "completed") then Some completed
  else if decide (s = "failed") then Some failed
  else if decide (s = "skipped") then Some skipped
  else None.

(** A property whose value is [undefined] is not written. *)
Definition optional_member (key : string) (o : option string) : list string :=
  match o with
  | Some s => [Json.member key (Json.quoted s)]
  | None => []
  end.

(** The keys of a record, in the order of [interface LessonState]; the order
    in which the keys were added to the JavaScript object is not kept by
    the records. *)
Definition lesson_text (indent : string) (l : LessonState) : string :=
  Json.block "{" "}" indent
    ([ Json.member "id" (Json.quoted (id l));
       Json.member "moduleIndex" (pretty (moduleIndex l));
       Json.member "lessonIndex" (pretty (lessonIndex l));
       Json.member "moduleTitle" (Json.quoted (moduleTitle l));
       Json.member "lessonTitle" (Json.quoted (lessonTitle l)) ]
     ++ optional_member "videoUrl" (videoUrl l)
     ++ optional_member "videoProvider" (videoProvider l)
     ++ [ Json.member "status" (Json.quoted (status_text (status l))) ]
     ++ optional_member "outputPath" (outputPath l)
     ++ optional_member "error" (error l)
     ++ [ Json.member "attempts" (pretty (attempts l)) ]).

(** [JSON.stringify(state, null, 2)] *)
Definition stringify (s : CourseState) : string :=
  Json.block "{" "}" EmptyString
    [ Json.member "url" (Json.quoted (url s));
      Json.member "courseName" (Json.quoted (courseName s));
      Json.member "startedAt" (Json.quoted (startedAt s));
      Json.member "lastUpdated" (Json.quoted (lastUpdated s));
      Json.member "lessons"
        (Json.block "[" "]" "  " (lesson_text "    " <$> lessons s)) ].

(** An optional string property: absent, or a string. *)
Definition optional_string (key : string) (v : Json.value) : option (option string) :=
  match Json.get key v with
  | None => Some None
  | Some (Json.Str s) => Some (Some s)
  | Some _ => None
  end.

Definition get_string (key : string) (v : Json.value) : option string :=
  Json.get key v ≫= Json.as_string.

Definition get_int (key : string) (v : Json.value) : option Z :=
  Json.get key v ≫= Json.as_int.

(** The value as a [LessonState], when it has that shape. *)
Definition lesson_of (v : Json.value) : option LessonState :=
  i ← get_string "id" v;
  mi ← get_int "moduleIndex" v;
  li ← get_int "lessonIndex" v;
  mt ← get_string "moduleTitle" v;
  lt ← get_string "lessonTitle" v;
  vu ← optional_string "videoUrl" v;
  vp ← optional_string "videoProvider" v;
  st ← get_string "status" v ≫= status_of_text;
  op ← optional_string "outputPath" v;
  er ← optional_string "error" v;
  n ← get_int "attempts" v;
  Some (mkLessonState i mi li mt lt vu vp st op er n).

(** The value as a [CourseState], when it has that shape. *)
Definition state_of (v : Json.value) : option CourseState :=
  u ← get_string "url" v;
  c ← get_string "courseName" v;
  sa ← get_string "startedAt" v;
  lu ← get_string "lastUpdated" v;
  ls ← match Json.get "lessons" v with
       | Some (Json.Array vs) => mapM lesson_of vs
       | _ => None
       end;
  Some (mkCourseState u c sa lu ls).

(** [JSON.parse(data)] as [load()] meets it. *)
Definition parse (data : string) : Parsed :=
  match Json.parse data with
  | None => SyntaxError "SyntaxError: Unexpected token or end of JSON input"
  | Some v =>
      match state_of v with
      | Some s => Document s
      | None => ForeignValue
      end
  end.

End LedgerJson.

(** ** [addLesson] on a state that is not a [CourseState]

    [load()] assigns whatever [JSON.parse] returns to [this.state]. On a
    value that is not a [CourseState] the methods run all the same; what
    the first statement of [addLesson],
    [this.state.lessons.find((l) => l.id === lesson.id)], does then is
    read off the value. *)

Module RawLedger.

(** [l.id === id] on an element that is not [null]. *)
Definition has_id (i : string) (v : Json.value) : bool :=
  match Json.get "id" v with
  | Some (Json.Str s) => bool_decide (s = i)
  | _ => false
  end.

(** Does [lessons.find((l) => l.id === id)] throw on the array? It does
    when it meets [null], on which [l.id] is a [TypeError], before an
    element with the id. *)
Fixpoint find_throws (i : string) (vs : list Json.value) : bool :=
  match vs with
  | [] => false
  | Json.Null :: _ => true
  | v :: rest => if has_id i v then false else find_throws i rest
  end.

(** Does [addLesson(lesson)] throw a [TypeError] when [this.state] is the
    value [v] and [lesson.id] is [i]? [this.state.lessons] throws on
    [null]; on every other value it is the member [lessons], [undefined]
    without one, and [.find(...)] throws unless that is an array. *)
Definition addLesson_throws (v : Json.value) (i : string) : bool :=
  match v with
  | Json.Null => true
  | _ =>
      match Json.get "lessons" v with
      | Some (Json.Array vs) => find_throws i vs
      | _ => true
      end
  end.

End RawLedger.

(** ** [path] and [URL], for POSIX paths and plain http(s) addresses *)

Module Node.
Import Js.

(** The text before the last [sep] and the text after it. *)
Fixpoint split_last (sep : Ascii.ascii) (s : string) : option (string * string) :=
  match s with
  | EmptyString => None
  | String c rest =>
      match split_last sep rest with
      | Some (a, b) => Some (String c a, b)
      | None => if decide (c = sep) then Some (EmptyString, rest) else None
      end
  end.

(** The text before the first [sep] and the text from it on. *)
Fixpoint break_at (sep : Ascii.ascii) (s : string) : string * string :=
  match s with
  | EmptyString => (EmptyString, EmptyString)
  | String c rest =>
      if decide (c = sep) then (EmptyString, s)
      else let '(a, b) := break_at sep rest in (String c a, b)
  end.

(** [path.dirname(p)] *)
Definition dirname (p : string) : string :=
  match split_last "/" p with
  | Some (a, _) => if truthy a then a else "/"
  | None => "."
  end.

(** [path.basename(p)] *)
Definition basename (p : string) : string :=
  match split_last "/" p with
  | Some (_, b) => b
  | None => p
  end.

(** [path.extname(p)] *)
Definition extname (p : string) : string :=
  match split_last "." (basename p) with
  | Some (a, e) => if truthy a then "." +:+ e else EmptyString
  | None => EmptyString
  end.

(** [path.join(a, b)] for two segments without [.] or [..]. *)
Definition join (a b : string) : string := a +:+ "/" +:+ b.

Definition after (prefix s : string) : option string :=
  if String.prefix prefix s
  then Some (String.substring (String.length prefix)
               (String.length s - String.length prefix)%nat s)
  else None.

(** The parts of [scheme://host/path?query] after the scheme. *)
Definition url_parts (scheme rest : string) : option ResourceDownloader.URL :=
  let '(host, path_query) := break_at "/" rest in
  let '(path, query) := break_at "?" path_query in
  if truthy host then
    Some {| ResourceDownloader.protocol := scheme;
            ResourceDownloader.hostname := host;
            ResourceDownloader.pathname := if truthy path then path else "/";
            ResourceDownloader.search := query |}
  else None.

(** [new URL(s)] for an absolute http or https address; anything else is
    refused here, as the constructor refuses a text without a scheme. *)
Definition parse_url (s : string) : option ResourceDownloader.URL :=
  match after "https://" s with
  | Some rest => url_parts "https:" rest
  | None =>
      match after "http://" s with
      | Some rest => url_parts "http:" rest
      | None => None
      end
  end.

(** [new URL(rel, base).href] when [rel] is absolute or starts at the root
    of the host of [base]. *)
Definition resolve_url (rel base : string) : option string :=
  match parse_url rel with
  | Some _ => Some rel
  | None =>
      match parse_url base with
      | Some b =>
          if String.prefix "/" rel
          then Some (ResourceDownloader.protocol b +:+ "//"
                     +:+ ResourceDownloader.hostname b +:+ rel)
          else None
      | None => None
      end
  end.

End Node.

(** ** Worlds to run the downloaders in *)

Module Worlds.
Import Js.

(** A world with a working disk around one HTTP server. No regular
    expression finds a match in it; its texts need no decoding and no
    sanitizing. *)
Definition around (server : nat → bool → string → string → ResourceDownloader.NetEvent)
  : ResourceDownloader.Env :=
  {| ResourceDownloader.URL_parse := Node.parse_url;
     ResourceDownloader.URL_resolve := Node.resolve_url;
     ResourceDownloader.path_extname := Node.extname;
     ResourceDownloader.path_dirname := Node.dirname;
     ResourceDownloader.path_join := Node.join;
     ResourceDownloader.regex_group1 := λ _ _, None;
     ResourceDownloader.decodeURIComponent := Some;
     ResourceDownloader.sanitize := λ s, s;
     ResourceDownloader.http_get := server;
     ResourceDownloader.ensureDir := λ _, None;
     ResourceDownloader.fs_open := λ _, None;
     ResourceDownloader.pipe := λ _, ResourceDownloader.Finish;
     ResourceDownloader.fs_close := λ _, None |}.

Definition reply (status : Z) (loc : option string) : ResourceDownloader.NetEvent :=
  ResourceDownloader.NetResponse
    {| ResourceDownloader.statusCode := Some status;
       ResourceDownloader.location := loc;
       ResourceDownloader.content_disposition := None;
       ResourceDownloader.content_type := Some "text/html" |}.

(** A server that answers every request with a redirect to the same
    address. *)
Definition loop_server : nat → bool → string → string → ResourceDownloader.NetEvent :=
  λ _ _ _ _, reply 302 (Some "http://files.example/loop").

(** A server that redirects three times and then serves the file. *)
Definition three_hops_server : nat → bool → string → string → ResourceDownloader.NetEvent :=
  λ n _ _ _, if bool_decide (n < 3)%nat then reply 302 (Some "/next") else reply 200 None.

(** A server that answers 403 to everything. *)
Definition forbidden_server : nat → bool → string → string → ResourceDownloader.NetEvent :=
  λ _ _ _ _, reply 403 None.

Definition attachment : ResourceDownloader.ExtractedLink :=
  {| ResourceDownloader.l_text := "Workbook";
     ResourceDownloader.l_url := "http://files.example/loop";
     ResourceDownloader.l_type := ResourceDownloader.external |}.

(** A link whose address has no scheme. *)
Definition relative_link : ResourceDownloader.ExtractedLink :=
  {| ResourceDownloader.l_text := "Slides";
     ResourceDownloader.l_url := "/files/slides.pdf";
     ResourceDownloader.l_type := ResourceDownloader.pdf |}.

(** A child process that ends as told, in a directory that holds [files]. *)
Definition yt_world (ends : YtDlp.ExecResult) (files : list string) : YtDlp.Env :=
  {| YtDlp.execa := λ _ _, ends;
     YtDlp.readdir := λ _, Some files;
     YtDlp.path_dirname := Node.dirname;
     YtDlp.path_basename := Node.basename;
     YtDlp.path_join := Node.join |}.

(** A queue world: the executor's child ends as told; creating a
    directory throws [mkdir_error] when there is one. *)
Definition queue_world (ends : YtDlp.ExecResult) (mkdir_error : option string)
  : DownloadQueue.Env :=
  {| DownloadQueue.yt := yt_world ends ["01_Intro.mp4"];
     DownloadQueue.ensureDir := λ _, mkdir_error;
     DownloadQueue.path_dirname := Node.dirname |}.

Definition intro : ProgressTracker.LessonState :=
  ProgressTracker.mkLessonState "L1" 0 0 "Basics" "Intro"
    (Some "https://vimeo.com/1") (Some "vimeo") ProgressTracker.pending None None 0.

Definition basics : ProgressTracker.LessonState :=
  ProgressTracker.mkLessonState "L2" 0 1 "Basics" "Setup"
    None None ProgressTracker.failed None (Some "HTTP 500") 2.

Definition ledger (ls : list ProgressTracker.LessonState) : ProgressTracker.Tracker :=
  ProgressTracker.mkTracker
    (ProgressTracker.mkCourseState "https://www.skool.com/c" "c" "t0" "t1" ls)
    "state/c-progress.json" None.

Definition intro_download : DownloadQueue.QueuedDownload :=
  {| DownloadQueue.lesson := intro;
     DownloadQueue.downloadUrl := "https://vimeo.com/1";
     DownloadQueue.outputPath := "out/c/01_Basics/01_Intro";
     DownloadQueue.cookiesFile := None;
     DownloadQueue.referer := None;
     DownloadQueue.downloadSubs := false;
     DownloadQueue.subsLang := "en" |}.

Definition intro_queue : DownloadQueue.Queue :=
  DownloadQueue.add (DownloadQueue.new_queue (ledger [intro; basics])) intro_download.

(** The input of [addLesson] for the lesson [n] of the first module. *)
Definition seed (n : Z) : ProgressTracker.LessonInput :=
  ProgressTracker.mkLessonInput ("L" +:+ pretty n) 0 (n - 1) "Basics"
    ("Lesson " +:+ pretty n) None None None None.

(** A run that seeds five lessons, completes two, fails one at its first
    attempt, and stops. *)
Definition interrupted_run : ProgressTracker.Tracker :=
  let t0 := ProgressTracker.new_tracker Node.join "t0" "state" "c" in
  let t1 := foldl ProgressTracker.addLesson t0 (seed <$> [1; 2; 3; 4; 5]) in
  let t2 := ProgressTracker.markCompleted (ProgressTracker.markStarted t1 "L1") "L1"
              "out/01_Lesson_1.mp4" in
  let t3 := ProgressTracker.markCompleted (ProgressTracker.markStarted t2 "L2") "L2"
              "out/02_Lesson_2.mp4" in
  ProgressTracker.markFailed (ProgressTracker.markStarted t3 "L3") "L3" "HTTP 500".

(** The text of a state file that has lost its [lessons]. *)
Definition without_lessons : string :=
  Json.block "{" "}" EmptyString
    [ Json.member "url" (Json.quoted "https://www.skool.com/c");
      Json.member "courseName" (Json.quoted "c");
      Json.member "startedAt" (Json.quoted "t0");
      Json.member "lastUpdated" (Json.quoted "t1") ].

(** Is [JSON.parse] a [SyntaxError] on the text? *)
Definition rejected (text : string) : bool :=
  match LedgerJson.parse text with
  | ProgressTracker.SyntaxError _ => true
  | _ => false
  end.

End Worlds.

(** * Vocabulary of the statements *)

Module Ledger.
Import ProgressTracker.

(** The scheduling-eligibility condition of the data model: pending, or
    failed with fewer than three attempts. *)
Definition eligible (l : LessonState) : Prop :=
  status l = pending ∨ (status l = failed ∧ attempts l < 3).

(** The operations of the ledger that act on the records it holds.
    [load()] is not among them: it replaces the ledger by the one on disk. *)
Inductive Op : Type :=
  | OpInitialize (now u name : string)
  | OpAddLesson (x : LessonInput)
  | OpUpdateLesson (i : string) (u : LessonUpdates)
  | OpMarkStarted (i : string)
  | OpMarkCompleted (i out : string)
  | OpMarkFailed (i err : string)
  | OpMarkSkipped (i reason : string)
  | OpSave (now : string).

(** The tracker after an operation; of [save()], its assignment to
    [lastUpdated]. *)
Definition perform (op : Op) (t : Tracker) : Tracker :=
  match op with
  | OpInitialize now u name => initialize now t u name
  | OpAddLesson x => addLesson t x
  | OpUpdateLesson i u => updateLesson t i u
  | OpMarkStarted i => markStarted t i
  | OpMarkCompleted i out => markCompleted t i out
  | OpMarkFailed i err => markFailed t i err
  | OpMarkSkipped i reason => markSkipped t i reason
  | OpSave now => touch now t
  end.

(** The record at position [k] of the ledger. The operations never remove
    or reorder records, so a position names a record through a run. *)
Definition record_at (t : Tracker) (k : nat) : option LessonState :=
  lessons (state t) !! k.

(** "attempts never decreases under any ledger operation". *)
Definition attempts_never_decrease : Prop :=
  ∀ (op : Op) (t : Tracker) (k : nat) (l l' : LessonState),
    record_at t k = Some l →
    record_at (perform op t) k = Some l' →
    attempts l ≤ attempts l'.

(** An operation that does not write the [attempts] field from its
    argument: every one except an [updateLesson] whose partial record has
    the key [attempts]. *)
Definition leaves_attempts_to_ledger (op : Op) : Prop :=
  match op with
  | OpUpdateLesson _ u => u_attempts u = None
  | _ => True
  end.

(** The operation is a [markStarted] whose [find] stops at position [k]. *)
Definition starts (op : Op) (t : Tracker) (k : nat) : bool :=
  match op with
  | OpMarkStarted i =>
      bool_decide (fst <$> find_lesson i (lessons (state t)) = Some k)
  | _ => false
  end.

End Ledger.

Module Scheduling.
Import Js DownloadQueue.

(** A terminal call of a worker on the ledger for the lesson [i]. *)
Definition terminal_for (i : string) (e : Event) : Prop :=
  match e with
  | MarkCompleted j _ | MarkFailed j _ => j = i
  | _ => False
  end.

Definition is_mkdir (e : Event) : bool :=
  match e with
  | EnsureDir _ => true
  | _ => false
  end.

(** The calls on the ledger and on the executor among the calls of a
    worker. *)
Definition steps (evs : list Event) : list Event :=
  filter (λ e, is_mkdir e = false) evs.

(** The strict sequence of a processed item: [markStarted], then the
    executor, then one terminal call for the same lesson, and nothing
    else. *)
Definition strict_sequence (d : QueuedDownload) (evs : list Event) : Prop :=
  ∃ terminal,
    steps evs = [ MarkStarted (ProgressTracker.id (lesson d));
                  Executor (options_of d);
                  terminal ]
    ∧ terminal_for (ProgressTracker.id (lesson d)) terminal.

(** "Every item processed by the worker goes through the strict sequence." *)
Definition every_item_strict : Prop :=
  ∀ (w : Env) (q : Queue) (d : QueuedDownload),
    strict_sequence d (processDownload w q d).1.2.

(** The terminal call that answers a result of the executor. *)
Definition terminal_of (d : QueuedDownload) (result : YtDlp.DownloadResult) : Event :=
  let i := ProgressTracker.id (lesson d) in
  if YtDlp.success result
  then MarkCompleted i (or_else (YtDlp.outputFile result) (outputPath d))
  else MarkFailed i (or_else (YtDlp.error result) "Unknown error").

(** The calls a worker has made when it is at a given stage. *)
Definition history (w : Env) (k : Worker) : list Event :=
  let d := item k in
  let started := [ MarkStarted (ProgressTracker.id (lesson d));
                   EnsureDir (path_dirname w (outputPath d)) ] in
  match stage k with
  | Queued => []
  | AwaitingDir => started
  | AwaitingExecutor => started ++ [Executor (options_of d)]
  | Settled (Resolved _) =>
      match YtDlp.downloadVideo (yt w) (options_of d) with
      | Resolved result =>
          started ++ [Executor (options_of d); terminal_of d result]
      | _ => started ++ [Executor (options_of d)]
      end
  | Settled _ => started
  end.

End Scheduling.

Module Durability.
Import ProgressTracker.

(** "[save()] is crash-atomic": whenever the process dies while [save()]
    runs, the state file holds what it held before or the full new text. *)
Definition save_is_crash_atomic : Prop :=
  ∀ (JSON_stringify : CourseState → string) (path_dirname : string → string)
    (now : string) (t : Tracker) (d : Disk),
    crash_atomic d (save JSON_stringify path_dirname now t).2 (statePath t).

(** The damage that makes [load()] throw inside its [try]: the state file
    of [t] exists and reading it throws, or its text is one [JSON.parse]
    throws on. *)
Definition unparsable (JSON_parse : string → Parsed) (d : Disk) (t : Tracker) : Prop :=
  (∃ e, d !! statePath t = Some (Unreadable e))
  ∨ (∃ data msg, d !! statePath t = Some (File data)
                 ∧ JSON_parse data = SyntaxError msg).

(** The state file of [t] is corrupt or unreadable: it exists and does not
    hold a ledger, because it cannot be read, because its text is not
    JSON, or because its text is JSON for something else. *)
Definition damaged (JSON_parse : string → Parsed) (d : Disk) (t : Tracker) : Prop :=
  unparsable JSON_parse d t
  ∨ (∃ data, d !! statePath t = Some (File data) ∧ JSON_parse data = ForeignValue).

(** "On every corrupt or unreadable state file [load()] returns [false]." *)
Definition damage_is_tolerated : Prop :=
  ∀ (JSON_parse : string → Parsed) (d : Disk) (t : Tracker),
    damaged JSON_parse d t → load_returns (load JSON_parse d t) = false.

(** A disk whose state file holds the ledger [s], written in full. *)
Definition disk_with (path : string) (s : CourseState) : Disk :=
  {[ path := File (LedgerJson.stringify s) ]}.

(** A disk whose state file was cut after [k] characters. *)
Definition disk_cut (path : string) (k : nat) (s : CourseState) : Disk :=
  {[ path := File (prefix_of k (LedgerJson.stringify s)) ]}.

End Durability.

Module Fetch.
Import Js ResourceDownloader.

(** The response [downloadFile] runs its status checks on: the first one
    that is not a redirect it follows. *)
Fixpoint final_response (w : Env) (sent : nat) (u : string) (followRedirects : nat)
  : option Response :=
  match URL_parse w u with
  | None => None
  | Some urlObj =>
      match http_get w sent (bool_decide (protocol urlObj = "https:"))
              (hostname urlObj) (pathname urlObj +:+ search urlObj) with
      | NetResponse r =>
          match redirect_target r, followRedirects with
          | Some redirectUrl, S n =>
              match URL_resolve w redirectUrl u with
              | Some absoluteUrl => final_response w (S sent) absoluteUrl n
              | None => None
              end
          | _, _ => Some r
          end
      | _ => None
      end
  end.

Definition is_get (e : Effect) : bool :=
  match e with
  | Get _ _ _ => true
  | _ => false
  end.

(** The requests among the effects. *)
Definition gets (effs : list Effect) : list Effect :=
  filter (λ e, is_get e = true) effs.

(** "A 401 or 403 makes the caller skip the item with the reason
    [Authentication required]." *)
Definition auth_is_skipped_with (reason : string) : Prop :=
  ∀ (w : Env) (link : ExtractedLink) (outputDir : string) (index : Z) (r : Response),
    l_type link ≠ notion →
    final_response w 0 (direct_url w link) 5 = Some r →
    statusCode r = Some 401 ∨ statusCode r = Some 403 →
    ∃ res, (downloadResource w link outputDir index).2 = Resolved res
           ∧ success res = false
           ∧ skipped res = Some true
           ∧ skipReason res = Some reason.

(** The server redirects for ever: every answer is a redirect. *)
Definition always_redirects (w : Env) : Prop :=
  ∀ n https host path, ∃ r,
    http_get w n https host path = NetResponse r
    ∧ is_Some (redirect_target r).

(** "Against redirects without end, [downloadFile] never reports success." *)
Definition excess_redirects_fail : Prop :=
  ∀ (w : Env) (u outputPath : string) (res : FileResult),
    always_redirects w →
    (downloadFile w u outputPath).2 = Resolved res →
    f_success res = false.

(** "No failure escapes [downloadFile] as a rejected promise." *)
Definition downloadFile_never_rejects : Prop :=
  ∀ (w : Env) (u outputPath : string),
    ∃ res, (downloadFile w u outputPath).2 = Resolved res.

End Fetch.

Module LedgerShape.
Import ProgressTracker Ledger.

(** No two records of the ledger have the same id. *)
Definition unique_ids (t : Tracker) : Prop :=
  NoDup (id <$> lessons (state t)).

(** An operation that does not write the [id] field from its argument:
    every one except an [updateLesson] whose partial record has the key
    [id]. *)
Definition leaves_id (op : Op) : Prop :=
  match op with
  | OpUpdateLesson _ u => u_id u = None
  | _ => True
  end.

(** An operation other than the generic [updateLesson]. *)
Definition is_transition (op : Op) : Prop :=
  match op with
  | OpUpdateLesson _ _ => False
  | _ => True
  end.

(** Every completed record has its output path and no error. *)
Definition completed_have_output (t : Tracker) : Prop :=
  ∀ l, l ∈ lessons (state t) → status l = completed →
       is_Some (outputPath l) ∧ error l = None.

(** The operations of a list, one after the other. *)
Definition perform_all (ops : list Op) (t : Tracker) : Tracker :=
  foldl (λ t' op, perform op t') t ops.

(** The failed records that may still be retried. *)
Definition retryable (ls : list LessonState) : list LessonState :=
  filter (λ l, status l = failed ∧ attempts l < 3) ls.

End LedgerShape.

Module Workers.
Import Js DownloadQueue.

(** The worker's promise has resolved. *)
Definition is_done (k : Worker) : bool :=
  match stage k with
  | Settled (Resolved _) => true
  | _ => false
  end.

(** The number of workers whose promise has resolved. *)
Definition finished (ws : list Worker) : nat :=
  length (filter (λ k, is_done k = true) ws).

(** The workers of a list of items, none started. *)
Definition queued (items : list QueuedDownload) : list Worker :=
  (λ d, {| item := d; stage := Queued |}) <$> items.

(** [queue.add] for each item of a list. *)
Definition add_all (q : Queue) (items : list QueuedDownload) : Queue :=
  foldl add q items.

End Workers.

Module Arguments.
Import Js YtDlp.

(** The options with another cookies file and another referer. *)
Definition with_credentials (o : DownloadOptions) (cookies ref : option string)
  : DownloadOptions :=
  {| url := url o; outputPath := outputPath o; provider := provider o;
     cookiesFile := cookies; downloadSubs := downloadSubs o;
     subsLang := subsLang o; referer := ref |}.

(** The error texts [downloadVideo] chooses from a child's [stderr]. *)
Definition known_errors : list string :=
  [ "Video is unavailable or private";
    "Access denied - may need fresh cookies";
    "Video not found" ].

End Arguments.

Module Results.
Import Js ResourceDownloader.

(** The three shapes of a [DownloadResult]: a file saved at [p], an item
    skipped for a reason, a failure with an error text. *)
Definition saved_as (d : DownloadResult) (p : string) : Prop :=
  success d = true ∧ outputPath d = Some p ∧ error d = None
  ∧ skipped d = None ∧ skipReason d = None.

Definition skipped_for (d : DownloadResult) (reason : string) : Prop :=
  success d = false ∧ outputPath d = None ∧ error d = None
  ∧ skipped d = Some true ∧ skipReason d = Some reason.

Definition failed_with (d : DownloadResult) (e : option string) : Prop :=
  success d = false ∧ outputPath d = None ∧ error d = e
  ∧ skipped d = None ∧ skipReason d = None.

(** The reasons [downloadResource] skips an item for. *)
Definition resource_skip_reasons : list string :=
  [ "Notion pages cannot be directly downloaded (link preserved in content)";
    "Requires authentication" ].

(** The reasons [downloadModuleResources] reports: those, and its own. *)
Definition skip_reasons : list string :=
  resource_skip_reasons ++ ["External link (not a file)"].

(** What [downloadFile] resolves with is either a success that names its
    file or a failure that carries an error text. *)
Definition well_formed (r : FileResult) : Prop :=
  if f_success r
  then is_Some (f_finalPath r) ∧ f_error r = None ∧ f_requiresAuth r = None
  else f_finalPath r = None ∧ is_Some (f_error r).

(** The effects of a transfer to [p] that runs to its end. *)
Definition transfer (w : Env) (p : string) : list Effect :=
  [EnsureDir (path_dirname w p); Open p; Pipe p; Close p].

(** A link [downloadModuleResources] never asks the network for. *)
Definition is_page (link : ExtractedLink) : Prop :=
  l_type link = notion
  ∨ (l_type link = external ∧ isLikelyFile (l_url link) = false).

(** The text [downloadFile] reports for an error status. *)
Definition status_text (c : Z) : string :=
  if bool_decide (c = 401 ∨ c = 403) then "Authentication required"
  else if bool_decide (c = 404) then "File not found (404)"
  else "HTTP " +:+ pretty c.

End Results.

Module Names.
Import Js.

(** Does the string hold a white-space character? *)
Fixpoint has_space (s : string) : bool :=
  match s with
  | EmptyString => false
  | String c rest => is_space c || has_space rest
  end.

(** The first character of a string. *)
Definition head_char (s : string) : option Ascii.ascii :=
  match s with
  | EmptyString => None
  | String c _ => Some c
  end.

End Names.

Module Commands.
Import Js ProgressTracker Cli.

(** The record keeps what [downloadCommand] seeded it with for the
    module. *)
Definition seeded_from (m : Module) (l : LessonState) : Prop :=
  id l = m_id m
  ∧ moduleIndex l = m_index m ∧ lessonIndex l = m_index m
  ∧ moduleTitle l = m_courseTitle m ∧ lessonTitle l = m_title m.

(** The record has a video address. *)
Definition has_address (l : LessonState) : Prop :=
  truthy_opt (videoUrl l) = true.

(** Every id of the modules is in the ledger. *)
Definition all_seeded (t : Tracker) (modules : list Module) : Prop :=
  ∀ m, m ∈ modules → is_Some (getLesson t (m_id m)).

(** The providers whose address [getDownloadableUrl] builds from the
    video id. *)
Definition hosted (p : VideoExtractor.VideoProvider) : bool :=
  match p with
  | VideoExtractor.wistia | VideoExtractor.vimeo
  | VideoExtractor.youtube | VideoExtractor.loom => true
  | _ => false
  end.

End Commands.

(** * Properties of the ledger *)

Module LedgerFacts.
Import ProgressTracker Ledger.

Lemma find_lesson_Some i ls k l :
  find_lesson i ls = Some (k, l) →
  ls !! k = Some l ∧ id l = i.
Proof.
  unfold find_lesson. intros H%list_find_Some. tauto.
Qed.

Lemma find_lesson_None i ls :
  find_lesson i ls = None ↔ ∀ l, l ∈ ls → id l ≠ i.
Proof.
  unfold find_lesson. rewrite list_find_None, Forall_forall. reflexivity.
Qed.

Lemma find_lesson_present i ls l :
  l ∈ ls → id l = i → is_Some (find_lesson i ls).
Proof.
  intros Hin Hid. unfold find_lesson.
  apply (list_find_elem_of _ ls l); assumption.
Qed.

(** The positions of the ledger after [updateLesson]. *)
Lemma updateLesson_record_at t i u k :
  record_at (updateLesson t i u) k =
    match find_lesson i (lessons (state t)) with
    | Some (j, l) => if decide (j = k) then Some (assign l u) else record_at t k
    | None => record_at t k
    end.
Proof.
  unfold updateLesson, record_at.
  destruct (find_lesson i (lessons (state t))) as [[j l]|] eqn:Hf; [|reflexivity].
  apply find_lesson_Some in Hf as [Hj _]. simpl.
  destruct (decide (j = k)) as [->|Hne].
  - apply list_lookup_insert_eq. eapply lookup_lt_Some; eassumption.
  - apply list_lookup_insert_ne; assumption.
Qed.

Lemma updateLesson_length t i u :
  length (lessons (state (updateLesson t i u))) = length (lessons (state t)).
Proof.
  unfold updateLesson.
  destruct (find_lesson i (lessons (state t))) as [[j l]|]; [|reflexivity].
  simpl. apply length_insert.
Qed.

Lemma or_zero_Some a : or_zero (Some a) = a.
Proof. simpl. destruct (decide (a = 0)); congruence. Qed.

(** C1. [getPendingLessons] returns exactly the pending records and the
    failed records with fewer than three attempts, in ledger order: the
    result is a sublist of the ledger (order and multiplicity kept), a
    record is in it iff it is in the ledger and eligible, every sublist of
    eligible records of the ledger is a sublist of it, and no record of
    status completed, skipped or downloading is in it. *)
Theorem getPendingLessons_exact (t : Tracker) :
  getPendingLessons t `sublist_of` lessons (state t)
  ∧ (∀ l, l ∈ getPendingLessons t ↔ l ∈ lessons (state t) ∧ eligible l)
  ∧ (∀ ls, ls `sublist_of` lessons (state t) → Forall eligible ls →
           ls `sublist_of` getPendingLessons t)
  ∧ (∀ l, l ∈ getPendingLessons t →
          status l ≠ completed ∧ status l ≠ skipped ∧ status l ≠ downloading).
Proof.
  unfold getPendingLessons.
  change (λ l, status l = pending ∨ status l = failed ∧ attempts l < 3) with eligible.
  split; [apply sublist_filter|].
  split; [intros l; rewrite list_elem_of_filter; tauto|].
  split.
  - intros ls. generalize (lessons (state t)) as full.
    intros full Hsub Hall. induction Hsub as [|x l1 l2 Hs IH|x l1 l2 Hs IH].
    + constructor.
    + inversion Hall; subst.
      rewrite filter_cons_True by assumption.
      constructor. apply IH. assumption.
    + rewrite filter_cons. destruct (decide (eligible x)).
      * constructor. apply IH. assumption.
      * apply IH. assumption.
  - intros l [[Hp|[Hf _]] _]%list_elem_of_filter; repeat split; congruence.
Qed.

(** [addLesson] returns the tracker it got when [find] has a result. *)
Lemma addLesson_found (t : Tracker) (x : LessonInput) :
  is_Some (find_lesson (in_id x) (lessons (state t))) → addLesson t x = t.
Proof.
  intros [kl H]. unfold addLesson. rewrite H. reflexivity.
Qed.

(** C4. [addLesson] with an id the ledger already holds changes nothing:
    the tracker afterwards is the tracker before, so no record is reset,
    none is added and no save is scheduled. *)
Theorem addLesson_present_noop (t : Tracker) (x : LessonInput) :
  (∃ l, l ∈ lessons (state t) ∧ id l = in_id x) →
  addLesson t x = t.
Proof.
  intros (l & Hin & Hid).
  apply addLesson_found, (find_lesson_present _ _ l); assumption.
Qed.

Lemma addLesson_present_noop_witness :
  let l := mkLessonState "L1" 0 0 "Module" "Lesson" None None failed None
             (Some "HTTP 500") 2 in
  let t := mkTracker (mkCourseState "u" "c" "t0" "t1" [l]) "state/c-progress.json" None in
  let x := mkLessonInput "L1" 0 0 "Module" "Lesson" None None None None in
  (∃ l', l' ∈ lessons (state t) ∧ id l' = in_id x) ∧ addLesson t x = t.
Proof.
  intros l t x.
  assert (H : ∃ l', l' ∈ lessons (state t) ∧ id l' = in_id x).
  { exists l. split; [apply list_elem_of_singleton; reflexivity | reflexivity]. }
  split; [exact H | exact (addLesson_present_noop t x H)].
Defined.

(** After [addLesson], [find] has a result for the id. *)
Lemma addLesson_makes_present (t : Tracker) (x : LessonInput) :
  is_Some (find_lesson (in_id x) (lessons (state (addLesson t x)))).
Proof.
  unfold addLesson.
  destruct (find_lesson (in_id x) (lessons (state t))) as [[k l]|] eqn:Hf.
  - rewrite Hf. eexists; reflexivity.
  - simpl. apply (find_lesson_present _ _ (new_lesson x)); [|reflexivity].
    apply elem_of_app. right. apply list_elem_of_singleton. reflexivity.
Qed.

(** Seeding twice is seeding once. *)
Lemma addLesson_twice (t : Tracker) (x : LessonInput) :
  addLesson (addLesson t x) x = addLesson t x.
Proof.
  apply addLesson_found, addLesson_makes_present.
Qed.

(** *** Statuses and the statistics *)

(** Every record is in exactly one of the five status classes. *)
Lemma status_classes_partition (ls : list LessonState) :
  (length (with_status completed ls) + length (with_status failed ls)
   + length (with_status pending ls) + length (with_status skipped ls)
   + length (with_status downloading ls) = length ls)%nat.
Proof.
  unfold with_status. induction ls as [|x ls IH]; [reflexivity|].
  rewrite !filter_cons. simpl length.
  destruct (status x); simpl; lia.
Qed.

(** A record with another status does not count for a class. *)
Lemma with_status_skip (s : Status) (l1 l2 : list LessonState) (x : LessonState) :
  status x ≠ s → with_status s (l1 ++ x :: l2) = with_status s (l1 ++ l2).
Proof.
  intros Hne. unfold with_status.
  rewrite !filter_app, filter_cons_False by assumption. reflexivity.
Qed.

(** [find] after the record found has been overwritten by one of the same
    id: the same position, the new record. *)
Lemma find_lesson_insert i ls k l l' :
  find_lesson i ls = Some (k, l) → id l' = i →
  find_lesson i (<[k := l']> ls) = Some (k, l').
Proof.
  unfold find_lesson. intros (Hk & Hid & Hfirst)%list_find_Some Hid'.
  apply list_find_Some. split; [|split].
  - apply list_lookup_insert_eq. eapply lookup_lt_Some; eassumption.
  - assumption.
  - intros j y Hj Hlt. rewrite list_lookup_insert_ne in Hj by lia.
    eapply Hfirst; eassumption.
Qed.

(** [getLesson] after an [updateLesson] that keeps the id. *)
Lemma getLesson_updateLesson t i u l :
  u_id u = None → getLesson t i = Some l →
  getLesson (updateLesson t i u) i = Some (assign l u).
Proof.
  unfold getLesson, updateLesson. intros Hu Hg.
  destruct (find_lesson i (lessons (state t))) as [[k l0]|] eqn:Hf; [|discriminate].
  simpl in Hg. injection Hg as ->. simpl.
  rewrite (find_lesson_insert i _ k l (assign l u) Hf).
  - reflexivity.
  - unfold assign. simpl. rewrite Hu. simpl.
    apply find_lesson_Some in Hf. tauto.
Qed.

(** C10. A record whose status is ['downloading'] is not returned by
    [getPendingLessons], and [getStats] counts it in [total] only: the four
    buckets add up to [total] minus the number of such records, and taking
    one such record out of the ledger changes no bucket. [markStarted]
    puts the record it finds in that status. *)
Theorem downloading_never_rescheduled (t : Tracker) :
  (∀ l, l ∈ lessons (state t) → status l = downloading → l ∉ getPendingLessons t)
  ∧ (st_completed (getStats t) + st_failed (getStats t)
     + st_pending (getStats t) + st_skipped (getStats t)
     = st_total (getStats t)
       - length (with_status downloading (lessons (state t))))%nat
  ∧ (∀ l1 x l2, lessons (state t) = l1 ++ x :: l2 → status x = downloading →
       let s := getStats t in
       let s' := getStats (with_lessons t (l1 ++ l2)) in
       st_completed s = st_completed s' ∧ st_failed s = st_failed s'
       ∧ st_pending s = st_pending s' ∧ st_skipped s = st_skipped s'
       ∧ st_total s = S (st_total s'))
  ∧ (∀ i l, getLesson t i = Some l →
       ∃ l', getLesson (markStarted t i) i = Some l'
             ∧ status l' = downloading
             ∧ l' ∉ getPendingLessons (markStarted t i)).
Proof.
  assert (Hout : ∀ t' l, status l = downloading → l ∉ getPendingLessons t').
  { intros t' l Hs [[Hp|[Hf _]] _]%list_elem_of_filter; congruence. }
  split; [intros l _ Hs; apply Hout, Hs|].
  split.
  { unfold getStats. simpl.
    pose proof (status_classes_partition (lessons (state t))). lia. }
  split.
  { intros l1 x l2 Heq Hs. unfold getStats. simpl. rewrite Heq.
    rewrite !with_status_skip by congruence.
    rewrite !length_app. simpl. repeat split; lia. }
  intros i l Hg. eexists. split; [|split].
  - unfold markStarted. apply getLesson_updateLesson; [reflexivity | exact Hg].
  - reflexivity.
  - apply Hout. reflexivity.
Qed.

(** *** The attempts counter *)

Lemma assign_attempts (l : LessonState) (u : LessonUpdates) :
  u_attempts u = None → attempts (assign l u) = attempts l.
Proof. intros H. unfold assign. simpl. rewrite H. reflexivity. Qed.

(** An [updateLesson] without the key [attempts] keeps every counter. *)
Lemma updateLesson_keeps_attempts t i u k l :
  u_attempts u = None → record_at t k = Some l →
  ∃ l', record_at (updateLesson t i u) k = Some l' ∧ attempts l' = attempts l.
Proof.
  intros Hu Hk. rewrite updateLesson_record_at.
  destruct (find_lesson i (lessons (state t))) as [[j l0]|] eqn:Hf; [|eauto].
  destruct (decide (j = k)) as [->|]; [|eauto].
  apply find_lesson_Some in Hf as [Hj _].
  unfold record_at in Hk. assert (l0 = l) as -> by congruence.
  eexists. split; [reflexivity | apply assign_attempts, Hu].
Qed.

(** [markStarted] adds one to the counter of the record it finds and keeps
    the others. *)
Lemma markStarted_attempts t i k l :
  record_at t k = Some l →
  ∃ l', record_at (markStarted t i) k = Some l'
        ∧ attempts l' = attempts l + (if starts (OpMarkStarted i) t k then 1 else 0).
Proof.
  intros Hk. unfold markStarted, getLesson, starts.
  rewrite updateLesson_record_at.
  destruct (find_lesson i (lessons (state t))) as [[j l0]|] eqn:Hf; simpl.
  - destruct (decide (j = k)) as [->|Hne].
    + apply find_lesson_Some in Hf as [Hj _].
      unfold record_at in Hk. assert (l0 = l) as -> by congruence.
      eexists. split; [reflexivity|]. simpl.
      rewrite bool_decide_eq_true_2 by reflexivity.
      destruct (decide (attempts l = 0)) as [->|]; reflexivity.
    + rewrite bool_decide_eq_false_2 by congruence.
      exists l. split; [assumption | lia].
  - exists l. split; [assumption | lia].
Qed.

(** Every operation that leaves the counter to the ledger keeps each
    record in place, with the counter it had, plus one for the record a
    [markStarted] finds. *)
Lemma perform_attempts op t k l :
  leaves_attempts_to_ledger op → record_at t k = Some l →
  ∃ l', record_at (perform op t) k = Some l'
        ∧ attempts l' = attempts l + (if starts op t k then 1 else 0).
Proof.
  intros Hop Hk.
  assert (Hsame : ∀ i u, u_attempts u = None →
            ∃ l', record_at (updateLesson t i u) k = Some l'
                  ∧ attempts l' = attempts l + 0).
  { intros i u Hu.
    destruct (updateLesson_keeps_attempts t i u k l Hu Hk) as (l' & H1 & H2).
    exists l'. split; [assumption | lia]. }
  destruct op; simpl in *;
    try (apply Hsame; (assumption || reflexivity)).
  - exists l. split; [exact Hk | lia].
  - exists l. split; [|lia]. unfold addLesson, record_at in *.
    destruct (find_lesson _ _); [assumption|]. simpl.
    apply lookup_app_l_Some. assumption.
  - apply markStarted_attempts. assumption.
  - exists l. split; [exact Hk | lia].
Qed.

(** The claim as C8 words it fails: [updateLesson] with the key [attempts]
    writes whatever number it is given, here 0 over 2. *)
Lemma attempts_can_decrease : ¬ attempts_never_decrease.
Proof.
  intros H.
  pose (l := mkLessonState "L1" 0 0 "Module" "Lesson" None None failed None
               (Some "HTTP 500") 2).
  pose (t := mkTracker (mkCourseState "u" "c" "t0" "t1" [l])
               "state/c-progress.json" None).
  pose (u := mkLessonUpdates None None None None None None None None None None
               (Some 0)).
  specialize (H (OpUpdateLesson "L1" u) t 0%nat l (assign l u) eq_refl eq_refl).
  simpl in H. lia.
Qed.
End LedgerFacts.

(** * Properties of [load()] and [save()] *)

Module PersistenceFacts.
Import ProgressTracker Durability.

Lemma fileExists_true d p n : d !! p = Some n → fileExists d p = true.
Proof.
  intros H. unfold fileExists. apply bool_decide_eq_true_2. eexists; eassumption.
Qed.

(** [load()] on a state file that cannot be read or is not JSON, for any
    tracker: [false] with a warning, and the tracker as it was. *)
Lemma load_unparsable JSON_parse d t :
  unparsable JSON_parse d t →
  ∃ warning, load JSON_parse d t = NotLoaded t (Some warning).
Proof.
  unfold load, readFile.
  intros [(e & He) | (data & msg & Hd & Hp)].
  - rewrite (fileExists_true _ _ _ He), He. eauto.
  - rewrite (fileExists_true _ _ _ Hd), Hd, Hp. eauto.
Qed.

(** The damage [load()] tolerates. With a state file that cannot be read
    or whose text is not JSON, [load()] of a new tracker does not throw:
    it returns [false] after a warning and leaves the tracker on the empty
    state of its constructor, and the calls of [addLesson] that follow
    fill the ledger as on a first run. *)
Lemma load_tolerates_unparsable_state
    (JSON_parse : string → Parsed) (path_join : string → string → string)
    (d : Disk) (now stateDir courseSlug : string) :
  let t := new_tracker path_join now stateDir courseSlug in
  unparsable JSON_parse d t →
  (∃ warning, load JSON_parse d t = NotLoaded t (Some warning))
  ∧ load_returns (load JSON_parse d t) = false
  ∧ state t = createEmptyState now
  ∧ (∀ x, lessons (state (addLesson t x)) = [new_lesson x])
  ∧ (∀ x y, in_id x ≠ in_id y →
            lessons (state (addLesson (addLesson t x) y))
            = [new_lesson x; new_lesson y]).
Proof.
  intros t Hc.
  destruct (load_unparsable JSON_parse d t Hc) as [warning Hl].
  split; [eauto|]. split; [rewrite Hl; reflexivity|].
  split; [reflexivity|]. split; [reflexivity|].
  intros x y Hne. unfold addLesson at 2. simpl.
  unfold addLesson, find_lesson. simpl.
  rewrite decide_False by assumption. reflexivity.
Qed.

Lemma load_tolerates_unparsable_state_witness :
  let d := disk_cut "state/c-progress.json" 60
             (mkCourseState "https://www.skool.com/c" "c" "t0" "t1" [Worlds.intro]) in
  let t := new_tracker Node.join "now" "state" "c" in
  unparsable LedgerJson.parse d t
  ∧ load_returns (load LedgerJson.parse d t) = false.
Proof.
  intros d t.
  assert (Hc : unparsable LedgerJson.parse d t).
  { right. eexists _, _. split.
    - apply lookup_singleton_eq.
    - vm_compute. reflexivity. }
  split; [exact Hc|].
  exact (proj1 (proj2 (load_tolerates_unparsable_state
                         LedgerJson.parse Node.join d "now" "state" "c" Hc))).
Defined.

(** *** What [save()] does to the disk *)

Lemma prefix_of_all (c : string) : prefix_of (String.length c) c = c.
Proof.
  unfold prefix_of. induction c as [|a c IH]; [reflexivity|].
  simpl. rewrite IH. reflexivity.
Qed.

(** The disks a crash leaves while one file is written in place. *)
Lemma crash_disks_write_in_place (d : Disk) (dir p c : string) (d' : Disk) :
  d' ∈ crash_disks d [Mkdir dir; WriteFile p c] →
  d' = d ∨ ∃ k, (k ≤ String.length c)%nat ∧ d' = <[p := File (prefix_of k c)]> d.
Proof.
  simpl. rewrite !elem_of_cons, elem_of_app, list_elem_of_fmap, list_elem_of_singleton.
  intros [-> | [-> | [(k & -> & Hk%elem_of_seq) | ->]]]; auto.
  - right. exists k. split; [lia | reflexivity].
  - right. exists (String.length c). rewrite prefix_of_all. split; [lia | reflexivity].
Qed.

(** C2, as the code has it. [save()] stamps [lastUpdated], makes sure the
    directory exists and writes the whole serialized state with one
    [fs.writeFile] on the state file itself: at the end the file holds the
    full text in place of what it held, and no other file has changed.
    There is no temporary file and no rename, and a crash during the call
    leaves the state file as it was or with a prefix of the new text. *)
Theorem save_writes_in_place
    (JSON_stringify : CourseState → string) (path_dirname : string → string)
    (now : string) (t : Tracker) (d : Disk) :
  let t' := (save JSON_stringify path_dirname now t).1 in
  let ops := (save JSON_stringify path_dirname now t).2 in
  let text := JSON_stringify (state t') in
  t' = touch now t
  ∧ ops = [Mkdir (path_dirname (statePath t)); WriteFile (statePath t) text]
  ∧ text_at (run_ops d ops) (statePath t) = Some text
  ∧ (∀ p, p ≠ statePath t → run_ops d ops !! p = d !! p)
  ∧ (∀ d', d' ∈ crash_disks d ops →
       d' !! statePath t = d !! statePath t
       ∨ ∃ k, (k ≤ String.length text)%nat
              ∧ text_at d' (statePath t) = Some (prefix_of k text)).
Proof.
  intros t' ops text. subst t' ops text. unfold save. simpl.
  split; [reflexivity|]. split; [reflexivity|].
  split; [unfold text_at; rewrite lookup_insert_eq; reflexivity|].
  split; [intros p Hp; apply lookup_insert_ne; congruence|].
  intros d' Hin.
  apply (crash_disks_write_in_place d (path_dirname (statePath t)) (statePath t))
    in Hin as [-> | (k & Hk & ->)]; [left; reflexivity|].
  right. exists k. split; [exact Hk|].
  unfold text_at. rewrite lookup_insert_eq. reflexivity.
Qed.

(** A cut write is among the disks a crash leaves. *)
Lemma cut_write_in_crash_disks (d : Disk) (dir p c : string) (k : nat) :
  (k < String.length c)%nat →
  <[p := File (prefix_of k c)]> d ∈ crash_disks d [Mkdir dir; WriteFile p c].
Proof.
  intros Hk. cbn [crash_disks torn app].
  apply list_elem_of_further, list_elem_of_further, elem_of_app. left.
  apply list_elem_of_fmap. exists k. split; [reflexivity|].
  apply elem_of_seq. lia.
Qed.

(** The text [JSON.stringify] writes for a ledger starts with a brace. *)
Lemma stringify_starts_with_brace (s : CourseState) :
  ∃ rest, LedgerJson.stringify s = String "{" rest.
Proof. eexists. reflexivity. Qed.

(** C2, as it is worded, fails: a crash right after [fs.writeFile] has
    truncated the state file leaves neither the old ledger nor the new one
    on disk. *)
Lemma save_is_not_crash_atomic : ¬ save_is_crash_atomic.
Proof.
  intros H.
  pose (t := Worlds.ledger [Worlds.intro; Worlds.basics]).
  pose (d := disk_with (statePath t) (state t)).
  pose (c := LedgerJson.stringify (state (touch "t2" t))).
  destruct (stringify_starts_with_brace (state t)) as [old Hold].
  destruct (stringify_starts_with_brace (state (touch "t2" t))) as [new Hnew].
  specialize (H LedgerJson.stringify Node.dirname "t2" t d
                (<[statePath t := File (prefix_of 0 c)]> d)).
  destruct H as [H | H].
  - apply cut_write_in_crash_disks. subst c. rewrite Hnew. simpl. lia.
  - rewrite lookup_insert_eq in H. unfold d, disk_with in H.
    rewrite lookup_singleton_eq, Hold in H. subst c. rewrite Hnew in H.
    discriminate H.
  - rewrite lookup_insert_eq in H.
    change ((save LedgerJson.stringify Node.dirname "t2" t).2)
      with [Mkdir (Node.dirname (statePath t)); WriteFile (statePath t) c] in H.
    cbn [run_ops foldl apply_op] in H.
    rewrite lookup_insert_eq in H. subst c. rewrite Hnew in H.
    discriminate H.
Qed.

(** The sequence "write to temp + rename" is crash-atomic for its target. *)
Lemma persist_by_rename_is_atomic (d : Disk) (dir tmp path content : string) :
  tmp ≠ path →
  crash_atomic d (spec_persist_ops dir tmp path content) path.
Proof.
  intros Hne d'. unfold spec_persist_ops. simpl.
  rewrite lookup_insert_eq.
  rewrite !elem_of_cons, elem_of_app, list_elem_of_fmap, !elem_of_cons.
  intros [-> | [-> | [(k & -> & _) | [-> | [-> | Hnil]]]]].
  - left; reflexivity.
  - left; reflexivity.
  - left. apply lookup_insert_ne. assumption.
  - left. apply lookup_insert_ne. assumption.
  - right. reflexivity.
  - inversion Hnil.
Qed.

(** [load()] on a state file that holds a ledger. *)
Lemma load_document JSON_parse (d : Disk) (t : Tracker) (data : string)
    (s : CourseState) :
  d !! statePath t = Some (File data) → JSON_parse data = Document s →
  load JSON_parse d t
  = Loaded {| state := s; statePath := statePath t; saveTimeout := saveTimeout t |}.
Proof.
  intros Hd Hp. unfold load, readFile.
  rewrite (fileExists_true _ _ _ Hd), Hd, Hp. reflexivity.
Qed.

(** A ledger with progress is on disk and [save()] is cut, anywhere in
    its write: the cut disk is one a crash can leave, and the next
    [load()] throws on its text, warns and returns [false]. The ledger that
    was on disk before the call, which a [load()] would have found, is
    lost. *)
Lemma cut_save_loses_the_ledger :
  let t := Worlds.ledger [Worlds.intro; Worlds.basics] in
  let before := disk_with (statePath t) (state t) in
  let fresh := new_tracker Node.join "t3" "state" "c" in
  (∃ t1, load LedgerJson.parse before fresh = Loaded t1 ∧ state t1 = state t)
  ∧ ∀ k, (k < String.length (LedgerJson.stringify (state (touch "t2" t))))%nat →
      let cut := disk_cut (statePath t) k (state (touch "t2" t)) in
      cut ∈ crash_disks before (save LedgerJson.stringify Node.dirname "t2" t).2
      ∧ load_returns (load LedgerJson.parse cut fresh) = false.
Proof.
  intros t before fresh. split.
  - eexists. split.
    + apply (load_document _ _ _ (LedgerJson.stringify (state t))).
      * apply lookup_singleton_eq.
      * vm_compute. reflexivity.
    + reflexivity.
  - intros k Hk cut. split.
    + unfold cut, disk_cut, before, disk_with.
      rewrite <- (insert_singleton_eq (statePath t)
                   (File (prefix_of k (LedgerJson.stringify (state (touch "t2" t)))))
                   (File (LedgerJson.stringify (state t)))).
      apply cut_write_in_crash_disks. exact Hk.
    + assert (Hall : forallb (λ k, Worlds.rejected
                        (prefix_of k (LedgerJson.stringify (state (touch "t2" t)))))
                       (seq 0 (String.length
                                 (LedgerJson.stringify (state (touch "t2" t))))) = true)
        by (vm_compute; reflexivity).
      rewrite forallb_forall in Hall.
      assert (Hrej : Worlds.rejected
                (prefix_of k (LedgerJson.stringify (state (touch "t2" t)))) = true)
        by (apply Hall, List.in_seq; lia).
      unfold Worlds.rejected in Hrej.
      destruct (LedgerJson.parse (prefix_of k (LedgerJson.stringify
                                                  (state (touch "t2" t)))))
        as [msg| |] eqn:Hp; try discriminate Hrej.
      destruct (load_unparsable LedgerJson.parse cut fresh) as [warning ->];
        [|reflexivity].
      right. eexists _, msg. split; [apply lookup_singleton_eq | exact Hp].
Qed.

(** [load()] on a state file that is JSON and not a ledger: nothing
    throws, the value is taken as the state and [load()] returns
    [true]. *)
Lemma load_accepts_other_json JSON_parse (d : Disk) (t : Tracker) (data : string) :
  d !! statePath t = Some (File data) → JSON_parse data = ForeignValue →
  load JSON_parse d t = LoadedForeign ∧ ¬ unparsable JSON_parse d t.
Proof.
  intros Hd Hp. split.
  - unfold load, readFile. rewrite (fileExists_true _ _ _ Hd), Hd, Hp. reflexivity.
  - intros [(e & He) | (data' & msg & Hd' & Hp')]; [congruence|].
    assert (data' = data) as -> by congruence. congruence.
Qed.

Example null_is_other_json : LedgerJson.parse "null" = ForeignValue.
Proof. vm_compute. reflexivity. Qed.

(** A state file whose text is JSON and not a ledger is damaged, and
    [load()] returns [true] on it. *)
Lemma foreign_text_is_loaded (t : Tracker) (text : string) :
  LedgerJson.parse text = ForeignValue →
  let d : Disk := {[ statePath t := File text ]} in
  damaged LedgerJson.parse d t
  ∧ load LedgerJson.parse d t = LoadedForeign
  ∧ load_returns (load LedgerJson.parse d t) = true.
Proof.
  intros Hforeign d.
  assert (Hd : d !! statePath t = Some (File text)) by apply lookup_singleton_eq.
  destruct (load_accepts_other_json LedgerJson.parse d t text Hd Hforeign) as [Hl _].
  split; [right; exists text; split; assumption|].
  split; [exact Hl|rewrite Hl; reflexivity].
Qed.

(** C3 on state files that are damaged and still JSON: the text [null],
    the text of an empty object, and a ledger that has lost its [lessons].
    Nothing throws inside [load()], so the value is assigned to
    [this.state] and [load()] returns [true]; the first [addLesson] then
    throws a [TypeError] at [this.state.lessons.find], whatever the
    lesson. *)
Theorem damaged_state_is_loaded :
  let t := new_tracker Node.join "now" "state" "c" in
  Forall (λ text,
            let d : Disk := {[ statePath t := File text ]} in
            damaged LedgerJson.parse d t
            ∧ load LedgerJson.parse d t = LoadedForeign
            ∧ load_returns (load LedgerJson.parse d t) = true
            ∧ ∃ v, Json.parse text = Some v
                   ∧ ∀ i, RawLedger.addLesson_throws v i = true)
    ["null"; "{}"; Worlds.without_lessons].
Proof.
  intros t.
  assert (Hstep : ∀ text v,
            LedgerJson.parse text = ForeignValue → Json.parse text = Some v →
            (∀ i, RawLedger.addLesson_throws v i = true) →
            let d : Disk := {[ statePath t := File text ]} in
            damaged LedgerJson.parse d t
            ∧ load LedgerJson.parse d t = LoadedForeign
            ∧ load_returns (load LedgerJson.parse d t) = true
            ∧ ∃ v, Json.parse text = Some v
                   ∧ ∀ i, RawLedger.addLesson_throws v i = true).
  { intros text v Hforeign Hv Hthrows d.
    destruct (foreign_text_is_loaded t text Hforeign) as (H1 & H2 & H3).
    repeat split; try assumption. exists v. split; assumption. }
  apply Forall_cons; split; [|apply Forall_cons; split;
                               [|apply Forall_cons; split; [|constructor]]].
  - apply (Hstep "null" Json.Null).
    + vm_compute. reflexivity.
    + vm_compute. reflexivity.
    + intros i. reflexivity.
  - apply (Hstep "{}" (Json.Object [])).
    + vm_compute. reflexivity.
    + vm_compute. reflexivity.
    + intros i. reflexivity.
  - apply (Hstep Worlds.without_lessons
             (Json.Object [ ("url", Json.Str "https://www.skool.com/c");
                            ("courseName", Json.Str "c");
                            ("startedAt", Json.Str "t0");
                            ("lastUpdated", Json.Str "t1") ])).
    + vm_compute. reflexivity.
    + vm_compute. reflexivity.
    + intros i. reflexivity.
Qed.

(** Not every damaged state file makes [load()] return [false]. *)
Lemma damage_is_not_tolerated : ¬ damage_is_tolerated.
Proof.
  intros H.
  pose (t := new_tracker Node.join "now" "state" "c").
  pose (d := ({[ statePath t := File "null" ]} : Disk)).
  assert (Hd : d !! statePath t = Some (File "null")) by apply lookup_singleton_eq.
  destruct (load_accepts_other_json LedgerJson.parse d t "null" Hd null_is_other_json)
    as [Hl _].
  specialize (H LedgerJson.parse d t).
  rewrite Hl in H. cbn [load_returns] in H.
  assert (Hdam : damaged LedgerJson.parse d t).
  { right. exists "null". split; [exact Hd|exact null_is_other_json]. }
  specialize (H Hdam). discriminate H.
Qed.

(** The crash-and-resume scenario: five lessons seeded, two completed,
    one failed at its first attempt; the ledger is saved and loaded by a
    new tracker, which is then asked for the pending lessons: the failed
    one and the two that were never started, in ledger order. *)
Example resume_after_interrupted_run :
  let '(t, ops) := save LedgerJson.stringify Node.dirname "t9" Worlds.interrupted_run in
  let disk := run_ops ∅ ops in
  ∃ t', load LedgerJson.parse disk (new_tracker Node.join "t10" "state" "c") = Loaded t'
        ∧ state t' = state t
        ∧ id <$> getPendingLessons t' = ["L3"; "L4"; "L5"]
        ∧ getStats t' = {| st_total := 5; st_completed := 2; st_failed := 1;
                           st_pending := 2; st_skipped := 0 |}.
Proof.
  cbn [save run_ops foldl apply_op].
  eexists. split.
  - apply (load_document _ _ _ (LedgerJson.stringify (state (touch "t9" Worlds.interrupted_run)))).
    + apply lookup_insert_eq.
    + vm_compute. reflexivity.
  - split; [reflexivity|]. split; vm_compute; reflexivity.
Qed.

End PersistenceFacts.

(** * Properties of the resource downloader *)

Module FetchFacts.
Import Js ResourceDownloader Fetch.

(** A response whose redirect would be followed passes none of the error
    checks that come after the redirect branch. *)
Lemma redirect_passes_checks (r : Response) :
  is_Some (redirect_target r) →
  is_auth r = false ∧ is_not_found r = false ∧ is_http_error r = false.
Proof.
  unfold redirect_target, is_redirect, is_auth, is_not_found, is_http_error.
  destruct (statusCode r) as [c|]; simpl; [|intros [x Hx]; discriminate].
  destruct (bool_decide (c ≠ 0) && bool_decide (300 ≤ c) && bool_decide (c < 400))
    eqn:Hc; simpl; [|intros [x Hx]; discriminate].
  intros _.
  apply andb_prop in Hc as [Hc H400]. apply andb_prop in Hc as [_ H300].
  apply bool_decide_eq_true_1 in H300, H400.
  split; [|split].
  - apply bool_decide_eq_false_2. intros [H|H]; injection H; lia.
  - apply bool_decide_eq_false_2. intros H; injection H; lia.
  - apply andb_false_iff. right. apply bool_decide_eq_false_2. lia.
Qed.

(** A 401 or a 403 is not a redirect. *)
Lemma auth_is_no_redirect (r : Response) :
  statusCode r = Some 401 ∨ statusCode r = Some 403 →
  redirect_target r = None ∧ is_auth r = true.
Proof.
  intros H. split.
  - unfold redirect_target, is_redirect.
    destruct H as [-> | ->]; reflexivity.
  - unfold is_auth. apply bool_decide_eq_true_2. assumption.
Qed.

(** The status checks on a 401 or a 403. *)
Lemma settle_auth (w : Env) (u out : string) (r : Response) :
  is_auth r = true →
  settle w u out r = ([], Resolved (failure (Some true) "Authentication required")).
Proof. intros H. unfold settle. rewrite H. reflexivity. Qed.

(** The response callback never rejects: it resolves, or an exception
    stays inside it. *)
Lemma relay_settle (w : Env) (u out : string) (r : Response) :
  relay (settle w u out r).2 = (settle w u out r).2.
Proof.
  unfold settle.
  repeat match goal with
         | |- context [if ?b then _ else _] => destruct b
         | |- context [match ?x with _ => _ end] => destruct x
         end; reflexivity.
Qed.

(** [downloadFile] ends the way [settle] ends on the final response. *)
Lemma downloadFile_from_final (w : Env) (out : string) (fr : nat) :
  ∀ sent u r, final_response w sent u fr = Some r →
    ∃ u', (downloadFile_from w sent u out fr).2 = (settle w u' out r).2.
Proof.
  induction fr as [|n IH]; intros sent u r; simpl;
    destruct (URL_parse w u) as [urlObj|]; try discriminate;
    destruct (http_get w sent _ _ _) as [r0| |]; try discriminate.
  - intros Hr.
    assert (r0 = r) as -> by (destruct (redirect_target r0); congruence).
    exists u.
    destruct (redirect_target r); destruct (settle w u out r) as [effs p];
      reflexivity.
  - destruct (redirect_target r0) as [redirectUrl|].
    + destruct (URL_resolve w redirectUrl u) as [absoluteUrl|]; [|discriminate].
      intros Hr. destruct (IH _ _ _ Hr) as [u' Hu'].
      exists u'.
      destruct (downloadFile_from w (S sent) absoluteUrl out n) as [effs p].
      simpl in *. rewrite Hu'. apply relay_settle.
    + intros Hr. assert (r0 = r) as -> by congruence.
      exists u. destruct (settle w u out r) as [effs p]; reflexivity.
Qed.

(** The executor's answer to a final 401 or 403. *)
Lemma downloadFile_from_auth (w : Env) (out : string) (fr sent : nat) (u : string)
    (r : Response) :
  final_response w sent u fr = Some r →
  statusCode r = Some 401 ∨ statusCode r = Some 403 →
  (downloadFile_from w sent u out fr).2
  = Resolved (failure (Some true) "Authentication required").
Proof.
  intros Hr Hs. destruct (downloadFile_from_final w out fr sent u r Hr) as [u' ->].
  rewrite settle_auth by (apply auth_is_no_redirect, Hs). reflexivity.
Qed.

(** C6, as the code has it. When the response the download ends on has
    status 401 or 403, [downloadFile] resolves with [success: false],
    [requiresAuth: true] and the error [Authentication required], set apart
    from the other failures by [requiresAuth]; [downloadResource] then
    returns a result that is skipped, not failed ([skipped: true], no
    [error]), and its [skipReason] is [Requires authentication]. *)
Theorem auth_required_is_skipped
    (w : Env) (link : ExtractedLink) (outputDir : string) (index : Z) (r : Response) :
  l_type link ≠ notion →
  final_response w 0 (direct_url w link) 5 = Some r →
  statusCode r = Some 401 ∨ statusCode r = Some 403 →
  (downloadFile w (direct_url w link) (basePath w link outputDir index)).2
  = Resolved {| f_success := false; f_finalPath := None;
                f_error := Some "Authentication required";
                f_requiresAuth := Some true |}
  ∧ (downloadResource w link outputDir index).2
    = Resolved {| url := l_url link; success := false; outputPath := None;
                  error := None; skipped := Some true;
                  skipReason := Some "Requires authentication" |}.
Proof.
  intros Hn Hr Hs.
  pose proof (downloadFile_from_auth w (basePath w link outputDir index)
                5 0 _ r Hr Hs) as H.
  split; [exact H|].
  unfold downloadResource. rewrite decide_False by assumption.
  unfold downloadFile in *.
  destruct (downloadFile_from w 0 (direct_url w link)
              (basePath w link outputDir index) 5) as [effs p].
  simpl in *. rewrite H. reflexivity.
Qed.

Lemma auth_required_is_skipped_witness :
  let w := Worlds.around Worlds.forbidden_server in
  let r := mkResponse (Some 403) None None (Some "text/html") in
  final_response w 0 (direct_url w Worlds.attachment) 5 = Some r
  ∧ (downloadResource w Worlds.attachment "out" 0).2
    = Resolved (skipped_result "http://files.example/loop"
                  "Requires authentication").
Proof.
  intros w r.
  assert (Hr : final_response w 0 (direct_url w Worlds.attachment) 5 = Some r)
    by (vm_compute; reflexivity).
  assert (Hn : l_type Worlds.attachment ≠ notion) by discriminate.
  split; [exact Hr|].
  exact (proj2 (auth_required_is_skipped w Worlds.attachment "out" 0 r Hn Hr
                  (or_intror eq_refl))).
Defined.

(** C6, as it is worded, fails on the reason: the caller does not pass on
    the executor's text. *)
Lemma auth_skip_reason_differs : ¬ auth_is_skipped_with "Authentication required".
Proof.
  intros H.
  pose (w := Worlds.around Worlds.forbidden_server).
  pose (r := mkResponse (Some 403) None None (Some "text/html")).
  assert (Hr : final_response w 0 (direct_url w Worlds.attachment) 5 = Some r)
    by (vm_compute; reflexivity).
  assert (Hn : l_type Worlds.attachment ≠ notion) by discriminate.
  destruct (H w Worlds.attachment "out" 0 r Hn Hr (or_intror eq_refl))
    as (res & Hres & _ & _ & Hreason).
  assert (Hrun : (downloadResource w Worlds.attachment "out" 0).2
                 = Resolved (skipped_result "http://files.example/loop"
                               "Requires authentication"))
    by (vm_compute; reflexivity).
  rewrite Hrun in Hres. injection Hres as <-. discriminate Hreason.
Qed.

(** *** Redirects *)

Lemma gets_cons_get (https : bool) (host path : string) (effs : list Effect) :
  gets (Get https host path :: effs) = Get https host path :: gets effs.
Proof. unfold gets. apply filter_cons_True. reflexivity. Qed.

(** The response callback makes no request of its own. *)
Lemma gets_settle (w : Env) (u out : string) (r : Response) :
  gets (settle w u out r).1 = [].
Proof.
  unfold settle.
  repeat match goal with
         | |- context [if ?b then _ else _] => destruct b
         | |- context [match ?x with _ => _ end] => destruct x
         end; reflexivity.
Qed.

(** [downloadFile] makes at most one request more than it may follow
    redirects: six with the default of five. *)
Lemma requests_bounded (w : Env) (out : string) (fr : nat) :
  ∀ sent u, (length (gets (downloadFile_from w sent u out fr).1) ≤ S fr)%nat.
Proof.
  assert (Hlast : ∀ https host path u r,
            (length (gets (let '(effs, p) := settle w u out r in
                           (Get https host path :: effs, p)).1) ≤ 1)%nat).
  { intros https host path u r. pose proof (gets_settle w u out r) as Hs.
    destruct (settle w u out r) as [effs p]. cbn [fst] in *.
    rewrite gets_cons_get, Hs. simpl. lia. }
  induction fr as [|n IH]; intros sent u; cbn [downloadFile_from];
    destruct (URL_parse w u) as [urlObj|]; [|simpl; lia| |simpl; lia];
    destruct (http_get w sent _ _ _) as [r| |];
    try (cbn [fst]; rewrite gets_cons_get; simpl; lia).
  - destruct (redirect_target r).
    + etransitivity; [apply Hlast | lia].
    + etransitivity; [apply Hlast | lia].
  - destruct (redirect_target r) as [redirectUrl|].
    + destruct (URL_resolve w redirectUrl u) as [absoluteUrl|].
      * specialize (IH (S sent) absoluteUrl).
        destruct (downloadFile_from w (S sent) absoluteUrl out n) as [effs p].
        cbn [fst] in *. rewrite gets_cons_get. simpl. lia.
      * cbn [fst]. rewrite gets_cons_get. simpl. lia.
    + etransitivity; [apply Hlast | lia].
Qed.

(** When no redirect may be followed any more, a redirect response goes
    through the status checks, passes them, and its body is saved as the
    file. *)
Lemma spent_redirect_is_saved (w : Env) (sent : nat) (u out : string)
    (urlObj : URL) (r : Response) :
  URL_parse w u = Some urlObj →
  http_get w sent (bool_decide (protocol urlObj = "https:")) (hostname urlObj)
    (pathname urlObj +:+ search urlObj) = NetResponse r →
  is_Some (redirect_target r) →
  ensureDir w (path_dirname w (choose_finalPath w u out r)) = None →
  fs_open w (choose_finalPath w u out r) = None →
  pipe w (choose_finalPath w u out r) = Finish →
  fs_close w (choose_finalPath w u out r) = None →
  (downloadFile_from w sent u out 0).2
  = Resolved {| f_success := true;
                f_finalPath := Some (choose_finalPath w u out r);
                f_error := None; f_requiresAuth := None |}.
Proof.
  intros Hu Hget Hred Hdir Hopen Hpipe Hclose.
  destruct (redirect_passes_checks r Hred) as (Ha & Hn & He).
  cbn [downloadFile_from]. rewrite Hu, Hget.
  assert (Hs : (settle w u out r).2
               = Resolved {| f_success := true;
                             f_finalPath := Some (choose_finalPath w u out r);
                             f_error := None; f_requiresAuth := None |}).
  { unfold settle. rewrite Ha, Hn, He. cbv zeta.
    rewrite Hdir, Hopen, Hpipe, Hclose. reflexivity. }
  destruct (redirect_target r); destruct (settle w u out r); exact Hs.
Qed.

(** Whenever the download ends on a response that is still a redirect,
    which is the case once the five redirects allowed have been followed,
    and the disk takes the file, [downloadFile] resolves with
    [success: true]. *)
Lemma excess_redirect_is_saved (w : Env) (u out : string) (r : Response) :
  final_response w 0 u 5 = Some r →
  is_Some (redirect_target r) →
  (∀ p, ensureDir w p = None) → (∀ p, fs_open w p = None) →
  (∀ p, pipe w p = Finish) → (∀ p, fs_close w p = None) →
  ∃ path, (downloadFile w u out).2
          = Resolved {| f_success := true; f_finalPath := Some path;
                        f_error := None; f_requiresAuth := None |}.
Proof.
  intros Hr Hred Hdir Hopen Hpipe Hclose.
  destruct (downloadFile_from_final w out 5 0 u r Hr) as [u' Hu'].
  destruct (redirect_passes_checks r Hred) as (Ha & Hn & He).
  exists (choose_finalPath w u' out r). unfold downloadFile. rewrite Hu'.
  unfold settle. rewrite Ha, Hn, He. cbv zeta.
  rewrite Hdir, Hopen, Hpipe, Hclose. reflexivity.
Qed.

(** An exception of [ensureDir] is thrown inside the response callback:
    no call of [resolve] is reached. *)
Lemma callback_exception_is_unhandled (w : Env) (u out : string) (r : Response)
    (e : string) :
  is_auth r = false → is_not_found r = false → is_http_error r = false →
  ensureDir w (path_dirname w (choose_finalPath w u out r)) = Some e →
  (settle w u out r).2 = Unhandled e.
Proof.
  intros Ha Hn He Hdir. unfold settle. rewrite Ha, Hn, He. cbv zeta.
  rewrite Hdir. reflexivity.
Qed.

(** C5 on a server that redirects for ever: [downloadFile] follows five
    redirects, and takes the sixth response, again a redirect, for the
    file: it saves its body and resolves with [success: true]. *)
Theorem redirect_loop_reports_success :
  downloadFile (Worlds.around Worlds.loop_server)
    "http://files.example/loop" "out/resources/Workbook"
  = (replicate 6 (Get false "files.example" "/loop")
     ++ [ EnsureDir "out/resources";
          Open "out/resources/Workbook.html";
          Pipe "out/resources/Workbook.html";
          Close "out/resources/Workbook.html" ],
     Resolved {| f_success := true;
                 f_finalPath := Some "out/resources/Workbook.html";
                 f_error := None; f_requiresAuth := None |}).
Proof. vm_compute. reflexivity. Qed.

(** The loop server redirects for ever. *)
Lemma loop_server_always_redirects : always_redirects (Worlds.around Worlds.loop_server).
Proof.
  intros n https host path. eexists. split; [reflexivity|].
  eexists. reflexivity.
Qed.

(** Redirects beyond the bound are reported as a success. *)
Lemma excess_redirects_do_not_fail : ¬ excess_redirects_fail.
Proof.
  intros H.
  assert (Hrun : (downloadFile (Worlds.around Worlds.loop_server)
                    "http://files.example/loop" "out/resources/Workbook").2
                 = Resolved {| f_success := true;
                               f_finalPath := Some "out/resources/Workbook.html";
                               f_error := None; f_requiresAuth := None |})
    by (vm_compute; reflexivity).
  specialize (H _ _ _ _ loop_server_always_redirects Hrun). discriminate H.
Qed.

(** *** What leaves [downloadFile] as a rejection *)

(** An address [new URL] refuses rejects the promise before any request. *)
Lemma unparsable_url_rejects (w : Env) (sent : nat) (u out : string) (fr : nat) :
  URL_parse w u = None →
  downloadFile_from w sent u out fr = ([], Rejected ("Invalid URL: " +:+ u)).
Proof. intros H. destruct fr; simpl; rewrite H; reflexivity. Qed.

(** C7 on a link whose address is relative: [new URL(url)] throws inside
    the promise executor, so [downloadFile] is rejected instead of
    resolving with [success: false], and the rejection goes through
    [downloadResource] to its caller. *)
Theorem relative_address_rejects :
  downloadFile (Worlds.around Worlds.loop_server)
    "/files/slides.pdf" "out/resources/Slides"
  = ([], Rejected "Invalid URL: /files/slides.pdf")
  ∧ downloadResource (Worlds.around Worlds.loop_server) Worlds.relative_link "out" 0
    = ([], Rejected "Invalid URL: /files/slides.pdf").
Proof. split; vm_compute; reflexivity. Qed.

Lemma downloadFile_can_reject : ¬ downloadFile_never_rejects.
Proof.
  intros H.
  destruct (H (Worlds.around Worlds.loop_server) "/files/slides.pdf"
              "out/resources/Slides") as [res Hres].
  unfold downloadFile in Hres.
  rewrite unparsable_url_rejects in Hres by reflexivity. discriminate Hres.
Qed.

End FetchFacts.

(** * Properties of the media executor *)

Module YtDlpFacts.
Import Js YtDlp.

(** [downloadVideo] always resolves: with [success: true] when the child
    exits normally, otherwise with [success: false] and the error text of
    the [catch] block. *)
Lemma downloadVideo_always_resolves (w : Env) (options : DownloadOptions) :
  ∃ result, downloadVideo w options = Resolved result
    ∧ (success result = true ↔ execa w "yt-dlp" (buildArgs options) = Exited)
    ∧ (success result = false → is_Some (error result)).
Proof.
  unfold downloadVideo.
  destruct (execa w "yt-dlp" (buildArgs options)) as [|message stderr];
    eexists; (split; [reflexivity|]); simpl.
  - split; [tauto | discriminate].
  - split; [split; discriminate | eauto].
Qed.

End YtDlpFacts.

(** * Properties of the download queue *)

Module QueueFacts.
Import Js ProgressTracker Ledger DownloadQueue Scheduling.

(** The terminal branch makes one call, the one the result asks for. *)
Lemma finish_call (q : Queue) (d : QueuedDownload) (result : YtDlp.DownloadResult) :
  (finish q d result).2 = [terminal_of d result]
  ∧ tracker (finish q d result).1
    = if YtDlp.success result
      then markCompleted (tracker q) (id (lesson d))
             (or_else (YtDlp.outputFile result) (outputPath d))
      else markFailed (tracker q) (id (lesson d))
             (or_else (YtDlp.error result) "Unknown error").
Proof.
  unfold finish, terminal_of. destruct (YtDlp.success result); split; reflexivity.
Qed.

(** The calls of a full run, without the creation of the directory. *)
Lemma steps_of_full_run (w : Env) (d : QueuedDownload) (result : YtDlp.DownloadResult) :
  steps [ MarkStarted (id (lesson d)); EnsureDir (path_dirname w (outputPath d));
          Executor (options_of d); terminal_of d result ]
  = [ MarkStarted (id (lesson d)); Executor (options_of d); terminal_of d result ].
Proof. unfold terminal_of. destruct (YtDlp.success result); reflexivity. Qed.

Lemma terminal_of_is_terminal (d : QueuedDownload) (result : YtDlp.DownloadResult) :
  terminal_for (id (lesson d)) (terminal_of d result).
Proof. unfold terminal_of. destruct (YtDlp.success result); reflexivity. Qed.

(** The two ways [processDownload] runs: the directory cannot be made and
    the promise is rejected after [markStarted]; or the executor is called
    and its result decides the terminal call. *)
Lemma processDownload_cases (w : Env) (q : Queue) (d : QueuedDownload) :
  let i := id (lesson d) in
  let dir := path_dirname w (outputPath d) in
  let t1 := markStarted (tracker q) i in
  (∃ e, ensureDir w dir = Some e
        ∧ processDownload w q d
          = (with_tracker q t1, [MarkStarted i; EnsureDir dir], Rejected e))
  ∨ (ensureDir w dir = None
     ∧ ∃ result q',
         YtDlp.downloadVideo (yt w) (options_of d) = Resolved result
         ∧ processDownload w q d
           = (q', [MarkStarted i; EnsureDir dir; Executor (options_of d);
                   terminal_of d result], Resolved tt)
         ∧ tracker q'
           = if YtDlp.success result
             then markCompleted t1 i (or_else (YtDlp.outputFile result) (outputPath d))
             else markFailed t1 i (or_else (YtDlp.error result) "Unknown error")).
Proof.
  intros i dir t1. unfold processDownload. fold i dir t1.
  destruct (ensureDir w dir) as [e|]; [left; eauto|].
  right. split; [reflexivity|].
  destruct (YtDlpFacts.downloadVideo_always_resolves (yt w) (options_of d))
    as (result & Hres & _).
  rewrite Hres.
  pose proof (finish_call (with_tracker q t1) d result) as [Hev Htr].
  destruct (finish (with_tracker q t1) d result) as [q2 evs]. simpl in Hev, Htr.
  exists result, q2. subst evs. split; [reflexivity|]. split; [reflexivity|].
  exact Htr.
Qed.

(** When the output directory can be made, [processDownload] calls
    [markStarted], then the executor, then exactly one terminal call for
    the same lesson, [markCompleted] when the result says [success] and
    [markFailed] otherwise, and its promise resolves. *)
Theorem processDownload_strict_sequence (w : Env) (q : Queue) (d : QueuedDownload) :
  ensureDir w (path_dirname w (outputPath d)) = None →
  strict_sequence d (processDownload w q d).1.2
  ∧ (processDownload w q d).2 = Resolved tt
  ∧ ∃ result,
      YtDlp.downloadVideo (yt w) (options_of d) = Resolved result
      ∧ (processDownload w q d).1.2
        = [ MarkStarted (id (lesson d));
            EnsureDir (path_dirname w (outputPath d));
            Executor (options_of d);
            if YtDlp.success result
            then MarkCompleted (id (lesson d))
                   (or_else (YtDlp.outputFile result) (outputPath d))
            else MarkFailed (id (lesson d))
                   (or_else (YtDlp.error result) "Unknown error") ]
      ∧ tracker (processDownload w q d).1.1
        = if YtDlp.success result
          then markCompleted (markStarted (tracker q) (id (lesson d))) (id (lesson d))
                 (or_else (YtDlp.outputFile result) (outputPath d))
          else markFailed (markStarted (tracker q) (id (lesson d))) (id (lesson d))
                 (or_else (YtDlp.error result) "Unknown error").
Proof.
  intros Hdir.
  destruct (processDownload_cases w q d)
    as [(e & He & _) | (_ & result & q' & Hres & Hrun & Htr)]; [congruence|].
  rewrite Hrun. simpl. split; [|split; [reflexivity|]].
  - exists (terminal_of d result). split; [apply steps_of_full_run|].
    apply terminal_of_is_terminal.
  - exists result. split; [exact Hres|]. split; [|exact Htr].
    unfold terminal_of. destruct (YtDlp.success result); reflexivity.
Qed.

Lemma processDownload_strict_sequence_witness :
  let w := Worlds.queue_world YtDlp.Exited None in
  ensureDir w (path_dirname w (outputPath Worlds.intro_download)) = None
  ∧ strict_sequence Worlds.intro_download
      (processDownload w Worlds.intro_queue Worlds.intro_download).1.2.
Proof.
  intros w. split; [reflexivity|].
  exact (proj1 (processDownload_strict_sequence w Worlds.intro_queue
                  Worlds.intro_download eq_refl)).
Defined.

(** Not every item goes through the strict sequence: when the directory
    cannot be made the worker stops after [markStarted], without executor
    and without terminal call. *)
Lemma some_item_not_strict : ¬ every_item_strict.
Proof.
  intros H.
  specialize (H (Worlds.queue_world YtDlp.Exited (Some "EACCES"))
                Worlds.intro_queue Worlds.intro_download).
  destruct H as (terminal & Hevs & _).
  destruct (processDownload_cases (Worlds.queue_world YtDlp.Exited (Some "EACCES"))
              Worlds.intro_queue Worlds.intro_download)
    as [(e & _ & Hrun) | (Hnone & _)]; [|discriminate Hnone].
  rewrite Hrun in Hevs. discriminate Hevs.
Qed.

(** C9 on an item whose output directory cannot be made: [fs.mkdir]
    throws at [await ensureDir(...)], after [markStarted] and outside any
    [try]. The executor is not called and no terminal call is made; the
    promise of [processDownload] is rejected; neither counter moves; the
    lesson stays [downloading] with the attempt counted, and
    [getPendingLessons] no longer returns it. On the same item, when it is
    the executor that fails, [markFailed] is called and the lesson stays
    among the pending ones. *)
Theorem mkdir_failure_strands_lesson :
  let stuck :=
    processDownload
      (Worlds.queue_world YtDlp.Exited (Some "EACCES: permission denied, mkdir"))
      Worlds.intro_queue Worlds.intro_download in
  let sibling :=
    processDownload
      (Worlds.queue_world (YtDlp.Failed "Command failed with exit code 1" None) None)
      Worlds.intro_queue Worlds.intro_download in
  stuck.1.2 = [MarkStarted "L1"; EnsureDir "out/c/01_Basics"]
  ∧ stuck.2 = Rejected "EACCES: permission denied, mkdir"
  ∧ (completed stuck.1.1, failed stuck.1.1, total stuck.1.1) = (0, 0, 1)
  ∧ (λ l, (status l, attempts l, error l)) <$> getLesson (tracker stuck.1.1) "L1"
    = Some (downloading, 1, None)
  ∧ id <$> getPendingLessons (tracker Worlds.intro_queue) = ["L1"; "L2"]
  ∧ id <$> getPendingLessons (tracker stuck.1.1) = ["L2"]
  ∧ steps sibling.1.2
    = [ MarkStarted "L1"; Executor (options_of Worlds.intro_download);
        MarkFailed "L1" "Command failed with exit code 1" ]
  ∧ sibling.2 = Resolved tt
  ∧ (completed sibling.1.1, failed sibling.1.1, total sibling.1.1) = (0, 1, 1)
  ∧ id <$> getPendingLessons (tracker sibling.1.1) = ["L1"; "L2"].
Proof. vm_compute. repeat split; reflexivity. Qed.

(** *** Workers side by side *)

(** A step adds the calls it makes to the history of the worker. *)
Lemma step_history (w : Env) (q : Queue) (k : Worker) :
  item (step w q k).1.2 = item k
  ∧ history w (step w q k).1.2 = history w k ++ (step w q k).2.
Proof.
  unfold step, history. destruct k as [d st]. simpl.
  destruct st as [| | |p]; simpl.
  - split; reflexivity.
  - destruct (ensureDir w (path_dirname w (outputPath d))); simpl; split; reflexivity.
  - destruct (YtDlpFacts.downloadVideo_always_resolves (yt w) (options_of d))
      as (result & Hres & _).
    rewrite Hres.
    pose proof (finish_call q d result) as [Hev _].
    destruct (finish q d result) as [q2 evs]. simpl in *. subst evs.
    rewrite Hres. split; reflexivity.
  - split; [reflexivity | rewrite app_nil_r; reflexivity].
Qed.

Lemma calls_of_app (n : nat) (a b : list (nat * Event)) :
  calls_of n (a ++ b) = calls_of n a ++ calls_of n b.
Proof. unfold calls_of. rewrite filter_app, fmap_app. reflexivity. Qed.

Lemma calls_of_own (n : nat) (evs : list Event) :
  calls_of n ((λ e, (n, e)) <$> evs) = evs.
Proof.
  unfold calls_of. induction evs as [|e evs IH]; [reflexivity|].
  rewrite fmap_cons, filter_cons_True, fmap_cons, IH by reflexivity. reflexivity.
Qed.

Lemma calls_of_other (n m : nat) (evs : list Event) :
  m ≠ n → calls_of n ((λ e, (m, e)) <$> evs) = [].
Proof.
  intros Hne. unfold calls_of. induction evs as [|e evs IH]; [reflexivity|].
  rewrite fmap_cons, filter_cons_False by (simpl; congruence). exact IH.
Qed.

(** Whatever the schedule, the calls of each worker in the trace are what
    its own code adds to its history: the workers do not disturb each
    other's order. *)
Lemma run_history (w : Env) (schedule : list nat) :
  ∀ (q : Queue) (ws : list Worker) (n : nat) (k : Worker),
    ws !! n = Some k →
    ∃ k', (run w schedule q ws).1.2 !! n = Some k'
          ∧ item k' = item k
          ∧ history w k' = history w k ++ calls_of n (run w schedule q ws).2.
Proof.
  induction schedule as [|m rest IH]; intros q ws n k Hk; cbn [run].
  - exists k. cbn [fst snd]. unfold calls_of. simpl. rewrite app_nil_r. auto.
  - destruct (ws !! m) as [km|] eqn:Hm; [|apply IH; assumption].
    pose proof (step_history w q km) as [Hitem Hhist].
    destruct (step w q km) as [[q1 k1] evs]. cbn [fst snd] in Hitem, Hhist.
    destruct (decide (m = n)) as [->|Hne].
    + assert (km = k) as -> by congruence.
      destruct (IH q1 (<[n := k1]> ws) n k1) as (k' & Hk' & Hi & Hh).
      { apply list_lookup_insert_eq. eapply lookup_lt_Some; eassumption. }
      destruct (run w rest q1 (<[n := k1]> ws)) as [[q2 ws2] trace].
      cbn [fst snd] in *. exists k'. split; [assumption|]. split; [congruence|].
      rewrite calls_of_app, calls_of_own, Hh, Hhist, app_assoc. reflexivity.
    + destruct (IH q1 (<[m := k1]> ws) n k) as (k' & Hk' & Hi & Hh).
      { rewrite list_lookup_insert_ne by assumption. assumption. }
      destruct (run w rest q1 (<[m := k1]> ws)) as [[q2 ws2] trace].
      cbn [fst snd] in *. exists k'. split; [assumption|]. split; [assumption|].
      rewrite calls_of_app, calls_of_other by assumption. exact Hh.
Qed.

(** A worker that started from the queue and whose promise has resolved
    has made exactly the calls of the strict sequence, in that order,
    whatever the other workers did in between. *)
Lemma interleaved_worker_strict (w : Env) (schedule : list nat) (q : Queue)
    (ws : list Worker) (n : nat) (k k' : Worker) (u : unit) :
  ws !! n = Some k → stage k = Queued →
  (run w schedule q ws).1.2 !! n = Some k' →
  stage k' = Settled (Resolved u) →
  strict_sequence (item k) (calls_of n (run w schedule q ws).2).
Proof.
  intros Hk Hq Hk' Hs.
  destruct (run_history w schedule q ws n k Hk) as (k'' & Hk'' & Hitem & Hhist).
  assert (k'' = k') as -> by congruence.
  unfold history in Hhist at 2. rewrite Hq in Hhist. simpl in Hhist.
  rewrite <- Hhist. unfold history. rewrite Hs, Hitem.
  destruct (YtDlpFacts.downloadVideo_always_resolves (yt w) (options_of (item k)))
    as (result & Hres & _).
  rewrite Hres. exists (terminal_of (item k) result).
  split; [apply steps_of_full_run | apply terminal_of_is_terminal].
Qed.

(** *** The attempts counter through a download *)

(** C8, as the code has it. Under every operation of the ledger that does
    not write the key [attempts] from its argument (all of them, except an
    [updateLesson] whose partial record has that key) each record stays in
    place and its counter never goes down: it goes up by exactly one when
    the operation is the [markStarted] that finds the record, and stays the
    same otherwise, so [markFailed] keeps it. A worker calls [markStarted]
    once, first, before the executor, which it calls at most once: the
    counter of the record of its lesson is one more after
    [processDownload], and every other counter is the same. *)
Theorem attempts_only_grow (op : Op) (t : Tracker) (k : nat) (l : LessonState) :
  leaves_attempts_to_ledger op →
  record_at t k = Some l →
  (∃ l', record_at (perform op t) k = Some l'
         ∧ attempts l' = attempts l + (if starts op t k then 1 else 0)
         ∧ attempts l ≤ attempts l')
  ∧ (∀ i err, ∃ l', record_at (markFailed t i err) k = Some l'
                    ∧ attempts l' = attempts l)
  ∧ (∀ (w : Env) (q : Queue) (d : QueuedDownload), tracker q = t →
       ∃ rest l',
         (processDownload w q d).1.2
         = MarkStarted (id (lesson d)) :: EnsureDir (path_dirname w (outputPath d)) :: rest
         ∧ (rest = [] ∨ ∃ result, rest = [Executor (options_of d); terminal_of d result])
         ∧ record_at (tracker (processDownload w q d).1.1) k = Some l'
         ∧ attempts l' = attempts l
              + (if starts (OpMarkStarted (id (lesson d))) t k then 1 else 0)).
Proof.
  intros Hop Hk. split; [|split].
  - destruct (LedgerFacts.perform_attempts op t k l Hop Hk) as (l' & H1 & H2).
    exists l'. split; [assumption|]. split; [assumption|].
    destruct (starts op t k); lia.
  - intros i err. apply LedgerFacts.updateLesson_keeps_attempts; [reflexivity | exact Hk].
  - intros w q d <-.
    destruct (LedgerFacts.markStarted_attempts (tracker q) (id (lesson d)) k l Hk)
      as (l1 & Hl1 & Ha1).
    destruct (processDownload_cases w q d)
      as [(e & _ & Hrun) | (_ & result & q' & _ & Hrun & Htr)]; rewrite Hrun; simpl.
    + exists [], l1. split; [reflexivity|]. split; [left; reflexivity|].
      split; assumption.
    + assert (∃ l', record_at (tracker q') k = Some l' ∧ attempts l' = attempts l1)
        as (l' & Hl' & Ha').
      { rewrite Htr. destruct (YtDlp.success result);
          apply LedgerFacts.updateLesson_keeps_attempts; (reflexivity || exact Hl1). }
      exists [Executor (options_of d); terminal_of d result], l'.
      split; [reflexivity|]. split; [right; eauto|]. split; [exact Hl'|].
      rewrite Ha', Ha1. reflexivity.
Qed.

Lemma attempts_only_grow_witness :
  let t := Worlds.ledger [Worlds.intro; Worlds.basics] in
  leaves_attempts_to_ledger (OpMarkStarted "L1")
  ∧ record_at t 0 = Some Worlds.intro
  ∧ ∃ l', record_at (perform (OpMarkStarted "L1") t) 0 = Some l'
          ∧ attempts l' = attempts Worlds.intro + 1.
Proof.
  intros t.
  assert (Hop : leaves_attempts_to_ledger (OpMarkStarted "L1")) by exact I.
  assert (Hk : record_at t 0 = Some Worlds.intro) by reflexivity.
  split; [exact Hop|]. split; [exact Hk|].
  destruct (proj1 (attempts_only_grow (OpMarkStarted "L1") t 0 Worlds.intro Hop Hk))
    as (l' & H1 & H2 & _).
  exists l'. split; [exact H1 | exact H2].
Defined.

End QueueFacts.

(** * Further properties of the ledger *)

Module LedgerMore.
Import ProgressTracker Ledger LedgerShape.

(** [updateLesson] on an id the ledger does not hold. *)
Lemma updateLesson_unknown (t : Tracker) (i : string) (u : LessonUpdates) :
  find_lesson i (lessons (state t)) = None → updateLesson t i u = t.
Proof. intros H. unfold updateLesson. rewrite H. reflexivity. Qed.

(** X1. On an id that no record of the ledger has, [updateLesson] and the
    four [mark] operations change nothing at all: the tracker is the same,
    no record is created and no save is scheduled; [getLesson] answers
    [undefined]. *)
Theorem unknown_id_is_ignored (t : Tracker) (i : string) :
  (∀ l, l ∈ lessons (state t) → id l ≠ i) →
  getLesson t i = None
  ∧ (∀ u, updateLesson t i u = t)
  ∧ markStarted t i = t
  ∧ (∀ out, markCompleted t i out = t)
  ∧ (∀ err, markFailed t i err = t)
  ∧ (∀ reason, markSkipped t i reason = t).
Proof.
  intros Hno. apply LedgerFacts.find_lesson_None in Hno.
  split; [unfold getLesson; rewrite Hno; reflexivity|].
  repeat split; intros; apply updateLesson_unknown; assumption.
Qed.

Lemma unknown_id_is_ignored_witness :
  let t := Worlds.ledger [Worlds.intro; Worlds.basics] in
  (∀ l, l ∈ lessons (state t) → id l ≠ "L9") ∧ markStarted t "L9" = t.
Proof.
  intros t.
  assert (H : ∀ l, l ∈ lessons (state t) → id l ≠ "L9").
  { intros l Hl. simpl in Hl.
    apply elem_of_cons in Hl as [-> | Hl]; [discriminate|].
    apply list_elem_of_singleton in Hl as ->. discriminate. }
  split; [exact H|].
  exact (proj1 (proj2 (proj2 (unknown_id_is_ignored t "L9" H)))).
Defined.

(** [addLesson] with an id the ledger does not hold. *)
Lemma addLesson_fresh (t : Tracker) (x : LessonInput) :
  find_lesson (in_id x) (lessons (state t)) = None →
  addLesson t x = scheduleSave (with_lessons t (lessons (state t) ++ [new_lesson x])).
Proof. intros H. unfold addLesson. rewrite H. reflexivity. Qed.

(** X2. [addLesson] with a new id puts one record at the end of the
    ledger: the record has every field of the lesson given, as given, the
    status [pending] and zero attempts. The records that were there keep
    their place and content; [getLesson] finds the new record,
    [getPendingLessons] returns it, and a save is scheduled. *)
Theorem addLesson_appends (t : Tracker) (x : LessonInput) :
  let l := {| id := in_id x;
              moduleIndex := in_moduleIndex x;
              lessonIndex := in_lessonIndex x;
              moduleTitle := in_moduleTitle x;
              lessonTitle := in_lessonTitle x;
              videoUrl := in_videoUrl x;
              videoProvider := in_videoProvider x;
              status := pending;
              outputPath := in_outputPath x;
              error := in_error x;
              attempts := 0 |} in
  (∀ l', l' ∈ lessons (state t) → id l' ≠ in_id x) →
  lessons (state (addLesson t x)) = lessons (state t) ++ [l]
  ∧ getLesson (addLesson t x) (in_id x) = Some l
  ∧ l ∈ getPendingLessons (addLesson t x)
  ∧ length (getPendingLessons (addLesson t x))
    = S (length (getPendingLessons t))
  ∧ is_Some (saveTimeout (addLesson t x)).
Proof.
  intros l Hno. apply LedgerFacts.find_lesson_None in Hno.
  assert (Hnew : new_lesson x = l) by reflexivity.
  assert (Hin : l ∈ lessons (state t) ++ [l])
    by (apply elem_of_app; right; apply list_elem_of_singleton; reflexivity).
  rewrite (addLesson_fresh t x Hno), Hnew.
  assert (Hls : lessons (state (scheduleSave
                  (with_lessons t (lessons (state t) ++ [l]))))
                = lessons (state t) ++ [l]) by reflexivity.
  split; [exact Hls|]. split; [|split; [|split]].
  - unfold getLesson, find_lesson in *. rewrite Hls.
    rewrite list_find_app_r by assumption.
    cbn [list_find]. rewrite decide_True by reflexivity. reflexivity.
  - unfold getPendingLessons. rewrite Hls. apply list_elem_of_filter.
    split; [left; reflexivity | exact Hin].
  - unfold getPendingLessons. rewrite Hls.
    rewrite filter_app, length_app, filter_cons_True by (left; reflexivity).
    rewrite filter_nil. cbn [length]. lia.
  - destruct (saveTimeout t); eexists; reflexivity.
Qed.

Lemma addLesson_appends_witness :
  let t := Worlds.ledger [Worlds.intro] in
  let x := mkLessonInput "L7" 2 6 "Advanced" "Lesson 7"
             (Some "https://vimeo.com/7") (Some "vimeo") None None in
  (∀ l', l' ∈ lessons (state t) → id l' ≠ in_id x)
  ∧ lessons (state (addLesson t x))
    = [ Worlds.intro;
        mkLessonState "L7" 2 6 "Advanced" "Lesson 7"
          (Some "https://vimeo.com/7") (Some "vimeo") pending None None 0 ].
Proof.
  intros t x.
  assert (H : ∀ l', l' ∈ lessons (state t) → id l' ≠ in_id x).
  { intros l Hl. simpl in Hl. apply list_elem_of_singleton in Hl as ->.
    vm_compute. discriminate. }
  split; [exact H|].
  exact (proj1 (addLesson_appends t x H)).
Defined.
End LedgerMore.

Module LedgerInvariants.
Import ProgressTracker Ledger LedgerShape.

(** The ids of the ledger after an [updateLesson] without the key [id]. *)
Lemma updateLesson_ids (t : Tracker) (i : string) (u : LessonUpdates) :
  u_id u = None →
  id <$> lessons (state (updateLesson t i u)) = id <$> lessons (state t).
Proof.
  intros Hu. unfold updateLesson.
  destruct (find_lesson i (lessons (state t))) as [[k l]|] eqn:Hf; [|reflexivity].
  apply LedgerFacts.find_lesson_Some in Hf as [Hk _]. simpl.
  rewrite list_fmap_insert. apply list_insert_id.
  rewrite list_lookup_fmap, Hk. simpl. unfold assign. simpl. rewrite Hu. reflexivity.
Qed.

(** One operation keeps the ids apart. *)
Lemma perform_unique_ids (op : Op) (t : Tracker) :
  leaves_id op → unique_ids t → unique_ids (perform op t).
Proof.
  unfold unique_ids. intros Hop Hu.
  destruct op; simpl in *;
    try (unfold markStarted, markCompleted, markFailed, markSkipped;
         rewrite updateLesson_ids by (assumption || reflexivity); assumption);
    try assumption.
  unfold addLesson.
  destruct (find_lesson (in_id x) (lessons (state t))) eqn:Hf; [assumption|].
  simpl. rewrite fmap_app. apply NoDup_app. split; [assumption|]. split.
  - intros j Hj Hjx. apply list_elem_of_singleton in Hjx. simpl in Hjx. subst j.
    apply list_elem_of_fmap in Hj as (l & Hid & Hl).
    pose proof (proj1 (LedgerFacts.find_lesson_None _ _) Hf) as Hnone.
    apply (Hnone l Hl). congruence.
  - apply NoDup_singleton.
Qed.

(** X3. The ids of the ledger stay unique: when no two records share an
    id, they still do not after any sequence of operations that leave the
    [id] field alone (every operation but an [updateLesson] that is given
    the key [id]). In particular a ledger filled from empty by [addLesson]
    and the [mark] operations never holds an id twice. *)
Theorem ids_stay_unique (ops : list Op) (t : Tracker) :
  unique_ids t → Forall leaves_id ops → unique_ids (perform_all ops t).
Proof.
  intros Hu Hall. revert t Hu.
  induction Hall as [|op ops Hop _ IH]; intros t Hu; [exact Hu|].
  apply IH, perform_unique_ids; assumption.
Qed.

Lemma ids_stay_unique_witness :
  let t := Worlds.ledger [] in
  let ops := [OpAddLesson (Worlds.seed 1); OpAddLesson (Worlds.seed 1);
              OpMarkStarted "L1"; OpMarkFailed "L1" "HTTP 500"] in
  unique_ids t ∧ Forall leaves_id ops ∧ unique_ids (perform_all ops t).
Proof.
  intros t ops.
  assert (Hu : unique_ids t) by apply NoDup_nil_2.
  assert (Hops : Forall leaves_id ops) by (repeat constructor).
  split; [exact Hu|]. split; [exact Hops|].
  exact (ids_stay_unique ops t Hu Hops).
Defined.

(** The records of the ledger after [updateLesson] are the old ones and
    the record that was assigned to. *)
Lemma updateLesson_elem (t : Tracker) (i : string) (u : LessonUpdates) (l' : LessonState) :
  l' ∈ lessons (state (updateLesson t i u)) →
  l' ∈ lessons (state t) ∨ ∃ l, l ∈ lessons (state t) ∧ l' = assign l u.
Proof.
  unfold updateLesson.
  destruct (find_lesson i (lessons (state t))) as [[k l]|] eqn:Hf; [|auto].
  apply LedgerFacts.find_lesson_Some in Hf as [Hk _]. simpl.
  intros Hin. apply list_elem_of_lookup_1 in Hin as [j Hj].
  destruct (decide (k = j)) as [->|Hne].
  - rewrite list_lookup_insert_eq in Hj by (eapply lookup_lt_Some; eassumption).
    right. exists l. split; [eapply list_elem_of_lookup_2; eassumption | congruence].
  - rewrite list_lookup_insert_ne in Hj by assumption.
    left. eapply list_elem_of_lookup_2; eassumption.
Qed.

(** One transition keeps the completed records whole. *)
Lemma perform_completed (op : Op) (t : Tracker) :
  is_transition op → completed_have_output t → completed_have_output (perform op t).
Proof.
  unfold completed_have_output. intros Hop Hc.
  assert (Hmark : ∀ i u,
            (u_status u = Some completed → (∃ o, u_outputPath u = Some (Some o))
                                            ∧ u_error u = Some None) →
            (u_status u ≠ Some completed → is_Some (u_status u)) →
            ∀ l, l ∈ lessons (state (updateLesson t i u)) → status l = completed →
                 is_Some (outputPath l) ∧ error l = None).
  { intros i u Hdone Hother l Hl Hs.
    apply updateLesson_elem in Hl as [Hl | (l0 & Hl0 & ->)]; [auto|].
    unfold assign in *. simpl in *.
    destruct (decide (u_status u = Some completed)) as [Heq|Hne].
    - destruct (Hdone Heq) as [[o ->] ->]. simpl. eauto.
    - destruct (Hother Hne) as [s Hs']. rewrite Hs' in *. simpl in Hs. congruence. }
  destruct op; simpl in *; try contradiction; try exact Hc.
  - intros l Hl Hs. unfold addLesson in Hl.
    destruct (find_lesson (in_id x) (lessons (state t))); [auto|].
    simpl in Hl. apply elem_of_app in Hl as [Hl | Hl]; [auto|].
    apply list_elem_of_singleton in Hl as ->. discriminate Hs.
  - apply Hmark; simpl; [discriminate | eauto].
  - apply Hmark; simpl; [eauto | congruence].
  - apply Hmark; simpl; [discriminate | eauto].
  - apply Hmark; simpl; [discriminate | eauto].
Qed.

(** X4. Completed records are whole: when every record of status
    [completed] has an [outputPath] and no [error], this still holds after
    any sequence of [initialize], [addLesson], [markStarted],
    [markCompleted], [markFailed], [markSkipped] and [save]. A ledger
    filled from empty by these operations never shows a completed lesson
    without its file or with a stale error. *)
Theorem completed_stay_whole (ops : list Op) (t : Tracker) :
  completed_have_output t → Forall is_transition ops →
  completed_have_output (perform_all ops t).
Proof.
  intros Hc Hall. revert t Hc.
  induction Hall as [|op ops Hop _ IH]; intros t Hc; [exact Hc|].
  apply IH, perform_completed; assumption.
Qed.

Lemma completed_stay_whole_witness :
  let t := Worlds.ledger [Worlds.basics] in
  let ops := [OpMarkStarted "L2"; OpMarkCompleted "L2" "out/02.mp4"] in
  completed_have_output t ∧ Forall is_transition ops
  ∧ completed_have_output (perform_all ops t).
Proof.
  intros t ops.
  assert (Hc : completed_have_output t).
  { intros l Hl Hs. simpl in Hl. apply list_elem_of_singleton in Hl as ->.
    discriminate Hs. }
  assert (Hops : Forall is_transition ops) by (repeat constructor).
  split; [exact Hc|]. split; [exact Hops|].
  exact (completed_stay_whole ops t Hc Hops).
Defined.

(** X5. One failed attempt: after [markStarted] and [markFailed] on a
    lesson of the ledger, [getLesson] shows it failed with the error given
    and one attempt more, and [getPendingLessons] still returns it exactly
    when it had fewer than two attempts before: the third failure takes a
    lesson out of the retries. *)
Theorem failed_attempt_and_cap (t : Tracker) (i err : string) (l : LessonState) :
  getLesson t i = Some l →
  ∃ l', getLesson (markFailed (markStarted t i) i err) i = Some l'
        ∧ status l' = failed
        ∧ error l' = Some err
        ∧ attempts l' = attempts l + 1
        ∧ (l' ∈ getPendingLessons (markFailed (markStarted t i) i err)
           ↔ attempts l < 2).
Proof.
  intros Hg.
  assert (H1 : ∃ l1, getLesson (markStarted t i) i = Some l1
                     ∧ attempts l1 = attempts l + 1) .
  { eexists. split.
    - unfold markStarted. apply LedgerFacts.getLesson_updateLesson;
        [reflexivity | exact Hg].
    - simpl. rewrite Hg. simpl.
      destruct (decide (attempts l = 0)) as [->|]; reflexivity. }
  destruct H1 as (l1 & H1 & Ha1).
  assert (H2 : getLesson (markFailed (markStarted t i) i err) i
               = Some (assign l1 (mkLessonUpdates None None None None None None None
                                    (Some failed) None (Some (Some err)) None))).
  { unfold markFailed. apply LedgerFacts.getLesson_updateLesson;
      [reflexivity | exact H1]. }
  eexists. split; [exact H2|]. simpl.
  split; [reflexivity|]. split; [reflexivity|]. split; [exact Ha1|].
  unfold getPendingLessons. rewrite list_elem_of_filter. simpl. split.
  - intros [[Hp | [_ Ha]] _]; [discriminate | lia].
  - intros Ha. split; [right; split; [reflexivity | lia]|].
    unfold getLesson in H2.
    destruct (find_lesson i (lessons (state (markFailed (markStarted t i) i err))))
      as [[k l2]|] eqn:Hf; [|discriminate].
    simpl in H2. injection H2 as ->.
    apply LedgerFacts.find_lesson_Some in Hf as [Hk _].
    eapply list_elem_of_lookup_2; eassumption.
Qed.

Lemma failed_attempt_and_cap_witness :
  let t := Worlds.ledger [Worlds.intro; Worlds.basics] in
  getLesson t "L2" = Some Worlds.basics
  ∧ ∃ l', getLesson (markFailed (markStarted t "L2") "L2" "timeout") "L2" = Some l'
          ∧ attempts l' = 3.
Proof.
  intros t.
  assert (Hg : getLesson t "L2" = Some Worlds.basics) by reflexivity.
  split; [exact Hg|].
  destruct (failed_attempt_and_cap t "L2" "timeout" Worlds.basics Hg)
    as (l' & H1 & _ & _ & H2 & _).
  exists l'. split; [exact H1 | exact H2].
Defined.

(** X6. The number of lessons [getPendingLessons] returns is the pending
    count of [getStats] plus the failed lessons with fewer than three
    attempts: it lies between the [pending] count and the sum of the
    [pending] and [failed] counts. *)
Theorem pending_lessons_and_stats (t : Tracker) :
  (length (getPendingLessons t)
   = st_pending (getStats t) + length (retryable (lessons (state t))))%nat
  ∧ (st_pending (getStats t) ≤ length (getPendingLessons t))%nat
  ∧ (length (getPendingLessons t)
     ≤ st_pending (getStats t) + st_failed (getStats t))%nat.
Proof.
  unfold getPendingLessons, getStats, retryable, with_status. simpl.
  induction (lessons (state t)) as [|x ls IH]; [simpl; lia|].
  rewrite !filter_cons.
  destruct (status x) eqn:Hs;
    repeat match goal with
           | |- context [decide ?P] => destruct (decide P)
           end; simpl; try lia; exfalso;
    repeat match goal with
           | H : _ ∨ _ |- _ => destruct H
           | H : _ ∧ _ |- _ => destruct H
           | H : ¬ _ |- _ => try (apply H; clear H; tauto)
           end; try congruence; try tauto.
Qed.
End LedgerInvariants.

(** * Further properties of persistence and of the queue *)

Module PersistenceMore.
Import ProgressTracker Durability.

(** X7. What [save()] writes, [load()] reads back: when [JSON.parse]
    returns the state that [JSON.stringify] was given, a tracker for the
    same state file that calls [load()] after a completed [save()] gets
    [true] and holds the saved state, with the same pending lessons and
    the same statistics. *)
Theorem save_then_load
    (JSON_parse : string → Parsed) (JSON_stringify : CourseState → string)
    (path_dirname : string → string) (now : string) (t t2 : Tracker) (d : Disk) :
  JSON_parse (JSON_stringify (state (touch now t))) = Document (state (touch now t)) →
  statePath t2 = statePath t →
  ∃ t3, load JSON_parse (run_ops d (save JSON_stringify path_dirname now t).2) t2
        = Loaded t3
        ∧ state t3 = state (touch now t)
        ∧ lessons (state t3) = lessons (state t)
        ∧ getPendingLessons t3 = getPendingLessons t
        ∧ getStats t3 = getStats t.
Proof.
  intros Hround Hpath. eexists. split.
  - apply (PersistenceFacts.load_document _ _ _ (JSON_stringify (state (touch now t)))).
    + rewrite Hpath. unfold save. cbn [snd run_ops foldl apply_op].
      apply lookup_insert_eq.
    + exact Hround.
  - repeat split.
Qed.

Lemma save_then_load_witness :
  let t := Worlds.interrupted_run in
  let t2 := new_tracker Node.join "t10" "state" "c" in
  LedgerJson.parse (LedgerJson.stringify (state (touch "t9" t)))
  = Document (state (touch "t9" t))
  ∧ statePath t2 = statePath t
  ∧ ∃ t3, load LedgerJson.parse
            (run_ops ∅ (save LedgerJson.stringify Node.dirname "t9" t).2) t2
          = Loaded t3
          ∧ lessons (state t3) = lessons (state t).
Proof.
  intros t t2.
  assert (H1 : LedgerJson.parse (LedgerJson.stringify (state (touch "t9" t)))
               = Document (state (touch "t9" t))) by (vm_compute; reflexivity).
  assert (H2 : statePath t2 = statePath t) by (vm_compute; reflexivity).
  split; [exact H1|]. split; [exact H2|].
  destruct (save_then_load LedgerJson.parse LedgerJson.stringify Node.dirname
              "t9" t t2 ∅ H1 H2) as (t3 & Hl & _ & Hls & _).
  exists t3. split; [exact Hl | exact Hls].
Defined.

End PersistenceMore.

Module QueueMore.
Import Js ProgressTracker DownloadQueue Scheduling Workers.

(** X8. What a download leaves in the ledger and in the counters: when
    the lesson is in the ledger and the output directory can be made,
    after [processDownload] the lesson has one attempt more and, when the
    executor succeeded, the status [completed], the output file the
    executor found (the output path without one) and no error, and
    [completed] has gone up by one; otherwise the status [failed] with the
    executor's error text and [failed] has gone up by one. [total] is
    never touched. *)
Theorem processDownload_records_outcome
    (w : Env) (q : Queue) (d : QueuedDownload) (l : LessonState) :
  getLesson (tracker q) (id (lesson d)) = Some l →
  ensureDir w (path_dirname w (outputPath d)) = None →
  ∃ result l',
    YtDlp.downloadVideo (yt w) (options_of d) = Resolved result
    ∧ getLesson (tracker (processDownload w q d).1.1) (id (lesson d)) = Some l'
    ∧ attempts l' = attempts l + 1
    ∧ total (processDownload w q d).1.1 = total q
    ∧ if YtDlp.success result
      then status l' = ProgressTracker.completed
           ∧ ProgressTracker.outputPath l'
             = Some (or_else (YtDlp.outputFile result) (outputPath d))
           ∧ ProgressTracker.error l' = None
           ∧ completed (processDownload w q d).1.1 = completed q + 1
           ∧ failed (processDownload w q d).1.1 = failed q
      else status l' = ProgressTracker.failed
           ∧ ProgressTracker.error l' = Some (or_else (YtDlp.error result) "Unknown error")
           ∧ completed (processDownload w q d).1.1 = completed q
           ∧ failed (processDownload w q d).1.1 = failed q + 1.
Proof.
  intros Hg Hdir.
  destruct (YtDlpFacts.downloadVideo_always_resolves (yt w) (options_of d))
    as (result & Hres & _).
  assert (H1 : ∃ l1, getLesson (markStarted (tracker q) (id (lesson d))) (id (lesson d))
                     = Some l1 ∧ attempts l1 = attempts l + 1).
  { eexists. split.
    - unfold markStarted. apply LedgerFacts.getLesson_updateLesson;
        [reflexivity | exact Hg].
    - simpl. rewrite Hg. simpl.
      destruct (decide (attempts l = 0)) as [->|]; reflexivity. }
  destruct H1 as (l1 & H1 & Ha1).
  exists result. unfold processDownload. rewrite Hdir, Hres. unfold finish.
  destruct (YtDlp.success result) eqn:Hs; cbn [fst snd tracker with_tracker
    completed failed total].
  - eexists. split; [reflexivity|]. split.
    + unfold markCompleted. apply LedgerFacts.getLesson_updateLesson;
        [reflexivity | exact H1].
    + simpl. repeat split; assumption.
  - eexists. split; [reflexivity|]. split.
    + unfold markFailed. apply LedgerFacts.getLesson_updateLesson;
        [reflexivity | exact H1].
    + simpl. repeat split; assumption.
Qed.

Lemma processDownload_records_outcome_witness :
  let w := Worlds.queue_world (YtDlp.Failed "Command failed" (Some "HTTP Error 403")) None in
  getLesson (tracker Worlds.intro_queue) (id (lesson Worlds.intro_download))
  = Some Worlds.intro
  ∧ ensureDir w (path_dirname w (outputPath Worlds.intro_download)) = None
  ∧ ∃ l', getLesson (tracker (processDownload w Worlds.intro_queue
                                Worlds.intro_download).1.1) "L1" = Some l'
          ∧ attempts l' = 1.
Proof.
  intros w.
  assert (Hg : getLesson (tracker Worlds.intro_queue) (id (lesson Worlds.intro_download))
               = Some Worlds.intro) by reflexivity.
  assert (Hd : ensureDir w (path_dirname w (outputPath Worlds.intro_download)) = None)
    by reflexivity.
  split; [exact Hg|]. split; [exact Hd|].
  destruct (processDownload_records_outcome w Worlds.intro_queue Worlds.intro_download
              Worlds.intro Hg Hd) as (result & l' & _ & Hl' & Ha & _).
  exists l'. split; [exact Hl' | exact Ha].
Defined.

(** A step moves the counters by one exactly when it settles the worker's
    promise as resolved. *)
Lemma step_counters (w : Env) (q : Queue) (k : Worker) :
  let q1 := (step w q k).1.1 in
  let k1 := (step w q k).1.2 in
  completed q ≤ completed q1 ∧ failed q ≤ failed q1
  ∧ total q1 = total q
  ∧ completed q1 + failed q1 + (if is_done k then 1 else 0)
    = completed q + failed q + (if is_done k1 then 1 else 0).
Proof.
  unfold step, is_done. destruct k as [d st]. cbn [item stage].
  destruct st as [| | |p]; cbn [fst snd stage].
  - simpl. lia.
  - destruct (ensureDir w (path_dirname w (outputPath d))); simpl; lia.
  - destruct (YtDlpFacts.downloadVideo_always_resolves (yt w) (options_of d))
      as (result & Hres & _).
    rewrite Hres. unfold finish. destruct (YtDlp.success result); simpl; lia.
  - destruct p; simpl; lia.
Qed.

(** Putting another worker in a place changes the number of finished
    workers by what the two workers differ in. *)
Lemma finished_insert (ws : list Worker) (n : nat) (k k1 : Worker) :
  ws !! n = Some k →
  (finished (<[n := k1]> ws) + (if is_done k then 1 else 0)
   = finished ws + (if is_done k1 then 1 else 0))%nat.
Proof.
  intros Hk. unfold finished.
  rewrite insert_take_drop by (eapply lookup_lt_Some; eassumption).
  rewrite <- (take_drop_middle ws n k Hk) at 3.
  rewrite !filter_app, !filter_cons, !length_app.
  destruct (decide (is_done k1 = true)) as [->|H1%not_true_is_false];
    destruct (decide (is_done k = true)) as [->|H2%not_true_is_false];
    rewrite ?H1, ?H2; simpl; lia.
Qed.

(** The counters and the finished workers move together along a run. *)
Lemma run_counters (w : Env) (schedule : list nat) :
  ∀ (q : Queue) (ws : list Worker),
    let q' := (run w schedule q ws).1.1 in
    let ws' := (run w schedule q ws).1.2 in
    completed q ≤ completed q' ∧ failed q ≤ failed q'
    ∧ total q' = total q
    ∧ length ws' = length ws
    ∧ completed q' + failed q' + Z.of_nat (finished ws)
      = completed q + failed q + Z.of_nat (finished ws').
Proof.
  induction schedule as [|n rest IH]; intros q ws; cbn [run].
  - cbn [fst snd]. lia.
  - destruct (ws !! n) as [k|] eqn:Hk; [|apply IH].
    pose proof (step_counters w q k) as Hstep.
    pose proof (finished_insert ws n k (step w q k).1.2 Hk) as Hfin.
    destruct (step w q k) as [[q1 k1] evs]. cbn [fst snd] in Hstep, Hfin.
    specialize (IH q1 (<[n := k1]> ws)).
    destruct (run w rest q1 (<[n := k1]> ws)) as [[q2 ws2] trace].
    cbn [fst snd] in *. rewrite length_insert in IH.
    destruct (is_done k), (is_done k1); lia.
Qed.

Lemma add_all_counters (items : list QueuedDownload) :
  ∀ q, completed (add_all q items) = completed q
       ∧ failed (add_all q items) = failed q
       ∧ total (add_all q items) = total q + Z.of_nat (length items)
       ∧ tracker (add_all q items) = tracker q
       ∧ queue (add_all q items) = queue q ++ items.
Proof.
  unfold add_all. induction items as [|d items IH]; intros q; simpl.
  - rewrite app_nil_r. repeat split; lia.
  - destruct (IH (add q d)) as (H1 & H2 & H3 & H4 & H5).
    rewrite H1, H2, H3, H4, H5. simpl. rewrite <- app_assoc.
    repeat split; lia.
Qed.

Lemma finished_queued (items : list QueuedDownload) : finished (queued items) = 0%nat.
Proof.
  unfold finished, queued. induction items as [|d items IH]; [reflexivity|].
  rewrite fmap_cons, filter_cons_False by (simpl; discriminate). exact IH.
Qed.

(** X9. The counters of the queue count the workers that are through:
    after the items have been added to a new queue, however the workers
    are interleaved and however far they have run, [completed + failed] is
    the number of workers whose [processDownload] has resolved, [total] is
    the number of items added, and so [completed + failed] never exceeds
    [total]. *)
Theorem counters_count_finished_workers
    (w : Env) (schedule : list nat) (t : Tracker) (items : list QueuedDownload) :
  let q := add_all (new_queue t) items in
  let q' := (run w schedule q (queued items)).1.1 in
  let ws' := (run w schedule q (queued items)).1.2 in
  completed q' + failed q' = Z.of_nat (finished ws')
  ∧ total q' = Z.of_nat (length items)
  ∧ 0 ≤ completed q' ∧ 0 ≤ failed q'
  ∧ completed q' + failed q' ≤ total q'.
Proof.
  intros q q' ws'.
  destruct (add_all_counters items (new_queue t)) as (Hc & Hf & Ht & _ & _).
  destruct (run_counters w schedule q (queued items)) as (H1 & H2 & H3 & H4 & H5).
  fold q' ws' in H1, H2, H3, H4, H5. fold q in Hc, Hf, Ht.
  rewrite finished_queued in H5. simpl in Hc, Hf, Ht.
  assert (Hle : (finished ws' ≤ length ws')%nat) by apply length_filter.
  unfold queued in H4. rewrite length_fmap in H4. lia.
Qed.

End QueueMore.

(** * Further properties of the media executor *)

Module YtDlpMore.
Import Js YtDlp Arguments.

(** X10. For YouTube the cookies file and the referer play no part: the
    arguments of [yt-dlp] are the same whatever [cookiesFile] and
    [referer] are, and the cookies come from the browser. *)
Theorem youtube_ignores_cookies_file (o : DownloadOptions) (cookies ref : option string) :
  provider o = "youtube" →
  buildArgs (with_credentials o cookies ref) = buildArgs o
  ∧ ∃ before after,
      buildArgs o = before ++ ["--cookies-from-browser"; "chrome"] ++ after
      ∧ after = ["--progress"; "--newline"; "--no-overwrites";
                 "--retries"; "3"; "--fragment-retries"; "3"; url o].
Proof.
  intros Hp. split.
  - unfold buildArgs, with_credentials. simpl. rewrite Hp. reflexivity.
  - exists (["-o"; outputPath o +:+ ".%(ext)s"; "-f"; "bestvideo+bestaudio/best";
             "--merge-output-format"; "mp4"; "--no-playlist"]
            ++ (if downloadSubs o
                then ["--write-subs"; "--sub-langs"; subsLang o; "--embed-subs"]
                else [])).
    eexists. split; [|reflexivity].
    unfold buildArgs. rewrite Hp. simpl. destruct (downloadSubs o); reflexivity.
Qed.

Lemma youtube_ignores_cookies_file_witness :
  let o := mkDownloadOptions "https://www.youtube.com/watch?v=x" "out/01_Intro"
             "youtube" (Some "state/cookies.txt") true "en" (Some "https://www.skool.com/c") in
  provider o = "youtube" ∧ buildArgs (with_credentials o None None) = buildArgs o.
Proof.
  intros o.
  assert (H : provider o = "youtube") by reflexivity.
  split; [exact H|].
  exact (proj1 (youtube_ignores_cookies_file o None None H)).
Defined.

(** X11. The argument list of [yt-dlp] always starts with [-o] and the
    output template, and always ends with the address to download. For
    every provider but YouTube a cookies file that is given is passed in
    between as [--cookies file]. *)
Theorem cookies_file_is_passed (o : DownloadOptions) :
  take 2 (buildArgs o) = ["-o"; outputPath o +:+ ".%(ext)s"]
  ∧ last (buildArgs o) = Some (url o)
  ∧ ∀ f, provider o ≠ "youtube" → cookiesFile o = Some f → truthy f = true →
         ∃ before after,
           buildArgs o = before ++ ["--cookies"; f] ++ after
           ∧ take 2 before = ["-o"; outputPath o +:+ ".%(ext)s"]
           ∧ last after = Some (url o).
Proof.
  split; [reflexivity|]. split.
  - unfold buildArgs. rewrite !app_assoc. rewrite last_app. reflexivity.
  - intros f Hp Hc Hf.
    assert (Hcookies : cookies_args o = ["--cookies"; f]).
    { unfold cookies_args. rewrite Hc, Hf. reflexivity. }
    unfold buildArgs. rewrite Hcookies.
    exists (["-o"; outputPath o +:+ ".%(ext)s"; "-f"; "bestvideo+bestaudio/best";
             "--merge-output-format"; "mp4"; "--no-playlist"]
            ++ (if downloadSubs o
                then ["--write-subs"; "--sub-langs"; subsLang o; "--embed-subs"]
                else [])).
    repeat match goal with
           | |- context [decide ?P] => destruct (decide P)
           end; try contradiction;
      (eexists; split; [rewrite <- !app_assoc; reflexivity|];
       split; [reflexivity|];
       first [reflexivity | rewrite last_app; reflexivity]).
Qed.

Lemma cookies_file_is_passed_witness :
  let o := mkDownloadOptions "https://vimeo.com/1" "out/01_Intro"
             "vimeo" (Some "state/cookies.txt") false "en" None in
  provider o ≠ "youtube" ∧ cookiesFile o = Some "state/cookies.txt"
  ∧ ∃ before after,
      buildArgs o = before ++ ["--cookies"; "state/cookies.txt"] ++ after
      ∧ take 2 before = ["-o"; "out/01_Intro.%(ext)s"]
      ∧ last after = Some "https://vimeo.com/1".
Proof.
  intros o.
  assert (Hp : provider o ≠ "youtube") by discriminate.
  assert (Hc : cookiesFile o = Some "state/cookies.txt") by reflexivity.
  split; [exact Hp|]. split; [exact Hc|].
  exact (proj2 (proj2 (cookies_file_is_passed o)) "state/cookies.txt" Hp Hc eq_refl).
Defined.

(** X12. A failed run of [yt-dlp] comes back as a result, never as an
    exception: [success] is [false], there is no output file, and the
    error is chosen from [stderr] by the first of these that applies:
    [Video unavailable] in it, [403] in it, [404] in it; when none
    applies, and whenever [stderr] is empty or missing, the error is the
    message of the exception. *)
Theorem failed_run_is_classified (w : Env) (o : DownloadOptions)
    (message : string) (stderr : option string) :
  execa w "yt-dlp" (buildArgs o) = Failed message stderr →
  ∃ e, downloadVideo w o
       = Resolved {| success := false; outputFile := None; error := Some e |}
       ∧ (e ∈ known_errors ∨ e = message)
       ∧ (truthy_opt stderr = false → e = message)
       ∧ ∀ s, stderr = Some s → truthy s = true →
           e = if includes "Video unavailable" s
               then "Video is unavailable or private"
               else if includes "403" s
               then "Access denied - may need fresh cookies"
               else if includes "404" s
               then "Video not found"
               else message.
Proof.
  intros He. unfold downloadVideo. rewrite He.
  eexists. split; [reflexivity|]. unfold classify, known_errors.
  destruct stderr as [[|c s]|]; cbn [or_else truthy truthy_opt].
  - split; [right; reflexivity|]. split; [reflexivity|].
    intros s' [= <-] H. discriminate H.
  - split; [|split; [discriminate|intros s' [= <-] _; reflexivity]].
    destruct (includes "Video unavailable" (String c s)); [left; set_solver|].
    destruct (includes "403" (String c s)); [left; set_solver|].
    destruct (includes "404" (String c s)); [left; set_solver|right; reflexivity].
  - split; [right; reflexivity|]. split; [reflexivity|].
    intros s' Hs'. discriminate Hs'.
Qed.

Lemma failed_run_is_classified_witness :
  let w := Worlds.yt_world (Failed "Command failed with exit code 1"
                              (Some "ERROR: HTTP Error 403: Forbidden (404 page)")) [] in
  let o := mkDownloadOptions "https://vimeo.com/1" "out/01_Intro" "vimeo" None false "en" None in
  execa w "yt-dlp" (buildArgs o)
  = Failed "Command failed with exit code 1"
      (Some "ERROR: HTTP Error 403: Forbidden (404 page)")
  ∧ downloadVideo w o
    = Resolved {| success := false; outputFile := None;
                  error := Some "Access denied - may need fresh cookies" |}.
Proof.
  intros w o.
  assert (He : execa w "yt-dlp" (buildArgs o)
               = Failed "Command failed with exit code 1"
                   (Some "ERROR: HTTP Error 403: Forbidden (404 page)")) by reflexivity.
  split; [exact He|].
  destruct (failed_run_is_classified w o _ _ He) as (e & Hrun & _ & _ & Hs).
  rewrite Hrun. rewrite (Hs _ eq_refl eq_refl). vm_compute. reflexivity.
Defined.

(** X13. After a successful run [findOutputFile] reports the first entry
    of the output directory whose name starts with the base name of the
    output path, joined to the directory, and nothing when no entry starts
    so; the names a directory holds are never empty. It reports nothing
    either when the directory cannot be read. *)
Theorem findOutputFile_first_match (w : Env) (basePath : string) (files : list string) :
  readdir w (path_dirname w basePath) = Some files →
  (∀ m, m ∈ files → truthy m = true) →
  match findOutputFile w basePath with
  | Some p =>
      ∃ k m, files !! k = Some m
             ∧ p = path_join w (path_dirname w basePath) m
             ∧ String.prefix (path_basename w basePath) m = true
             ∧ ∀ j m', files !! j = Some m' → (j < k)%nat →
                       String.prefix (path_basename w basePath) m' = false
  | None =>
      ∀ m, m ∈ files → String.prefix (path_basename w basePath) m = false
  end.
Proof.
  intros Hdir _. unfold findOutputFile. rewrite Hdir.
  destruct (list_find _ files) as [[k m]|] eqn:Hf.
  - apply list_find_Some in Hf as (Hk & Hm & Hfirst).
    exists k, m. repeat split; try assumption.
    intros j m' Hj Hlt. apply not_true_is_false. eapply Hfirst; eassumption.
  - apply list_find_None in Hf. rewrite Forall_forall in Hf.
    intros m Hm. apply not_true_is_false. apply Hf. assumption.
Qed.

Lemma findOutputFile_first_match_witness :
  let w := Worlds.yt_world Exited ["00_Welcome.mp4"; "01_Intro.en.vtt"; "01_Intro.mp4"] in
  let files := ["00_Welcome.mp4"; "01_Intro.en.vtt"; "01_Intro.mp4"] in
  readdir w (path_dirname w "out/c/01_Intro") = Some files
  ∧ (∀ m, m ∈ files → truthy m = true)
  ∧ match findOutputFile w "out/c/01_Intro" with
    | Some p =>
        ∃ k m, files !! k = Some m
               ∧ p = path_join w (path_dirname w "out/c/01_Intro") m
               ∧ String.prefix (path_basename w "out/c/01_Intro") m = true
               ∧ ∀ j m', files !! j = Some m' → (j < k)%nat →
                         String.prefix (path_basename w "out/c/01_Intro") m' = false
    | None =>
        ∀ m, m ∈ files → String.prefix (path_basename w "out/c/01_Intro") m = false
    end.
Proof.
  intros w files.
  assert (Hdir : readdir w (path_dirname w "out/c/01_Intro") = Some files)
    by reflexivity.
  assert (Hne : ∀ m, m ∈ files → truthy m = true).
  { intros m Hm. unfold files in Hm. rewrite !elem_of_cons in Hm.
    destruct Hm as [->|[->|[->|Hm]]]; [reflexivity..|].
    apply elem_of_nil in Hm. contradiction. }
  split; [exact Hdir|]. split; [exact Hne|].
  exact (findOutputFile_first_match w "out/c/01_Intro" files Hdir Hne).
Defined.

(** When the directory cannot be read the executor reports no file. *)
Lemma findOutputFile_unreadable (w : Env) (basePath : string) :
  readdir w (path_dirname w basePath) = None → findOutputFile w basePath = None.
Proof. intros H. unfold findOutputFile. rewrite H. reflexivity. Qed.

End YtDlpMore.

(** * Further properties of the resource downloader *)

Module FetchMore.
Import Js ResourceDownloader Fetch Results.

Lemma append_empty_r (s : string) : s +:+ EmptyString = s.
Proof.
  induction s as [|c s IH]; [reflexivity|].
  change (String c (s +:+ EmptyString) = String c s). rewrite IH. reflexivity.
Qed.

(** [finalPath] is the output path with an extension appended, and the
    output path itself when that has an extension already. *)
Lemma choose_finalPath_appends (w : Env) (u out : string) (r : Response) :
  (∃ ext, choose_finalPath w u out r = out +:+ ext)
  ∧ (truthy (path_extname w out) = true → choose_finalPath w u out r = out).
Proof.
  unfold choose_finalPath. split.
  - destruct (truthy (path_extname w out)).
    + exists EmptyString. symmetry. apply append_empty_r.
    + destruct (_ && _); [eexists; reflexivity|].
      destruct (truthy _); [eexists; reflexivity|].
      exists EmptyString. symmetry. apply append_empty_r.
  - intros ->. reflexivity.
Qed.

(** The callback either reports a failure without touching the disk, or
    starts a transfer; it reports success only after the whole transfer. *)
Lemma settle_success (w : Env) (u out : string) (r : Response) (res : FileResult) :
  (settle w u out r).2 = Resolved res → f_success res = true →
  res = {| f_success := true; f_finalPath := Some (choose_finalPath w u out r);
           f_error := None; f_requiresAuth := None |}
  ∧ (settle w u out r).1 = transfer w (choose_finalPath w u out r).
Proof.
  unfold settle, transfer, failure.
  destruct (is_auth r); [intros [= <-]; discriminate|].
  destruct (is_not_found r); [intros [= <-]; discriminate|].
  destruct (is_http_error r); [intros [= <-]; discriminate|].
  destruct (ensureDir w _); [discriminate|].
  destruct (fs_open w _); [discriminate|].
  destruct (pipe w _); try (destruct (fs_close w _)); cbn [fst snd];
    try discriminate; try (intros [= <-]; discriminate).
  intros [= <-] _. split; reflexivity.
Qed.

Lemma settle_well_formed (w : Env) (u out : string) (r : Response) (res : FileResult) :
  (settle w u out r).2 = Resolved res → well_formed res.
Proof.
  unfold settle, failure, well_formed.
  destruct (is_auth r); [intros [= <-]; cbn; eauto|].
  destruct (is_not_found r); [intros [= <-]; cbn; eauto|].
  destruct (is_http_error r); [intros [= <-]; cbn; eauto|].
  destruct (ensureDir w _); [discriminate|].
  destruct (fs_open w _); [discriminate|].
  destruct (pipe w _); try (destruct (fs_close w _)); cbn [fst snd];
    try discriminate; intros [= <-]; cbn; eauto.
Qed.

(** The shape of every run of [downloadFile]: some requests, then what the
    callback does with the final response; without a final response there
    are only requests and no success. *)
Lemma downloadFile_from_shape (w : Env) (out : string) (fr : nat) :
  ∀ sent u,
    match final_response w sent u fr with
    | Some r =>
        ∃ u' reqs,
          downloadFile_from w sent u out fr
          = (reqs ++ (settle w u' out r).1, (settle w u' out r).2)
          ∧ Forall (λ e, is_get e = true) reqs
          ∧ (1 ≤ length reqs ≤ S fr)%nat
    | None =>
        Forall (λ e, is_get e = true) (downloadFile_from w sent u out fr).1
        ∧ ∀ res, (downloadFile_from w sent u out fr).2 = Resolved res →
                 res = failure None (default EmptyString (f_error res))
    end.
Proof.
  induction fr as [|n IH]; intros sent u; simpl.
  - destruct (URL_parse w u) as [urlObj|]; [|split; [constructor|discriminate]].
    destruct (http_get w sent _ _ _) as [r|msg|].
    + assert (Hm : match redirect_target r with Some _ | _ => Some r end = Some r)
        by (destruct (redirect_target r); reflexivity).
      rewrite Hm. exists u, [Get (bool_decide (protocol urlObj = "https:"))
                              (hostname urlObj) (pathname urlObj +:+ search urlObj)].
      split; [|split; [repeat constructor|simpl; lia]].
      destruct (redirect_target r); destruct (settle w u out r); reflexivity.
    + split; [repeat constructor|]. cbn [snd]. intros res [= <-]. reflexivity.
    + split; [repeat constructor|]. cbn [snd]. intros res [= <-]. reflexivity.
  - destruct (URL_parse w u) as [urlObj|]; [|split; [constructor|discriminate]].
    destruct (http_get w sent _ _ _) as [r|msg|].
    + destruct (redirect_target r) as [redirectUrl|].
      * destruct (URL_resolve w redirectUrl u) as [absoluteUrl|].
        -- specialize (IH (S sent) absoluteUrl).
           destruct (final_response w (S sent) absoluteUrl n) as [r'|].
           ++ destruct IH as (u' & reqs & Heq & Hgets & Hlen).
              rewrite Heq. exists u', (Get (bool_decide (protocol urlObj = "https:"))
                              (hostname urlObj) (pathname urlObj +:+ search urlObj) :: reqs).
              split; [|split; [constructor; [reflexivity|assumption]|simpl; lia]].
              rewrite FetchFacts.relay_settle. reflexivity.
           ++ destruct IH as [Hgets Hres].
              destruct (downloadFile_from w (S sent) absoluteUrl out n) as [effs p].
              cbn [fst snd] in *. split; [constructor; [reflexivity|assumption]|].
              intros res Hp. destruct p; try discriminate.
              injection Hp as <-. apply Hres. reflexivity.
        -- split; [repeat constructor|]. cbn [snd]. discriminate.
      * exists u, [Get (bool_decide (protocol urlObj = "https:"))
                     (hostname urlObj) (pathname urlObj +:+ search urlObj)].
        split; [|split; [repeat constructor|simpl; lia]].
        destruct (settle w u out r); reflexivity.
    + split; [repeat constructor|]. cbn [snd]. intros res [= <-]. reflexivity.
    + split; [repeat constructor|]. cbn [snd]. intros res [= <-]. reflexivity.
Qed.

Lemma downloadFile_from_well_formed (w : Env) (out : string) (fr sent : nat) (u : string)
    (res : FileResult) :
  (downloadFile_from w sent u out fr).2 = Resolved res → well_formed res.
Proof.
  intros Hres. pose proof (downloadFile_from_shape w out fr sent u) as H.
  destruct (final_response w sent u fr) as [r|].
  - destruct H as (u' & reqs & Heq & _). rewrite Heq in Hres. cbn [snd] in Hres.
    eapply settle_well_formed. eassumption.
  - destruct H as [_ H]. rewrite (H res Hres). unfold well_formed, failure. cbn.
    specialize (H res Hres). rewrite H. cbn. eauto.
Qed.

(** X14. A download that reports success has made between one and six
    requests and then, in this order, created the directory of the final
    path, opened the file, piped the body into it and closed it; the
    final path is the output path with at most an extension appended, and
    the output path itself when that has an extension. *)
Theorem saved_file_effects (w : Env) (u out : string) (effs : list Effect)
    (res : FileResult) :
  downloadFile w u out = (effs, Resolved res) → f_success res = true →
  ∃ p reqs ext,
    f_finalPath res = Some p
    ∧ effs = reqs ++ transfer w p
    ∧ Forall (λ e, is_get e = true) reqs
    ∧ (1 ≤ length reqs ≤ 6)%nat
    ∧ p = out +:+ ext
    ∧ (truthy (path_extname w out) = true → p = out).
Proof.
  unfold downloadFile. intros Hrun Hok.
  pose proof (downloadFile_from_shape w out 5 0 u) as H.
  destruct (final_response w 0 u 5) as [r|].
  - destruct H as (u' & reqs & Heq & Hgets & Hlen).
    rewrite Hrun in Heq. injection Heq as Heffs Hp. symmetry in Hp.
    destruct (settle_success w u' out r res Hp Hok) as [-> Htr].
    destruct (choose_finalPath_appends w u' out r) as [[ext Hext] Hsame].
    exists (choose_finalPath w u' out r), reqs, ext.
    rewrite Heffs, Htr. repeat split; try assumption; try lia.
  - destruct H as [_ H]. rewrite Hrun in H. cbn [snd] in H.
    rewrite (H res eq_refl) in Hok. discriminate Hok.
Qed.

Lemma saved_file_effects_witness :
  let w := Worlds.around Worlds.three_hops_server in
  let run := downloadFile w "http://files.example/a" "out/resources/Workbook" in
  ∃ res,
    run.2 = Resolved res ∧ f_success res = true
    ∧ ∃ p reqs ext,
        f_finalPath res = Some p
        ∧ run.1 = reqs ++ transfer w p
        ∧ Forall (λ e, is_get e = true) reqs
        ∧ (1 ≤ length reqs ≤ 6)%nat
        ∧ p = "out/resources/Workbook" +:+ ext
        ∧ (truthy (path_extname w "out/resources/Workbook") = true →
           p = "out/resources/Workbook").
Proof.
  intros w run.
  assert (Hrun : ∃ effs res, run = (effs, Resolved res) ∧ f_success res = true).
  { vm_compute. eexists _, _. split; reflexivity. }
  destruct Hrun as (effs & res & Hrun & Hok).
  exists res. rewrite Hrun. split; [reflexivity|]. split; [exact Hok|].
  exact (saved_file_effects w _ _ effs res Hrun Hok).
Defined.

(** X15. An error status on the final response ends the download without
    anything done to the disk: only requests were made, and the result is
    a failure whose text names the status. 401 and 403 alone are marked
    as needing authentication. *)
Theorem error_status_touches_nothing (w : Env) (u out : string) (r : Response) (c : Z) :
  final_response w 0 u 5 = Some r → statusCode r = Some c → 400 ≤ c →
  Forall (λ e, is_get e = true) (downloadFile w u out).1
  ∧ (downloadFile w u out).2
    = Resolved {| f_success := false; f_finalPath := None;
                  f_error := Some (status_text c);
                  f_requiresAuth :=
                    if bool_decide (c = 401 ∨ c = 403) then Some true else None |}.
Proof.
  unfold downloadFile. intros Hfinal Hc Hge.
  pose proof (downloadFile_from_shape w out 5 0 u) as H. rewrite Hfinal in H.
  destruct H as (u' & reqs & -> & Hgets & _). cbn [fst snd].
  unfold settle, is_auth, is_not_found, is_http_error, status_text, failure.
  rewrite Hc.
  destruct (decide (c = 401 ∨ c = 403)) as [Hauth|Hauth].
  - rewrite (bool_decide_eq_true_2 (Some c = Some 401 ∨ Some c = Some 403))
      by (destruct Hauth as [->| ->]; auto).
    rewrite (bool_decide_eq_true_2 _ Hauth).
    cbn [fst snd]. rewrite app_nil_r. split; [assumption|reflexivity].
  - rewrite (bool_decide_eq_false_2 (Some c = Some 401 ∨ Some c = Some 403))
      by (intros [[= ->]|[= ->]]; auto).
    rewrite (bool_decide_eq_false_2 _ Hauth).
    destruct (decide (c = 404)) as [->|H404].
    + cbn [fst snd]. rewrite app_nil_r. split; [assumption|reflexivity].
    + rewrite (bool_decide_eq_false_2 (Some c = Some 404)) by (intros [= ->]; auto).
      rewrite (bool_decide_eq_false_2 (c = 404)) by assumption.
      rewrite (bool_decide_eq_true_2 (c ≠ 0)) by lia.
      rewrite (bool_decide_eq_true_2 (400 ≤ c)) by assumption.
      cbn [andb fst snd default]. rewrite app_nil_r. split; [assumption|reflexivity].
Qed.

Lemma error_status_touches_nothing_witness :
  let w := Worlds.around Worlds.forbidden_server in
  (downloadFile w "http://files.example/a" "out/resources/Workbook").2
  = Resolved {| f_success := false; f_finalPath := None;
                f_error := Some "Authentication required";
                f_requiresAuth := Some true |}.
Proof.
  intros w.
  assert (Hf : final_response w 0 "http://files.example/a" 5
               = Some (mkResponse (Some 403) None None (Some "text/html")))
    by (vm_compute; reflexivity).
  exact (proj2 (error_status_touches_nothing w "http://files.example/a"
                  "out/resources/Workbook" _ 403 Hf eq_refl ltac:(lia))).
Defined.

Lemma downloadResource_url (w : Env) (link : ExtractedLink) (outputDir : string)
    (index : Z) (d : DownloadResult) :
  (downloadResource w link outputDir index).2 = Resolved d → url d = l_url link.
Proof.
  unfold downloadResource.
  destruct (decide (l_type link = notion)); [intros [= <-]; reflexivity|].
  destruct (downloadFile w _ _) as [effs [res|e|e]]; cbn [snd]; try discriminate.
  destruct (bool_decide _); [intros [= <-]; reflexivity|].
  destruct (negb _); intros [= <-]; reflexivity.
Qed.

(** X16. Whatever [downloadResource] resolves with speaks of the link's
    own address and has exactly one of three shapes: a saved file with its
    path, a skipped item with one of two reasons, or a failure with an
    error text. No result is both a success and skipped, and no success
    lacks its path. *)
Theorem downloadResource_outcome (w : Env) (link : ExtractedLink) (outputDir : string)
    (index : Z) (d : DownloadResult) :
  (downloadResource w link outputDir index).2 = Resolved d →
  url d = l_url link
  ∧ ((∃ p, saved_as d p)
     ∨ (∃ reason, skipped_for d reason ∧ reason ∈ resource_skip_reasons)
     ∨ (∃ e, failed_with d (Some e))).
Proof.
  intros Hd. split; [eapply downloadResource_url; eassumption|].
  revert Hd. unfold downloadResource.
  destruct (decide (l_type link = notion)).
  { intros [= <-]. right. left. eexists. split; [repeat split|]. set_solver. }
  unfold downloadFile.
  pose proof (downloadFile_from_well_formed w (basePath w link outputDir index) 5 0
                (direct_url w link)) as Hwf.
  destruct (downloadFile_from w 0 _ _ 5) as [effs [res|e|e]]; cbn [snd] in *;
    try discriminate.
  specialize (Hwf res eq_refl). unfold well_formed in Hwf.
  destruct (bool_decide _).
  { intros [= <-]. right. left. eexists. split; [repeat split|]. set_solver. }
  destruct (f_success res); cbn [negb]; intros [= <-].
  - destruct Hwf as ([p Hp] & _). left. exists p. repeat split. exact Hp.
  - destruct Hwf as (_ & [e He]). right. right. exists e. repeat split. exact He.
Qed.

Lemma downloadResource_outcome_witness :
  let w := Worlds.around Worlds.three_hops_server in
  ∃ d, (downloadResource w Worlds.attachment "out" 0).2 = Resolved d
       ∧ url d = "http://files.example/loop"
       ∧ ((∃ p, saved_as d p)
          ∨ (∃ reason, skipped_for d reason ∧ reason ∈ resource_skip_reasons)
          ∨ (∃ e, failed_with d (Some e))).
Proof.
  intros w.
  assert (H : ∃ d, (downloadResource w Worlds.attachment "out" 0).2 = Resolved d).
  { vm_compute. eexists. reflexivity. }
  destruct H as [d Hd]. exists d. split; [exact Hd|].
  exact (downloadResource_outcome w Worlds.attachment "out" 0 d Hd).
Defined.

(** X17. When [downloadModuleResources] resolves, it gives one result for
    each embedded link, in the order of the links, each under the address
    of its link. *)
Theorem one_result_per_link (w : Env) (links : list ExtractedLink) (outputDir : string)
    (results : list DownloadResult) :
  (downloadModuleResources w links outputDir).2 = Resolved results →
  url <$> results = l_url <$> links.
Proof.
  unfold downloadModuleResources. generalize 0. revert results.
  induction links as [|link rest IH]; intros results i; simpl.
  - intros [= <-]. reflexivity.
  - pose proof (λ rs, IH rs (i + 1)) as IH'. clear IH.
    destruct (downloadModuleResources_from w (i + 1) rest outputDir) as [effs' p].
    destruct (bool_decide (l_type link = external) && negb (isLikelyFile (l_url link))).
    + destruct p as [rs|e|e]; cbn [snd] in *; try discriminate.
      intros [= <-]. cbn. rewrite (IH' rs eq_refl). reflexivity.
    + pose proof (downloadResource_url w link outputDir i) as Hurl.
      destruct (downloadResource w link outputDir i) as [effs [d|e|e]];
        cbn [snd] in *; try discriminate.
      destruct p as [rs|e|e]; cbn [snd] in *; try discriminate.
      intros [= <-]. cbn. rewrite (IH' rs eq_refl), (Hurl d eq_refl). reflexivity.
Qed.

Lemma one_result_per_link_witness :
  let w := Worlds.around Worlds.three_hops_server in
  let links := [Worlds.attachment; Worlds.attachment] in
  ∃ results, (downloadModuleResources w links "out").2 = Resolved results
             ∧ url <$> results = l_url <$> links.
Proof.
  intros w links.
  assert (H : ∃ results, (downloadModuleResources w links "out").2 = Resolved results).
  { vm_compute. eexists. reflexivity. }
  destruct H as [results Hr]. exists results. split; [exact Hr|].
  exact (one_result_per_link w links "out" results Hr).
Defined.

(** X18. Links that are pages, not files, cost no request: when every
    embedded link is a Notion page or an external link that does not look
    like a file, [downloadModuleResources] resolves without any effect,
    and every result is a skipped item. *)
Theorem pages_are_never_requested (w : Env) (links : list ExtractedLink)
    (outputDir : string) :
  Forall is_page links →
  ∃ results,
    downloadModuleResources w links outputDir = ([], Resolved results)
    ∧ Forall (λ d, ∃ reason, skipped_for d reason ∧ reason ∈ skip_reasons) results.
Proof.
  unfold downloadModuleResources. generalize 0.
  induction links as [|link rest IH]; intros i Hpages.
  - exists []. split; [reflexivity|constructor].
  - apply Forall_cons in Hpages as [Hpage Hrest].
    destruct (IH (i + 1) Hrest) as (rs & Hrun & Hrs).
    simpl. rewrite Hrun.
    destruct Hpage as [Hn|[He Hf]].
    + assert (Hext : bool_decide (l_type link = external) = false).
      { apply bool_decide_eq_false_2. rewrite Hn. discriminate. }
      rewrite Hext. cbn [andb]. unfold downloadResource.
      destruct (decide (l_type link = notion)); [|contradiction].
      eexists. split; [reflexivity|]. constructor; [|assumption].
      eexists. split; [repeat split|]. set_solver.
    + rewrite (bool_decide_eq_true_2 _ He), Hf. cbn [andb negb].
      eexists. split; [reflexivity|]. constructor; [|assumption].
      eexists. split; [repeat split|]. set_solver.
Qed.

Lemma pages_are_never_requested_witness :
  let w := Worlds.around Worlds.forbidden_server in
  let links := [ mkExtractedLink "Notes" "https://team.notion.site/notes" notion;
                 mkExtractedLink "Blog" "https://example.org/blog" external ] in
  Forall is_page links
  ∧ (downloadModuleResources w links "out").1 = [].
Proof.
  intros w links.
  assert (H : Forall is_page links).
  { apply Forall_cons. split; [left; reflexivity|].
    apply Forall_cons. split; [right; split; reflexivity|constructor]. }
  split; [exact H|].
  destruct (pages_are_never_requested w links "out" H) as (results & -> & _).
  reflexivity.
Defined.

End FetchMore.

(** * File names and content types *)

Module NameFacts.
Import Js ResourceDownloader Names.

Lemma append_cons (c : Ascii.ascii) (s t : string) :
  String c s +:+ t = String c (s +:+ t).
Proof. reflexivity. Qed.

Lemma prefix_empty (s : string) : String.prefix EmptyString s = true.
Proof. destruct s; reflexivity. Qed.

Lemma lower_char_idemp (c : Ascii.ascii) : lower_char (lower_char c) = lower_char c.
Proof. destruct c as [[] [] [] [] [] [] [] []]; vm_compute; reflexivity. Qed.

Lemma is_space_lower_char (c : Ascii.ascii) : is_space (lower_char c) = is_space c.
Proof. destruct c as [[] [] [] [] [] [] [] []]; vm_compute; reflexivity. Qed.

Lemma lower_char_semicolon (c : Ascii.ascii) :
  bool_decide (lower_char c = ";"%char) = bool_decide (c = ";"%char).
Proof. destruct c as [[] [] [] [] [] [] [] []]; vm_compute; reflexivity. Qed.

Lemma toLowerCase_idemp (s : string) : toLowerCase (toLowerCase s) = toLowerCase s.
Proof.
  induction s as [|c s IH]; [reflexivity|].
  cbn [toLowerCase]. rewrite lower_char_idemp, IH. reflexivity.
Qed.

Lemma before_char_lower (s : string) :
  before_char ";" (toLowerCase s) = toLowerCase (before_char ";" s).
Proof.
  induction s as [|c s IH]; [reflexivity|].
  cbn [toLowerCase before_char].
  pose proof (lower_char_semicolon c) as Hc.
  destruct (decide (lower_char c = ";"%char)) as [H1|H1];
    destruct (decide (c = ";"%char)) as [H2|H2].
  - reflexivity.
  - rewrite (bool_decide_eq_true_2 _ H1), (bool_decide_eq_false_2 _ H2) in Hc.
    discriminate Hc.
  - rewrite (bool_decide_eq_false_2 _ H1), (bool_decide_eq_true_2 _ H2) in Hc.
    discriminate Hc.
  - cbn [toLowerCase]. rewrite IH. reflexivity.
Qed.

Lemma trim_start_lower (s : string) :
  trim_start (toLowerCase s) = toLowerCase (trim_start s).
Proof.
  induction s as [|c s IH]; [reflexivity|].
  cbn [toLowerCase trim_start]. rewrite is_space_lower_char.
  destruct (is_space c); [exact IH|reflexivity].
Qed.

Lemma trim_end_lower (s : string) :
  trim_end (toLowerCase s) = toLowerCase (trim_end s).
Proof.
  induction s as [|c s IH]; [reflexivity|].
  cbn [toLowerCase trim_end]. rewrite IH, is_space_lower_char.
  destruct (trim_end s) as [|c' r]; cbn [toLowerCase].
  - destruct (is_space c); reflexivity.
  - reflexivity.
Qed.

Lemma trim_lower (s : string) : trim (toLowerCase s) = toLowerCase (trim s).
Proof. unfold trim. rewrite trim_start_lower, trim_end_lower. reflexivity. Qed.

(** Without a semicolon in [mime], the text before the first semicolon of
    [mime;params] is [mime], as it is of [mime] alone. *)
Lemma before_char_params (mime params : string) :
  includes ";" mime = false →
  before_char ";" (mime +:+ ";" +:+ params) = mime ∧ before_char ";" mime = mime.
Proof.
  induction mime as [|c s IH]; intros Hno.
  - split; reflexivity.
  - cbn [includes String.prefix] in Hno.
    apply orb_false_iff in Hno as [Hhead Hrest].
    destruct (IH Hrest) as [IH1 IH2].
    rewrite append_cons. cbn [before_char].
    destruct (decide (c = ";"%char)) as [->|Hc].
    + destruct (Ascii.ascii_dec ";" ";") as [_|E]; [|contradiction].
      rewrite prefix_empty in Hhead. discriminate Hhead.
    + rewrite IH1, IH2. split; reflexivity.
Qed.

(** X19. The extension inferred from a [Content-Type] depends on the media
    type alone: parameters after a semicolon are ignored, and so is the
    case of the letters. *)
Theorem content_type_parameters_ignored (mime params : string) :
  includes ";" mime = false →
  getExtensionFromContentType (mime +:+ ";" +:+ params)
  = getExtensionFromContentType mime
  ∧ getExtensionFromContentType (toLowerCase mime +:+ ";" +:+ params)
    = getExtensionFromContentType mime.
Proof.
  intros Hno. destruct (before_char_params mime params Hno) as [H1 H2].
  unfold getExtensionFromContentType. split.
  - rewrite H1, H2. reflexivity.
  - assert (Hlow : before_char ";" (toLowerCase mime +:+ ";" +:+ params)
                   = toLowerCase mime).
    { apply before_char_params. revert Hno. clear.
      induction mime as [|c s IH]; [reflexivity|].
      cbn [includes String.prefix toLowerCase]. intros Hno.
      apply orb_false_iff in Hno as [Hhead Hrest].
      rewrite (IH Hrest), orb_false_r.
      pose proof (lower_char_semicolon c) as Hc.
      destruct (Ascii.ascii_dec ";" (lower_char c)) as [E|E]; [|reflexivity].
      destruct (Ascii.ascii_dec ";" c) as [E'|E'];
        [rewrite prefix_empty in Hhead; discriminate Hhead|].
      rewrite (bool_decide_eq_true_2 _ (eq_sym E)) in Hc.
      rewrite bool_decide_eq_false_2 in Hc by congruence. discriminate Hc. }
    rewrite Hlow, H2, trim_lower, toLowerCase_idemp. reflexivity.
Qed.

Lemma content_type_parameters_ignored_witness :
  includes ";" "Text/HTML" = false
  ∧ getExtensionFromContentType ("Text/HTML" +:+ ";" +:+ " charset=utf-8") = ".html".
Proof.
  assert (H : includes ";" "Text/HTML" = false) by reflexivity.
  split; [exact H|].
  rewrite (proj1 (content_type_parameters_ignored "Text/HTML" " charset=utf-8" H)).
  reflexivity.
Defined.

Lemma spaces_to_underscore_cons (c : Ascii.ascii) (rest : string) :
  spaces_to_underscore (String c rest)
  = if is_space c then
      if default false (is_space <$> head_char rest)
      then spaces_to_underscore rest
      else String "_" (spaces_to_underscore rest)
    else String c (spaces_to_underscore rest).
Proof. destruct rest; reflexivity. Qed.

Lemma squeeze_underscores_cons (c : Ascii.ascii) (rest : string) :
  squeeze_underscores (String c rest)
  = if bool_decide (c = "_"%char ∧ head_char rest = Some "_"%char)
    then squeeze_underscores rest
    else String c (squeeze_underscores rest).
Proof.
  destruct rest as [|c' r]; cbn [squeeze_underscores head_char].
  - rewrite bool_decide_eq_false_2 by (intros [_ H]; discriminate H).
    destruct (decide (c = "_"%char)); reflexivity.
  - destruct (decide (c = "_"%char)) as [Hc|Hc].
    + destruct (decide (c' = "_"%char)) as [Hc'|Hc'].
      * rewrite bool_decide_eq_true_2 by (split; congruence). reflexivity.
      * rewrite bool_decide_eq_false_2 by (intros [_ [= H]]; contradiction).
        reflexivity.
    + rewrite bool_decide_eq_false_2 by (intros [H _]; contradiction). reflexivity.
Qed.

Lemma has_space_spaces_to_underscore (s : string) :
  has_space (spaces_to_underscore s) = false.
Proof.
  induction s as [|c s IH]; [reflexivity|].
  rewrite spaces_to_underscore_cons.
  destruct (is_space c) eqn:Hc.
  - destruct (default false _); [exact IH|]. cbn [has_space]. rewrite IH. reflexivity.
  - cbn [has_space]. rewrite Hc, IH. reflexivity.
Qed.

Lemma has_space_squeeze_underscores (s : string) :
  has_space s = false → has_space (squeeze_underscores s) = false.
Proof.
  induction s as [|c s IH]; [reflexivity|].
  cbn [has_space]. intros H. apply orb_false_iff in H as [Hc Hs].
  rewrite squeeze_underscores_cons.
  destruct (bool_decide _); [exact (IH Hs)|].
  cbn [has_space]. rewrite Hc, (IH Hs). reflexivity.
Qed.

Lemma has_space_substring (n : nat) (s : string) :
  has_space s = false → has_space (String.substring 0 n s) = false.
Proof.
  revert s. induction n as [|n IH]; intros [|c s] H; try reflexivity.
  cbn [has_space] in H. apply orb_false_iff in H as [Hc Hs].
  cbn [String.substring has_space]. rewrite Hc, (IH s Hs). reflexivity.
Qed.

Lemma length_substring_le (n : nat) (s : string) :
  (String.length (String.substring 0 n s) ≤ n)%nat.
Proof.
  revert s. induction n as [|n IH]; intros [|c s]; cbn [String.substring String.length];
    try lia.
  specialize (IH s). lia.
Qed.

Lemma head_char_squeeze_underscores (s : string) :
  head_char (squeeze_underscores s) = head_char s.
Proof.
  induction s as [|c s IH]; [reflexivity|].
  rewrite squeeze_underscores_cons.
  destruct (decide (c = "_"%char ∧ head_char s = Some "_"%char)) as [[-> Hs]|Hn].
  - rewrite (bool_decide_eq_true_2 _ (conj eq_refl Hs)), IH. exact Hs.
  - rewrite (bool_decide_eq_false_2 _ Hn). reflexivity.
Qed.

(** A string starts with two underscores when its first character is one
    and the rest starts with one. *)
Lemma prefix_two_underscores (c : Ascii.ascii) (s : string) :
  String.prefix "__" (String c s)
  = bool_decide (c = "_"%char ∧ head_char s = Some "_"%char).
Proof.
  cbn [String.prefix].
  destruct (Ascii.ascii_dec "_" c) as [<-|Hc].
  - destruct s as [|c' r]; cbn [head_char String.prefix].
    + rewrite bool_decide_eq_false_2 by (intros [_ H]; discriminate H). reflexivity.
    + destruct (Ascii.ascii_dec "_" c') as [<-|Hc'].
      * rewrite prefix_empty, bool_decide_eq_true_2 by (split; reflexivity).
        reflexivity.
      * rewrite bool_decide_eq_false_2 by (intros [_ [= H]]; congruence).
        reflexivity.
  - rewrite bool_decide_eq_false_2 by (intros [H _]; congruence). reflexivity.
Qed.

Lemma includes_cons (needle : string) (c : Ascii.ascii) (s : string) :
  includes needle (String c s) = String.prefix needle (String c s) || includes needle s.
Proof. reflexivity. Qed.

Lemma squeeze_underscores_single (s : string) :
  includes "__" (squeeze_underscores s) = false.
Proof.
  induction s as [|c s IH]; [reflexivity|].
  rewrite squeeze_underscores_cons.
  destruct (decide (c = "_"%char ∧ head_char s = Some "_"%char)) as [H|H].
  - rewrite (bool_decide_eq_true_2 _ H). exact IH.
  - rewrite (bool_decide_eq_false_2 _ H).
    rewrite includes_cons, prefix_two_underscores, head_char_squeeze_underscores,
      (bool_decide_eq_false_2 _ H), IH. reflexivity.
Qed.

Lemma head_char_substring (n : nat) (s : string) (c : Ascii.ascii) :
  head_char (String.substring 0 n s) = Some c → head_char s = Some c.
Proof. destruct n, s; cbn; congruence. Qed.

Lemma includes_substring (n : nat) (s : string) :
  includes "__" s = false → includes "__" (String.substring 0 n s) = false.
Proof.
  revert s. induction n as [|n IH]; intros [|c s] H; try reflexivity.
  rewrite includes_cons, prefix_two_underscores in H.
  apply orb_false_iff in H as [Hhead Hrest].
  cbn [String.substring].
  rewrite includes_cons, prefix_two_underscores, (IH s Hrest), orb_false_r.
  apply bool_decide_eq_false_2. intros [Hc Hs].
  apply head_char_substring in Hs.
  rewrite bool_decide_eq_true_2 in Hhead by (split; assumption). discriminate Hhead.
Qed.

(** X20. Whatever [sanitize] leaves of a name, the safe file name made of
    it has at most 200 characters, no white space and no two underscores
    in a row. *)
Theorem safeFilename_is_tidy (w : Env) (name : string) :
  (String.length (safeFilename w name) ≤ 200)%nat
  ∧ has_space (safeFilename w name) = false
  ∧ includes "__" (safeFilename w name) = false.
Proof.
  unfold safeFilename. split; [apply length_substring_le|]. split.
  - apply has_space_substring, has_space_squeeze_underscores,
      has_space_spaces_to_underscore.
  - apply includes_substring, squeeze_underscores_single.
Qed.

End NameFacts.

(** * The commands: seeding, queueing, resuming *)

Module CommandFacts.
Import Js ProgressTracker Ledger Cli Commands.

Lemma getLesson_is_Some (t : Tracker) (i : string) :
  is_Some (getLesson t i) ↔ is_Some (find_lesson i (lessons (state t))).
Proof.
  unfold getLesson. destruct (find_lesson i (lessons (state t))); cbn; split;
    intros [x H]; try discriminate; eauto.
Qed.

(** [addLesson] keeps the records that are there, in their places. *)
Lemma addLesson_extends (t : Tracker) (x : LessonInput) :
  ∃ new, lessons (state (addLesson t x)) = lessons (state t) ++ new
         ∧ Forall (λ l, l = new_lesson x) new.
Proof.
  unfold addLesson. destruct (find_lesson (in_id x) (lessons (state t))).
  - exists []. rewrite app_nil_r. split; [reflexivity|constructor].
  - exists [new_lesson x]. split; [reflexivity|repeat constructor].
Qed.

Lemma find_lesson_app_l (i : string) (ls more : list LessonState) :
  is_Some (find_lesson i ls) → is_Some (find_lesson i (ls ++ more)).
Proof.
  intros [[k l] H]. apply LedgerFacts.find_lesson_Some in H as [Hk Hid].
  apply (LedgerFacts.find_lesson_present i _ l); [|exact Hid].
  apply elem_of_app. left. eapply list_elem_of_lookup_2. exact Hk.
Qed.

Lemma seed_extends (modules : list Module) :
  ∀ t, ∃ new,
    lessons (state (seed t modules)) = lessons (state t) ++ new
    ∧ Forall (λ l, ∃ m, m ∈ modules ∧ l = new_lesson (lesson_input m)) new.
Proof.
  induction modules as [|m ms IH]; intros t.
  - exists []. rewrite app_nil_r. split; [reflexivity|constructor].
  - destruct (addLesson_extends t (lesson_input m)) as (n1 & H1 & Hn1).
    destruct (IH (addLesson t (lesson_input m))) as (n2 & H2 & Hn2).
    exists (n1 ++ n2). cbn [seed foldl]. unfold seed in H2. rewrite H2, H1, app_assoc.
    split; [reflexivity|]. apply Forall_app. split.
    + eapply Forall_impl; [exact Hn1|]. intros l ->. exists m.
      split; [apply list_elem_of_here|reflexivity].
    + eapply Forall_impl; [exact Hn2|]. intros l (m' & Hm' & ->). exists m'.
      split; [apply list_elem_of_further; exact Hm'|reflexivity].
Qed.

Lemma seed_all_seeded (modules : list Module) :
  ∀ t, all_seeded (seed t modules) modules.
Proof.
  induction modules as [|m ms IH]; intros t m' Hm'.
  - apply elem_of_nil in Hm'. contradiction.
  - apply elem_of_cons in Hm' as [->|Hm'].
    + apply getLesson_is_Some. cbn [seed foldl].
      destruct (seed_extends ms (addLesson t (lesson_input m))) as (new & Heq & _).
      unfold seed in Heq. rewrite Heq. apply find_lesson_app_l.
      apply (LedgerFacts.addLesson_makes_present t (lesson_input m)).
    + apply (IH (addLesson t (lesson_input m))). exact Hm'.
Qed.

Lemma seed_noop (modules : list Module) :
  ∀ t, all_seeded t modules → seed t modules = t.
Proof.
  induction modules as [|m ms IH]; intros t Hall; [reflexivity|].
  cbn [seed foldl].
  assert (Hm : addLesson t (lesson_input m) = t).
  { apply LedgerFacts.addLesson_found. apply getLesson_is_Some.
    apply Hall, list_elem_of_here. }
  rewrite Hm. apply IH. intros m' Hm'. apply Hall, list_elem_of_further, Hm'.
Qed.

(** X21. Seeding the ledger with the modules of a course never touches a
    record that is there: the old records keep their places and contents,
    with their statuses, attempts and output paths; the records added come
    after them, one for a module, pending, with no attempt and no video
    address. Afterwards every module has its record, and seeding the same
    modules again changes nothing. *)
Theorem seeding_keeps_the_ledger (t : Tracker) (modules : list Module) :
  (∃ new,
     lessons (state (seed t modules)) = lessons (state t) ++ new
     ∧ Forall (λ l, status l = pending ∧ attempts l = 0 ∧ videoUrl l = None
                    ∧ ∃ m, m ∈ modules ∧ seeded_from m l) new)
  ∧ all_seeded (seed t modules) modules
  ∧ seed (seed t modules) modules = seed t modules.
Proof.
  split; [|split].
  - destruct (seed_extends modules t) as (new & Heq & Hnew).
    exists new. split; [exact Heq|].
    eapply Forall_impl; [exact Hnew|]. intros l (m & Hm & ->).
    repeat split; try reflexivity. exists m. split; [exact Hm|].
    repeat split; reflexivity.
  - apply seed_all_seeded.
  - apply seed_noop, seed_all_seeded.
Qed.

Lemma resume_items_lessons (w : ResourceDownloader.Env) (config : Config)
    (courseName : string) (pending : list LessonState) :
  DownloadQueue.lesson <$> resume_items w config courseName pending
  = filter has_address pending.
Proof.
  induction pending as [|l ls IH]; [reflexivity|].
  cbn [resume_items]. rewrite filter_cons. unfold resume_item.
  destruct (decide (has_address l)) as [H|H]; unfold has_address in H;
    destruct (videoUrl l) as [v|]; cbn [truthy_opt] in H; try discriminate H.
  - rewrite H. rewrite fmap_cons. cbn [DownloadQueue.lesson]. f_equal. exact IH.
  - destruct (truthy v); [contradiction|exact IH].
  - exact IH.
Qed.

Lemma resume_items_shape (w : ResourceDownloader.Env) (config : Config)
    (courseName : string) (pending : list LessonState) :
  Forall (λ d, videoUrl (DownloadQueue.lesson d) = Some (DownloadQueue.downloadUrl d)
               ∧ DownloadQueue.referer d = None
               ∧ DownloadQueue.cookiesFile d
                 = Some (ResourceDownloader.path_join w (stateDir config) "cookies.txt")
               ∧ DownloadQueue.outputPath d
                 = FileUtils.generateOutputPath w (downloadDir config) courseName
                     (moduleIndex (DownloadQueue.lesson d))
                     (moduleTitle (DownloadQueue.lesson d))
                     (lessonIndex (DownloadQueue.lesson d))
                     (lessonTitle (DownloadQueue.lesson d)))
    (resume_items w config courseName pending).
Proof.
  induction pending as [|l ls IH]; [constructor|].
  cbn [resume_items]. unfold resume_item.
  destruct (videoUrl l) as [v|] eqn:Hv; [|exact IH].
  destruct (truthy v); [|exact IH].
  constructor; [|exact IH]. cbn. repeat split. exact Hv.
Qed.

(** X22. What [resumeCommand] queues: exactly the lessons of the ledger
    that [getPendingLessons] returns and that have a video address, in the
    order of the ledger, each under its recorded address, with the exported
    cookies and without a referer. A lesson that is completed, skipped or
    being downloaded, or that has failed three times, is never queued. *)
Theorem resume_queues_retryable_lessons (w : ResourceDownloader.Env) (config : Config)
    (loaded : option Tracker) (ytDlp : bool) (browser : option string)
    (items : list DownloadQueue.QueuedDownload) :
  resumeCommand w config loaded ytDlp browser = Resumed items →
  ∃ t,
    loaded = Some t
    ∧ DownloadQueue.lesson <$> items
      = filter has_address (filter eligible (lessons (state t)))
    ∧ Forall (λ d, DownloadQueue.lesson d ∈ lessons (state t)
                   ∧ eligible (DownloadQueue.lesson d)
                   ∧ videoUrl (DownloadQueue.lesson d)
                     = Some (DownloadQueue.downloadUrl d)
                   ∧ DownloadQueue.referer d = None
                   ∧ DownloadQueue.cookiesFile d
                     = Some (ResourceDownloader.path_join w (stateDir config)
                               "cookies.txt")) items.
Proof.
  unfold resumeCommand. destruct loaded as [t|]; [|discriminate].
  destruct (negb (hasExistingProgress t)); [discriminate|].
  destruct (decide _); [discriminate|].
  destruct (negb ytDlp); [discriminate|].
  destruct browser; [discriminate|].
  intros [= <-]. exists t. split; [reflexivity|].
  pose proof (resume_items_lessons w config (getCourseName t) (getPendingLessons t))
    as Hls.
  split; [exact Hls|].
  pose proof (resume_items_shape w config (getCourseName t) (getPendingLessons t))
    as Hshape.
  rewrite Forall_forall in Hshape |- *. intros d Hd.
  destruct (Hshape d Hd) as (Hu & Hr & Hc & _).
  assert (Hin : DownloadQueue.lesson d
                ∈ filter has_address (getPendingLessons t)).
  { rewrite <- Hls. apply list_elem_of_fmap. exists d. split; [reflexivity|exact Hd]. }
  apply list_elem_of_filter in Hin as [_ Hin].
  unfold getPendingLessons in Hin. apply list_elem_of_filter in Hin as [He Hin].
  repeat split; assumption.
Qed.

Lemma resume_queues_retryable_lessons_witness :
  let w := Worlds.around Worlds.loop_server in
  let config := mkConfig "state" "out" 2 false "en" in
  let t := Worlds.ledger [Worlds.intro; Worlds.basics] in
  ∃ items,
    resumeCommand w config (Some t) true None = Resumed items
    ∧ DownloadQueue.lesson <$> items = [Worlds.intro].
Proof.
  intros w config t.
  assert (H : ∃ items, resumeCommand w config (Some t) true None = Resumed items).
  { vm_compute. eexists. reflexivity. }
  destruct H as [items H]. exists items. split; [exact H|].
  destruct (resume_queues_retryable_lessons w config (Some t) true None items H)
    as (t' & Ht' & Hls & _).
  injection Ht' as <-. rewrite Hls. vm_compute. reflexivity.
Defined.

Lemma resume_items_without_address (w : ResourceDownloader.Env) (config : Config)
    (courseName : string) (pending : list LessonState) :
  Forall (λ l, videoUrl l = None) pending →
  resume_items w config courseName pending = [].
Proof.
  induction 1 as [|l ls Hl _ IH]; [reflexivity|].
  cbn [resume_items]. unfold resume_item. rewrite Hl. exact IH.
Qed.

(** X23. A ledger that has only been seeded cannot be resumed: when the
    ledger was empty and the modules of the course were added to it,
    [resumeCommand] finds lessons to resume, passes its checks, and queues
    nothing, because no record has a video address yet. *)
Theorem seeded_ledger_resumes_nothing (w : ResourceDownloader.Env) (config : Config)
    (t : Tracker) (modules : list Module) :
  lessons (state t) = [] → modules ≠ [] →
  getPendingLessons (seed t modules) = lessons (state (seed t modules))
  ∧ lessons (state (seed t modules)) ≠ []
  ∧ resumeCommand w config (Some (seed t modules)) true None = Resumed [].
Proof.
  intros Hempty Hmods.
  destruct (seed_extends modules t) as (new & Heq & Hnew).
  rewrite Hempty in Heq. cbn [app] in Heq.
  assert (Hne : lessons (state (seed t modules)) ≠ []).
  { destruct modules as [|m ms]; [contradiction|].
    pose proof (seed_all_seeded (m :: ms) t m (list_elem_of_here _ _)) as Hm.
    apply getLesson_is_Some in Hm. destruct Hm as [[k l] Hf].
    apply LedgerFacts.find_lesson_Some in Hf as [Hk _].
    intros E. rewrite E in Hk. discriminate Hk. }
  assert (Hpend : getPendingLessons (seed t modules) = lessons (state (seed t modules))).
  { unfold getPendingLessons. rewrite Heq. clear Heq Hne.
    induction Hnew as [|l ls (m & _ & ->) _ IH]; [reflexivity|].
    rewrite filter_cons_True by (left; reflexivity). f_equal. exact IH. }
  split; [exact Hpend|]. split; [exact Hne|].
  unfold resumeCommand, hasExistingProgress. rewrite Hpend, Heq. rewrite Heq in Hne.
  destruct new as [|l ls]; [contradiction|].
  rewrite bool_decide_eq_true_2 by (cbn; lia). cbn [negb].
  destruct (decide (length (l :: ls) = 0%nat)) as [E|_]; [discriminate E|].
  f_equal. apply resume_items_without_address.
  eapply Forall_impl; [exact Hnew|]. intros l' (m & _ & ->). reflexivity.
Qed.

Lemma seeded_ledger_resumes_nothing_witness :
  let w := Worlds.around Worlds.loop_server in
  let config := mkConfig "state" "out" 2 false "en" in
  let t := Worlds.ledger [] in
  let modules := [mkModule "M1" "Intro" "C1" "Basics" 0 "https://www.skool.com/c/M1"] in
  lessons (state t) = [] ∧ modules ≠ []
  ∧ resumeCommand w config (Some (seed t modules)) true None = Resumed [].
Proof.
  intros w config t modules.
  assert (H1 : lessons (state t) = []) by reflexivity.
  assert (H2 : modules ≠ []) by discriminate.
  split; [exact H1|]. split; [exact H2|].
  exact (proj2 (proj2 (seeded_ledger_resumes_nothing w config t modules H1 H2))).
Defined.

Lemma getLesson_elem (t : Tracker) (i : string) (l : LessonState) :
  getLesson t i = Some l → l ∈ lessons (state t) ∧ id l = i.
Proof.
  unfold getLesson. destruct (find_lesson i (lessons (state t))) as [[k l0]|] eqn:Hf;
    [|discriminate].
  intros [= <-]. apply LedgerFacts.find_lesson_Some in Hf as [Hk Hid].
  split; [eapply list_elem_of_lookup_2; exact Hk|exact Hid].
Qed.

(** X24. A module without a video is skipped for good: when
    [getDownloadableUrl] gives no address, the loop of [downloadCommand]
    queues nothing and leaves the lesson skipped with the error
    [No video found], without a video address and with its attempts
    unchanged; the lesson is not among the pending lessons, and
    [resumeCommand] does not queue it. *)
Theorem module_without_video_is_skipped (w : ResourceDownloader.Env) (config : Config)
    (courseName : string) (courseIndex : Z) (t : Tracker) (m : Module)
    (info : VideoExtractor.VideoInfo) (l : LessonState) :
  getLesson t (m_id m) = Some l →
  truthy_opt (VideoExtractor.getDownloadableUrl info) = false →
  ∃ t' l',
    after_extraction w config courseName courseIndex t m info = (t', NoVideo)
    ∧ getLesson t' (m_id m) = Some l'
    ∧ status l' = skipped ∧ error l' = Some "No video found"
    ∧ videoUrl l' = None ∧ attempts l' = attempts l
    ∧ (l' ∉ getPendingLessons t')
    ∧ resume_item w config courseName l' = None.
Proof.
  intros Hg Hno.
  set (u := video_updates (VideoExtractor.getDownloadableUrl info)
              (VideoExtractor.provider info)).
  assert (H1 : getLesson (updateLesson t (m_id m) u) (m_id m) = Some (assign l u))
    by (apply LedgerFacts.getLesson_updateLesson; [reflexivity|exact Hg]).
  assert (H2 : ∃ l', getLesson (markSkipped (updateLesson t (m_id m) u) (m_id m)
                                  "No video found") (m_id m) = Some l'
                     ∧ status l' = skipped ∧ error l' = Some "No video found"
                     ∧ videoUrl l' = None ∧ attempts l' = attempts l).
  { eexists. split.
    - unfold markSkipped. apply LedgerFacts.getLesson_updateLesson;
        [reflexivity|exact H1].
    - cbn. rewrite Hno. repeat split; reflexivity. }
  destruct H2 as (l' & Hg' & Hs & He & Hv & Ha).
  exists (markSkipped (updateLesson t (m_id m) u) (m_id m) "No video found"), l'.
  split; [|split; [exact Hg'|repeat split; try assumption]].
  - unfold after_extraction. fold u.
    destruct (VideoExtractor.getDownloadableUrl info) as [v|]; [|reflexivity].
    cbn [truthy_opt] in Hno. rewrite Hno. reflexivity.
  - unfold getPendingLessons. rewrite list_elem_of_filter.
    intros [[Hp|[Hf _]] _]; congruence.
  - unfold resume_item. rewrite Hv. reflexivity.
Qed.

Lemma module_without_video_is_skipped_witness :
  let w := Worlds.around Worlds.loop_server in
  let config := mkConfig "state" "out" 2 false "en" in
  let t := Worlds.ledger [Worlds.intro; Worlds.basics] in
  let m := mkModule "L1" "Intro" "C1" "Basics" 0 "https://www.skool.com/c/L1" in
  let info := VideoExtractor.mkVideoInfo VideoExtractor.unknown None None None in
  getLesson t (m_id m) = Some Worlds.intro
  ∧ truthy_opt (VideoExtractor.getDownloadableUrl info) = false
  ∧ ∃ t', after_extraction w config "c" 0 t m info = (t', NoVideo).
Proof.
  intros w config t m info.
  assert (H1 : getLesson t (m_id m) = Some Worlds.intro) by reflexivity.
  assert (H2 : truthy_opt (VideoExtractor.getDownloadableUrl info) = false)
    by reflexivity.
  split; [exact H1|]. split; [exact H2|].
  destruct (module_without_video_is_skipped w config "c" 0 t m info _ H1 H2)
    as (t' & l' & H & _).
  exists t'. exact H.
Defined.



(** X26. When a lesson gets a download address: exactly when the page gave
    an address, or a video id for one of the hosted providers (Wistia,
    Vimeo, YouTube, Loom). For a hosted provider with a video id the
    address is made of the id alone, whatever address the page gave. A
    native or unknown video that is known by its id only gets none. *)
Theorem address_found_exactly_when (info : VideoExtractor.VideoInfo) :
  truthy_opt (VideoExtractor.getDownloadableUrl info)
  = (hosted (VideoExtractor.provider info)
     && truthy_opt (VideoExtractor.videoId info))
    || truthy_opt (VideoExtractor.url info)
  ∧ (hosted (VideoExtractor.provider info)
     && truthy_opt (VideoExtractor.videoId info) = true →
     ∀ u e, VideoExtractor.getDownloadableUrl
              (VideoExtractor.mkVideoInfo (VideoExtractor.provider info) u e
                 (VideoExtractor.videoId info))
            = VideoExtractor.getDownloadableUrl info).
Proof.
  destruct info as [p u e v]. cbn [VideoExtractor.provider VideoExtractor.url
                                   VideoExtractor.videoId].
  unfold VideoExtractor.getDownloadableUrl, VideoExtractor.from_id.
  cbn [VideoExtractor.provider VideoExtractor.url VideoExtractor.videoId].
  split.
  - destruct p, u as [[|a u]|], v as [[|b v]|]; cbn [truthy_opt truthy negb andb orb hosted];
      try reflexivity;
      destruct (includes ":" (String b v)); reflexivity.
  - intros H u' e'.
    destruct p; cbn [hosted andb] in H; try discriminate H;
      destruct v as [[|b v]|]; cbn [truthy_opt truthy] in H; try discriminate H;
      cbn [truthy_opt truthy negb andb]; rewrite !andb_false_r; reflexivity.
Qed.

(** X27. [findVideoFile] answers with the first of [.mp4], [.mkv],
    [.webm], [.mov], in this order, for which the base path with that
    extension exists, and with nothing exactly when none of the four
    exists: a lesson saved both as [.mp4] and as [.webm] is reported as
    [.mp4]. *)
Theorem findVideoFile_first_extension (d : Disk) (basePath : string) :
  match FileUtils.findVideoFile d basePath with
  | Some p =>
      ∃ k ext, [".mp4"; ".mkv"; ".webm"; ".mov"] !! k = Some ext
               ∧ p = basePath +:+ ext
               ∧ fileExists d p = true
               ∧ ∀ j e, [".mp4"; ".mkv"; ".webm"; ".mov"] !! j = Some e → (j < k)%nat →
                        fileExists d (basePath +:+ e) = false
  | None =>
      fileExists d (basePath +:+ ".mp4") = false
      ∧ fileExists d (basePath +:+ ".mkv") = false
      ∧ fileExists d (basePath +:+ ".webm") = false
      ∧ fileExists d (basePath +:+ ".mov") = false
  end.
Proof.
  unfold FileUtils.findVideoFile, FileUtils.extensions.
  cbn [FileUtils.first_existing].
  destruct (fileExists d (basePath +:+ ".mp4")) eqn:H1.
  { exists 0%nat, ".mp4". repeat split; try assumption. intros j e _ Hlt. lia. }
  destruct (fileExists d (basePath +:+ ".mkv")) eqn:H2.
  { exists 1%nat, ".mkv". repeat split; try assumption.
    intros [|j] e Hj Hlt; [injection Hj as <-; exact H1|lia]. }
  destruct (fileExists d (basePath +:+ ".webm")) eqn:H3.
  { exists 2%nat, ".webm". repeat split; try assumption.
    intros [|[|j]] e Hj Hlt; [injection Hj as <-; exact H1
                             |injection Hj as <-; exact H2|lia]. }
  destruct (fileExists d (basePath +:+ ".mov")) eqn:H4.
  { exists 3%nat, ".mov". repeat split; try assumption.
    intros [|[|[|j]]] e Hj Hlt; [injection Hj as <-; exact H1
                                |injection Hj as <-; exact H2
                                |injection Hj as <-; exact H3|lia]. }
  repeat split; reflexivity.
Qed.

End CommandFacts.
